(** * FieldDependencies: a shallow embedding of src/field-dependencies.js

    The engine links "state" predicates on dependency elements to
    "modifier" mutations on dependent elements.  The JavaScript objects
    that the engine allocates (Element, State, Modifier) are mutable and
    shared by reference, so they live in three heaps and are named by
    their index; the maps keyed by name are JavaScript objects whose
    enumeration order matters for the fan-out, so they are ordered
    property lists.

    Modelling conventions:
    - the module is loaded as a classic (sloppy-mode) script, so [this]
      in both immediately-invoked functions and the variable [that] all
      denote the same global object; the record [Engine] is that object;
    - the name-keyed maps are object literals: a read [o[k]] that finds
      no own property goes on to the prototype, so the members of
      Object.prototype are found under every object, and an assignment
      to ["__proto__"] installs a prototype and creates no property;
    - state and modifier callbacks are typed host functions; a predicate
      reads the host world, a mutation transforms it, and neither calls
      back into the engine.  Where the source would carry on with a
      callback that is not a function, the model ends the call with
      [UntypedCallback];
    - the cascade may recurse for ever on a cyclic graph, so the runtime
      functions take fuel. *)

From Stdlib Require Import NArith Ascii String.
From stdpp Require Import base option list sorting strings gmap fin_maps.

Local Open Scope string_scope.
Local Open Scope list_scope.

(** ** JavaScript objects used as name-keyed maps *)

Module Js.

Definition Obj (A : Type) := list (string * A).

(** [o[k]] for an own property. *)
Fixpoint get {A} (k : string) (o : Obj A) : option A :=
  match o with
  | [] => None
  | (k', v) :: o' => if decide (k = k') then Some v else get k o'
  end.

(** [o[k] = v]: an existing property keeps its position, a new one is
    created last. *)
Fixpoint set {A} (k : string) (v : A) (o : Obj A) : Obj A :=
  match o with
  | [] => [(k, v)]
  | (k', v') :: o' =>
      if decide (k = k') then (k, v) :: o' else (k', v') :: set k v o'
  end.

Definition digit (c : ascii) : option N :=
  let n := N_of_ascii c in
  if ((48 <=? n) && (n <=? 57))%N then Some (n - 48)%N else None.

Fixpoint digits (s : string) (acc : N) : option N :=
  match s with
  | EmptyString => Some acc
  | String c s' =>
      match digit c with
      | Some d => digits s' (10 * acc + d)%N
      | None => None
      end
  end.

(** A property name is an array index when it is the canonical decimal
    form of an integer below 2^32 - 1. *)
Definition array_index (s : string) : option N :=
  match s with
  | EmptyString => None
  | String c s' =>
      if decide (c = "0"%char) then
        match s' with EmptyString => Some 0%N | _ => None end
      else
        match digits s 0 with
        | Some n => if (n <? 4294967295)%N then Some n else None
        | None => None
        end
  end.

Definition is_index {A} (p : string * A) : bool :=
  match array_index p.1 with Some _ => true | None => false end.

Definition index_of {A} (p : string * A) : N :=
  match array_index p.1 with Some n => n | None => 0%N end.

Fixpoint insert_sorted {A} (p : string * A) (l : Obj A) : Obj A :=
  match l with
  | [] => [p]
  | q :: l' =>
      if (index_of p <=? index_of q)%N then p :: q :: l'
      else q :: insert_sorted p l'
  end.

Fixpoint sort_indices {A} (l : Obj A) : Obj A :=
  match l with
  | [] => []
  | p :: l' => insert_sorted p (sort_indices l')
  end.

(** The members that every object inherits from Object.prototype, with
    the accessor ["__proto__"]. *)
Definition ObjectPrototype : list string :=
  ["__proto__"; "constructor"; "hasOwnProperty"; "isPrototypeOf";
   "propertyIsEnumerable"; "toLocaleString"; "toString"; "valueOf";
   "__defineGetter__"; "__defineSetter__"; "__lookupGetter__";
   "__lookupSetter__"].

Definition inherited (k : string) : bool :=
  bool_decide (k ∈ ObjectPrototype).


(** The order in which [for (var i in o)] visits the own properties of
    [o]: array-index names first, in ascending numeric order, then the
    other names in creation order. *)
Definition forin {A} (o : Obj A) : Obj A :=
  sort_indices (List.filter is_index o)
    ++ List.filter (fun p => negb (is_index p)) o.

End Js.

(** ** Errors and results *)

Inductive Error :=
  | UnknownTemplate (name : string)
      (* reading [.callback] of the [undefined] found under [name] *)
  | NullReference
      (* reading a member of [null] or [undefined] *)
  | NotAFunction (member : string)
      (* calling [member] where it is not a function *)
  | UntypedCallback (name : string).
      (* not an exception of the source: under [name] it finds a value
         that has no [callback] and goes on with an instance whose
         callback is [undefined]; the model has no such instance *)

(** What a read of an Element's [states] or [modifiers] can yield, apart
    from [undefined]: an attached instance, or a member inherited from
    the prototype. *)
Inductive Ref :=
  | Inst (n : nat)
  | Member (name : string).

Inductive result (A : Type) :=
  | Ok (a : A)
  | Throw (e : Error).
Arguments Ok {A} a.
Arguments Throw {A} e.

Section FieldDependencies.

(** [Host] is the type of host references (the jQuery objects handed to
    the engine) and [World] the state of the page they live in. *)
Context {Host World : Type}.

(** ** The three constructors *)

Record State := mkState {
  State_element : option nat;
  State_callback : Host -> World -> bool;
  State_modifiers : list nat
}.

Record Modifier := mkModifier {
  Modifier_element : option nat;
  Modifier_callback : Host -> World -> World;
  Modifier_states : list nat
}.

Record Element := mkElement {
  Element_host : Host;
  Element_states : Js.Obj nat;
  Element_modifiers : Js.Obj nat
}.

Definition new_State (callback : Host -> World -> bool) : State :=
  mkState None callback [].

Definition new_Modifier (callback : Host -> World -> World) : Modifier :=
  mkModifier None callback [].

Definition new_Element (host : Host) : Element :=
  mkElement host [] [].

(** Every State carries these members as own properties, assigned by
    its constructor; the fan-out tests two of them. *)
Definition State_hasOwnProperty (name : string) : bool :=
  bool_decide (name ∈ ["element"; "callback"; "modifiers"; "publish";
                        "isActive"; "setElement"; "addModifier"]).

(** Likewise every Modifier. *)
Definition Modifier_hasOwnProperty (name : string) : bool :=
  bool_decide (name ∈ ["element"; "callback"; "states"; "execute";
                        "setElement"; "subscribe"]).

(** ** The global object

    [elements] holds the own properties of the registry.  The two
    template containers hold their own properties and, under
    ["__proto__"], the template that an assignment to that name has
    installed as their prototype: it is what a read of ["__proto__"]
    yields, and its members are inherited. *)

Record Engine := mkEngine {
  statesContainer : gmap string State;
  modifiersContainer : gmap string Modifier;
  getElementKey : Host -> string;
  elements : gmap string nat;
  heapE : list Element;
  heapS : list State;
  heapM : list Modifier
}.

Definition init (key : Host -> string) : Engine :=
  mkEngine ∅ ∅ key ∅ [] [] [].

Definition with_statesContainer (c : gmap string State) (g : Engine) :=
  mkEngine c (modifiersContainer g) (getElementKey g) (elements g)
           (heapE g) (heapS g) (heapM g).
Definition with_modifiersContainer (c : gmap string Modifier) (g : Engine) :=
  mkEngine (statesContainer g) c (getElementKey g) (elements g)
           (heapE g) (heapS g) (heapM g).
Definition with_getElementKey (k : Host -> string) (g : Engine) :=
  mkEngine (statesContainer g) (modifiersContainer g) k (elements g)
           (heapE g) (heapS g) (heapM g).
Definition with_elements (r : gmap string nat) (g : Engine) :=
  mkEngine (statesContainer g) (modifiersContainer g) (getElementKey g) r
           (heapE g) (heapS g) (heapM g).
Definition with_heapE (h : list Element) (g : Engine) :=
  mkEngine (statesContainer g) (modifiersContainer g) (getElementKey g)
           (elements g) h (heapS g) (heapM g).
Definition with_heapS (h : list State) (g : Engine) :=
  mkEngine (statesContainer g) (modifiersContainer g) (getElementKey g)
           (elements g) (heapE g) h (heapM g).
Definition with_heapM (h : list Modifier) (g : Engine) :=
  mkEngine (statesContainer g) (modifiersContainer g) (getElementKey g)
           (elements g) (heapE g) (heapS g) h.

(** ** Setup code runs in a state-and-exception monad: an exception
    keeps the engine as it was when it was thrown. *)

Definition M (A : Type) := Engine -> Engine * result A.

Definition ret {A} (a : A) : M A := fun g => (g, Ok a).
Definition throw {A} (e : Error) : M A := fun g => (g, Throw e).
Definition bind {A B} (m : M A) (k : A -> M B) : M B :=
  fun g => match m g with
           | (g', Ok a) => k a g'
           | (g', Throw e) => (g', Throw e)
           end.

Notation "x <- m ;; k" := (bind m (fun x => k))
  (at level 100, m at next level, right associativity).
Notation "m ;;; k" := (bind m (fun _ => k))
  (at level 100, right associativity).

Fixpoint for_each_M {A} (body : A -> M unit) (l : list A) : M unit :=
  match l with
  | [] => ret tt
  | x :: l' => body x ;;; for_each_M body l'
  end.

(** Reading and updating an allocated object. *)
Definition readE (e : nat) : M Element := fun g =>
  match heapE g !! e with Some o => (g, Ok o) | None => (g, Throw NullReference) end.
Definition readS (s : nat) : M State := fun g =>
  match heapS g !! s with Some o => (g, Ok o) | None => (g, Throw NullReference) end.
Definition readM (m : nat) : M Modifier := fun g =>
  match heapM g !! m with Some o => (g, Ok o) | None => (g, Throw NullReference) end.

Definition writeE (e : nat) (o : Element) : M unit := fun g =>
  (with_heapE (<[e := o]> (heapE g)) g, Ok tt).
Definition writeS (s : nat) (o : State) : M unit := fun g =>
  (with_heapS (<[s := o]> (heapS g)) g, Ok tt).
Definition writeM (m : nat) (o : Modifier) : M unit := fun g =>
  (with_heapM (<[m := o]> (heapM g)) g, Ok tt).

Definition allocE (o : Element) : M nat := fun g =>
  (with_heapE (heapE g ++ [o]) g, Ok (length (heapE g))).
Definition allocS (o : State) : M nat := fun g =>
  (with_heapS (heapS g ++ [o]) g, Ok (length (heapS g))).
Definition allocM (o : Modifier) : M nat := fun g =>
  (with_heapM (heapM g ++ [o]) g, Ok (length (heapM g))).

(** ** statesContainer and modifiersContainer *)

Definition statesContainer_add (key : string) (state : State) : M unit :=
  fun g => (with_statesContainer (<[key := state]> (statesContainer g)) g, Ok tt).

(** [var state = this.states[key]; ... state.callback] when [key] is no
    own property of the container.  With a template installed as the
    prototype, [state] is one of its members: [element] is [null] in a
    template, and reading [.callback] of it throws; every other member,
    like every member of Object.prototype, has no [callback], and the
    source goes on to build an instance whose callback is not a
    function, which the typed model does not follow
    ([UntypedCallback]).  Any other name finds [undefined], and reading
    [.callback] of it throws.  [member] tells the own members of the
    installed prototype; its constructor is in [Js.ObjectPrototype]. *)
Definition template_miss (proto : option (option nat)) (member : string -> bool)
    (key : string) : Error :=
  match proto with
  | Some element =>
      if decide (key = "element") then
        match element with
        | None => NullReference
        | Some _ => UntypedCallback key
        end
      else if member key || Js.inherited key then UntypedCallback key
      else UnknownTemplate key
  | None =>
      if Js.inherited key then UntypedCallback key else UnknownTemplate key
  end.

Definition statesContainer_get (key : string) : M nat := fun g =>
  match statesContainer g !! key with
  | Some state => allocS (new_State (State_callback state)) g
  | None =>
      (g, Throw (template_miss (State_element <$> statesContainer g !! "__proto__")
                               State_hasOwnProperty key))
  end.

Definition modifiersContainer_add (key : string) (modifier : Modifier) : M unit :=
  fun g => (with_modifiersContainer (<[key := modifier]> (modifiersContainer g)) g, Ok tt).

Definition modifiersContainer_get (key : string) : M nat := fun g =>
  match modifiersContainer g !! key with
  | Some modifier => allocM (new_Modifier (Modifier_callback modifier)) g
  | None =>
      (g, Throw (template_miss
                   (Modifier_element <$> modifiersContainer g !! "__proto__")
                   Modifier_hasOwnProperty key))
  end.

(** ** elementsContainer *)

(** [this.elements.hasOwnProperty(key)] calls whatever the registry
    answers to ["hasOwnProperty"]: the method of Object.prototype, unless
    an Element is stored under that name.  ["__proto__"] is never an own
    property. *)
Definition elementsContainer_get (host : Host) : M (option nat) := fun g =>
  let key := getElementKey g host in
  match elements g !! "hasOwnProperty" with
  | Some _ => (g, Throw (NotAFunction "hasOwnProperty"))
  | None =>
      (g, Ok (if decide (key = "__proto__") then None else elements g !! key))
  end.

(** [that.elements[key] = element]: under ["__proto__"] the Element
    becomes the prototype of the registry, which no search looks at, and
    no property is created. *)
Definition elements_assign (key : string) (e : nat) : M unit := fun g =>
  (if decide (key = "__proto__") then g
   else with_elements (<[key := e]> (elements g)) g, Ok tt).

Definition resolve (host : Host) : M nat :=
  element <- elementsContainer_get host ;;
  match element with
  | Some e => ret e
  | None =>
      fun g =>
        let key := getElementKey g host in
        (e <- allocE (new_Element host) ;;
         elements_assign key e ;;;
         ret e) g
  end.

(** ** Element, State and Modifier methods used at setup *)

Definition State_setElement (s e : nat) : M nat :=
  o <- readS s ;;
  writeS s (mkState (Some e) (State_callback o) (State_modifiers o)) ;;;
  ret s.

Definition Modifier_setElement (m e : nat) : M nat :=
  o <- readM m ;;
  writeM m (mkModifier (Some e) (Modifier_callback o) (Modifier_states o)) ;;;
  ret m.

Definition attachState (e : nat) (key : string) (state : nat) : M unit :=
  s <- State_setElement state e ;;
  o <- readE e ;;
  writeE e (mkElement (Element_host o) (Js.set key s (Element_states o))
                      (Element_modifiers o)).

(** [o[key]] on the [states] or [modifiers] of an Element: the attached
    instance, else the member that Object.prototype has under that
    name, else [undefined]. *)
Definition read_attached (key : string) (o : Js.Obj nat) : option Ref :=
  match Js.get key o with
  | Some n => Some (Inst n)
  | None => if Js.inherited key then Some (Member key) else None
  end.

Definition getState (e : nat) (key : string) : M (option Ref) :=
  o <- readE e ;; ret (read_attached key (Element_states o)).

Definition attachModifier (e : nat) (key : string) (modifier : nat) : M unit :=
  m <- Modifier_setElement modifier e ;;
  o <- readE e ;;
  writeE e (mkElement (Element_host o) (Element_states o)
                      (Js.set key m (Element_modifiers o))).

Definition getModifier (e : nat) (key : string) : M (option Ref) :=
  o <- readE e ;; ret (read_attached key (Element_modifiers o)).

Definition State_addModifier (s modifier : nat) : M unit :=
  o <- readS s ;;
  writeS s (mkState (State_element o) (State_callback o)
                    (State_modifiers o ++ [modifier])).

Definition subscribe (m state : nat) : M unit :=
  State_addModifier state m ;;;
  o <- readM m ;;
  writeM m (mkModifier (Modifier_element o) (Modifier_callback o)
                       (Modifier_states o ++ [state])).

(** ** createRelationship *)

(** Lines 278-280: attach the named State unless [getState] answers
    with something. *)
Definition ensure_state (e : nat) (name : string) : M unit :=
  st <- getState e name ;;
  match st with
  | Some _ => ret tt
  | None => s <- statesContainer_get name ;; attachState e name s
  end.

(** Lines 283-285: attach the named Modifier unless [getModifier]
    answers with something. *)
Definition ensure_modifier (e : nat) (name : string) : M unit :=
  md <- getModifier e name ;;
  match md with
  | Some _ => ret tt
  | None => m <- modifiersContainer_get name ;; attachModifier e name m
  end.

(** Lines 276-285: resolve both elements and attach what is missing. *)
Definition attach_both (dep_host : Host) (dependencyStateName : string)
    (dependent_host : Host) (dependentModifierName : string) : M (nat * nat) :=
  dependencyElement <- resolve dep_host ;;
  ensure_state dependencyElement dependencyStateName ;;;
  dependentElement <- resolve dependent_host ;;
  ensure_modifier dependentElement dependentModifierName ;;;
  ret (dependencyElement, dependentElement).

(** Lines 287-289: the subscription named by the call. *)
Definition subscribe_named (dependencyElement : nat) (dependencyStateName : string)
    (dependentElement : nat) (dependentModifierName : string) : M nat :=
  pubState <- getState dependencyElement dependencyStateName ;;
  subModifier <- getModifier dependentElement dependentModifierName ;;
  match subModifier with
  | Some (Inst m) =>
      match pubState with
      | Some (Inst s) => subscribe m s ;;; ret m
      | Some (Member _) => throw (NotAFunction "addModifier")
      | None => throw NullReference
      end
  | Some (Member _) => throw (NotAFunction "subscribe")
  | None => throw NullReference
  end.

(** What line 289 throws when [getState] or [getModifier] did not answer
    with an instance. *)
Definition refusal (pubState subModifier : option Ref) : option Error :=
  match subModifier with
  | Some (Inst _) =>
      match pubState with
      | Some (Inst _) => None
      | Some (Member _) => Some (NotAFunction "addModifier")
      | None => Some NullReference
      end
  | Some (Member _) => Some (NotAFunction "subscribe")
  | None => Some NullReference
  end.

(** Lines 291-298: the inheritance step.  The loop visits the entries
    that [cascadingStates] holds when it starts; an inherited member has
    no [states], and a loop over [undefined] visits nothing. *)
Definition inherit (dependencyElement : nat) (dependentModifierName : string)
    (subModifier : nat) : M unit :=
  up <- getModifier dependencyElement dependentModifierName ;;
  match up with
  | Some (Inst m') =>
      o <- readM m' ;;
      let cascadingStates := Modifier_states o in
      for_each_M (fun s => subscribe subModifier s) cascadingStates
  | Some (Member _) => ret tt
  | None => ret tt
  end.

Definition createRelationship (dep_host : Host) (dependencyStateName : string)
    (dependent_host : Host) (dependentModifierName : string)
    (inheritState : bool) : M unit :=
  els <- attach_both dep_host dependencyStateName
                     dependent_host dependentModifierName ;;
  let '(dependencyElement, dependentElement) := els in
  subModifier <- subscribe_named dependencyElement dependencyStateName
                                 dependentElement dependentModifierName ;;
  if inheritState
  then inherit dependencyElement dependentModifierName subModifier
  else ret tt.

(** ** The public operations *)

Definition addState (name : string) (callback : Host -> World -> bool) : M unit :=
  statesContainer_add name (new_State callback).

Definition addModifier (name : string) (callback : Host -> World -> World) : M unit :=
  modifiersContainer_add name (new_Modifier callback).

Definition setElementKeyCallback (callback : Host -> string) : M unit :=
  fun g => (with_getElementKey callback g, Ok tt).

(** ** The cascade: fan-out, publish, execute *)

(** What a run of the cascade leaves behind, in the order it happened. *)
Inductive Event :=
  | EvFanOut (element : nat)           (* modifyDependents entered *)
  | EvPublish (state : nat)            (* publish entered *)
  | EvMutate (modifier : nat) (host : Host).
                                       (* mutation callback applied to host *)

Definition Cfg : Type := World * list Event.

Inductive run :=
  | Done (c : Cfg)
  | Crash (e : Error)
  | OutOfFuel.

Definition run_bind (r : run) (k : Cfg -> run) : run :=
  match r with
  | Done c => k c
  | Crash e => Crash e
  | OutOfFuel => OutOfFuel
  end.

Fixpoint for_each {A} (body : A -> Cfg -> run) (l : list A) (c : Cfg) : run :=
  match l with
  | [] => Done c
  | x :: l' => run_bind (body x c) (for_each body l')
  end.

(** [State.isActive]: the predicate applied to the host of the owning
    Element, in the world as it is now. *)
Definition isActive (g : Engine) (s : nat) (w : World) : result bool :=
  match heapS g !! s with
  | Some st =>
      match State_element st with
      | Some e =>
          match heapE g !! e with
          | Some el => Ok (State_callback st (Element_host el) w)
          | None => Throw NullReference
          end
      | None => Throw NullReference
      end
  | None => Throw NullReference
  end.

(** [Element.getActiveStates]: a fresh object that receives, in
    enumeration order, the attached States that are active. *)
Fixpoint collect_active (g : Engine) (w : World) (states : Js.Obj nat)
    (activeStates : Js.Obj nat) : result (Js.Obj nat) :=
  match states with
  | [] => Ok activeStates
  | (i, s) :: rest =>
      if State_hasOwnProperty "isActive" then
        match isActive g s w with
        | Ok true => collect_active g w rest (Js.set i s activeStates)
        | Ok false => collect_active g w rest activeStates
        | Throw err => Throw err
        end
      else collect_active g w rest activeStates
  end.

Definition getActiveStates (g : Engine) (e : nat) (w : World)
    : result (Js.Obj nat) :=
  match heapE g !! e with
  | Some el => collect_active g w (Js.forin (Element_states el)) []
  | None => Throw NullReference
  end.

(** [Modifier.execute]: mutate the host of the owning Element, then let
    that Element fan out.  [cascade] is the fan-out it calls. *)
Definition execute_with (cascade : nat -> Cfg -> run) (g : Engine)
    (m : nat) (c : Cfg) : run :=
  match heapM g !! m with
  | Some md =>
      match Modifier_element md with
      | Some e =>
          match heapE g !! e with
          | Some el =>
              let host := Element_host el in
              cascade e (Modifier_callback md host c.1,
                         c.2 ++ [EvMutate m host])
          | None => Crash NullReference
          end
      | None => Crash NullReference
      end
  | None => Crash NullReference
  end.

(** [State.publish]: execute every subscribed Modifier, in subscription
    order. *)
Definition publish_with (cascade : nat -> Cfg -> run) (g : Engine)
    (s : nat) (c : Cfg) : run :=
  match heapS g !! s with
  | Some st =>
      for_each (execute_with cascade g) (State_modifiers st)
               (c.1, c.2 ++ [EvPublish s])
  | None => Crash NullReference
  end.

(** The closure [modifyDependents] of an Element. *)
Definition modifyDependents_with (cascade : nat -> Cfg -> run) (g : Engine)
    (e : nat) (c : Cfg) : run :=
  let c := (c.1, c.2 ++ [EvFanOut e]) in
  match getActiveStates g e c.1 with
  | Ok activeStates =>
      for_each
        (fun p c =>
           if State_hasOwnProperty "publish" then publish_with cascade g p.2 c
           else Done c)
        (Js.forin activeStates) c
  | Throw err => Crash err
  end.

Fixpoint modifyDependents (fuel : nat) (g : Engine) (e : nat) (c : Cfg) : run :=
  match fuel with
  | 0 => OutOfFuel
  | S fuel' => modifyDependents_with (modifyDependents fuel' g) g e c
  end.

Definition execute (fuel : nat) (g : Engine) : nat -> Cfg -> run :=
  execute_with (modifyDependents fuel g) g.

Definition publish (fuel : nat) (g : Engine) : nat -> Cfg -> run :=
  publish_with (modifyDependents fuel g) g.

(** The handler that [new Element] registers with the change notifier of
    its host: one change trigger on the Element is one call of it. *)
Definition change (fuel : nat) (g : Engine) (e : nat) (w : World) : run :=
  modifyDependents fuel g e (w, []).

(** The mutation callbacks that ran, in order. *)
Definition mutations (tr : list Event) : list (nat * Host) :=
  omap (fun ev => match ev with EvMutate m h => Some (m, h) | _ => None end) tr.

(** ** Sequences of public setup operations *)

Inductive Op :=
  | OpAddState (name : string) (callback : Host -> World -> bool)
  | OpAddModifier (name : string) (callback : Host -> World -> World)
  | OpCreateRelationship (dependency : Host) (stateName : string)
      (dependent : Host) (modifierName : string) (inheritState : bool)
  | OpSetElementKeyCallback (callback : Host -> string).

(** The public [createRelationship] names its fifth parameter
    [doNotInherit] and passes it on as [inheritState]: a true flag
    inherits. *)
Definition perform (op : Op) : M unit :=
  match op with
  | OpAddState name callback => addState name callback
  | OpAddModifier name callback => addModifier name callback
  | OpCreateRelationship d s t m i => createRelationship d s t m i
  | OpSetElementKeyCallback callback => setElementKeyCallback callback
  end.

(** An exception ends one operation, not the script that called it: the
    next operation runs on the engine the failed one left. *)
Definition after (ops : list Op) (g : Engine) : Engine :=
  foldl (fun g op => (perform op g).1) g ops.

Definition reachable (g : Engine) : Prop :=
  exists key ops, g = after ops (init key).

(** ** Well-formed engines *)

(** What every engine built by the public operations satisfies:
    references name allocated objects, an attached instance points back
    at the Element that holds it, and attached names are registered. *)
Record wf (g : Engine) : Prop := {
  wf_registry : ∀ k e, elements g !! k = Some e → is_Some (heapE g !! e);
  wf_states : ∀ e el k s,
    heapE g !! e = Some el → (k, s) ∈ Element_states el →
    (∃ st, heapS g !! s = Some st ∧ State_element st = Some e)
    ∧ is_Some (statesContainer g !! k);
  wf_modifiers : ∀ e el k m,
    heapE g !! e = Some el → (k, m) ∈ Element_modifiers el →
    (∃ md, heapM g !! m = Some md ∧ Modifier_element md = Some e)
    ∧ is_Some (modifiersContainer g !! k);
  wf_subscribers : ∀ s st m,
    heapS g !! s = Some st → m ∈ State_modifiers st → is_Some (heapM g !! m);
  wf_subscriptions : ∀ m md s,
    heapM g !! m = Some md → s ∈ Modifier_states md → is_Some (heapS g !! s);
  wf_state_keys : ∀ e el,
    heapE g !! e = Some el → NoDup (Element_states el).*1
}.

(** What setup never undoes: registry entries, attachments, allocated
    objects and their callbacks. *)
Record extends (g g' : Engine) : Prop := {
  ext_elements : ∀ k e, elements g !! k = Some e → elements g' !! k = Some e;
  ext_heapE : ∀ e el, heapE g !! e = Some el →
    ∃ el', heapE g' !! e = Some el'
      ∧ Element_host el' = Element_host el
      ∧ (∀ k s, Js.get k (Element_states el) = Some s →
                Js.get k (Element_states el') = Some s)
      ∧ (∀ k m, Js.get k (Element_modifiers el) = Some m →
                Js.get k (Element_modifiers el') = Some m);
  ext_heapS : ∀ s st, heapS g !! s = Some st →
    ∃ st', heapS g' !! s = Some st' ∧ State_callback st' = State_callback st;
  ext_heapM : ∀ m md, heapM g !! m = Some md →
    ∃ md', heapM g' !! m = Some md' ∧ Modifier_callback md' = Modifier_callback md
}.

(** The subscriber list of a State and the subscription list of a
    Modifier, as the engine holds them. *)
Definition subscribers (g : Engine) (s : nat) : list nat :=
  match heapS g !! s with Some st => State_modifiers st | None => [] end.

Definition subscriptions (g : Engine) (m : nat) : list nat :=
  match heapM g !! m with Some md => Modifier_states md | None => [] end.

(** Two engines with the same templates, registry and Elements, and as
    many States and Modifiers: they differ at most in who subscribes to
    whom. *)
Record same_objects (g g' : Engine) : Prop := {
  same_statesContainer : statesContainer g' = statesContainer g;
  same_modifiersContainer : modifiersContainer g' = modifiersContainer g;
  same_getElementKey : getElementKey g' = getElementKey g;
  same_elements : elements g' = elements g;
  same_heapE : heapE g' = heapE g;
  same_heapS : length (heapS g') = length (heapS g);
  same_heapM : length (heapM g') = length (heapM g)
}.

(** ** Vocabulary of the statements below *)

Definition is_key_replacement (op : Op) : bool :=
  match op with OpSetElementKeyCallback _ => true | _ => false end.

Definition registers_state (name : string) (op : Op) : bool :=
  match op with
  | OpAddState n _ => bool_decide (n = name)
  | _ => false
  end.

Definition registers_modifier (name : string) (op : Op) : bool :=
  match op with
  | OpAddModifier n _ => bool_decide (n = name)
  | _ => false
  end.

(** The registry can be searched: no Element is stored under
    ["hasOwnProperty"], the method that the search calls on it. *)
Definition searchable (g : Engine) : bool :=
  bool_decide (elements g !! "hasOwnProperty" = None).

(** A key under which the registry stores an Element and stays
    searchable. *)
Definition storable (key : string) : bool :=
  negb (bool_decide (key = "__proto__"))
  && negb (bool_decide (key = "hasOwnProperty")).

(** A name to which nothing answers unless an instance is attached or a
    template registered under it. *)
Definition plain_state_name (name : string) : bool :=
  negb (Js.inherited name) && negb (State_hasOwnProperty name).

Definition plain_modifier_name (name : string) : bool :=
  negb (Js.inherited name) && negb (Modifier_hasOwnProperty name).

(** A State whose predicate holds of its Element's host in world [w]. *)
Definition active (g : Engine) (w : World) (p : string * nat) : bool :=
  match isActive g p.2 w with Ok true => true | _ => false end.


(** The States on which a fan-out of Element [e] calls [publish]: the
    active ones, in enumeration order. *)
Definition active_states (g : Engine) (e : nat) (w : World) : list nat :=
  match heapE g !! e with
  | Some el => (List.filter (active g w) (Js.forin (Element_states el))).*2
  | None => []
  end.



(** ** The engines that the steps of setup produce *)

(** [resolve] on a key that is not in the registry. *)
Definition with_new_Element (host : Host) (g : Engine) : Engine :=
  with_elements (<[getElementKey g host := length (heapE g)]> (elements g))
    (with_heapE (heapE g ++ [new_Element host]) g).

(** [resolve] on the key ["__proto__"]: a new Element that the registry
    does not list. *)
Definition with_unlisted_Element (host : Host) (g : Engine) : Engine :=
  with_heapE (heapE g ++ [new_Element host]) g.

(** Lines 278-280 when the State is missing and its template exists. *)
Definition with_attached_State (e : nat) (key : string) (el : Element)
    (tpl : State) (g : Engine) : Engine :=
  mkEngine (statesContainer g) (modifiersContainer g) (getElementKey g)
    (elements g)
    (<[e := mkElement (Element_host el)
              (Element_states el ++ [(key, length (heapS g))])
              (Element_modifiers el)]> (heapE g))
    (heapS g ++ [mkState (Some e) (State_callback tpl) []])
    (heapM g).

(** Lines 283-285 when the Modifier is missing and its template exists. *)
Definition with_attached_Modifier (e : nat) (key : string) (el : Element)
    (tpl : Modifier) (g : Engine) : Engine :=
  mkEngine (statesContainer g) (modifiersContainer g) (getElementKey g)
    (elements g)
    (<[e := mkElement (Element_host el) (Element_states el)
              (Element_modifiers el ++ [(key, length (heapM g))])]> (heapE g))
    (heapS g)
    (heapM g ++ [mkModifier (Some e) (Modifier_callback tpl) []]).

(** [subscribe] of Modifier [m] (now [md]) to State [s] (now [st]). *)
Definition with_subscription (m s : nat) (st : State) (md : Modifier)
    (g : Engine) : Engine :=
  mkEngine (statesContainer g) (modifiersContainer g) (getElementKey g)
    (elements g) (heapE g)
    (<[s := mkState (State_element st) (State_callback st)
              (State_modifiers st ++ [m])]> (heapS g))
    (<[m := mkModifier (Modifier_element md) (Modifier_callback md)
              (Modifier_states md ++ [s])]> (heapM g)).

(** A property of engines that every step of every public operation
    keeps, on well-formed engines. *)
Record step_closed (J : Engine -> Prop) : Prop := {
  sc_addState : ∀ g name cb, wf g → J g → J (addState name cb g).1;
  sc_addModifier : ∀ g name cb, wf g → J g → J (addModifier name cb g).1;
  sc_setElementKeyCallback :
    ∀ g cb, wf g → J g → J (setElementKeyCallback cb g).1;
  sc_element : ∀ g host, wf g → J g →
    elements g !! getElementKey g host = None →
    getElementKey g host ≠ "__proto__" → J (with_new_Element host g);
  sc_unlisted : ∀ g host, wf g → J g → J (with_unlisted_Element host g);
  sc_state : ∀ g e key el tpl, wf g → J g →
    heapE g !! e = Some el → Js.get key (Element_states el) = None →
    statesContainer g !! key = Some tpl → Js.inherited key = false →
    J (with_attached_State e key el tpl g);
  sc_modifier : ∀ g e key el tpl, wf g → J g →
    heapE g !! e = Some el → Js.get key (Element_modifiers el) = None →
    modifiersContainer g !! key = Some tpl → Js.inherited key = false →
    J (with_attached_Modifier e key el tpl g);
  sc_subscribe : ∀ g m s st md, wf g → J g →
    heapS g !! s = Some st → heapM g !! m = Some md →
    J (with_subscription m s st md g)
}.

(** ** Shape of the graph *)


(** No instance is attached under a name of Object.prototype. *)
Definition attached_names_plain (g : Engine) : Prop :=
  ∀ e el, heapE g !! e = Some el →
    (∀ k s, (k, s) ∈ Element_states el → Js.inherited k = false)
    ∧ (∀ k m, (k, m) ∈ Element_modifiers el → Js.inherited k = false).

(** No instance is attached under two names of one Element. *)
Definition attached_once (g : Engine) : Prop :=
  ∀ e el, heapE g !! e = Some el →
    NoDup (Element_states el).*2 ∧ NoDup (Element_modifiers el).*2.

(** No Element is registered under two keys. *)
Definition registry_injective (g : Engine) : Prop :=
  ∀ k1 k2 e, elements g !! k1 = Some e → elements g !! k2 = Some e → k1 = k2.

(** A Modifier is in the subscriber list of a State as often as the
    State is in the subscription list of the Modifier. *)
Definition edges_agree (g : Engine) : Prop :=
  ∀ s m, count_occ Nat.eq_dec (subscribers g s) m
         = count_occ Nat.eq_dec (subscriptions g m) s.

(** Subscriber and subscription lists of [g0] are initial segments of
    those of [g]. *)
Definition lists_grow (g0 g : Engine) : Prop :=
  (∀ s, subscribers g0 s `prefix_of` subscribers g s)
  ∧ (∀ m, subscriptions g0 m `prefix_of` subscriptions g m).

(** The Element a Modifier belongs to, the host it mutates and the
    mutation it applies. *)
Definition Modifier_owner (g : Engine) (m : nat) : option nat :=
  match heapM g !! m with
  | Some md => Modifier_element md
  | None => None
  end.

Definition Modifier_host (g : Engine) (m : nat) : option Host :=
  match Modifier_owner g m with
  | Some e =>
      match heapE g !! e with
      | Some el => Some (Element_host el)
      | None => None
      end
  | None => None
  end.

Definition mutate (g : Engine) (w : World) (m : nat) : World :=
  match heapM g !! m, Modifier_host g m with
  | Some md, Some host => Modifier_callback md host w
  | _, _ => w
  end.

(** A Modifier whose Element holds no State: its cascade step finds
    nothing to publish. *)
Definition quiet (g : Engine) (m : nat) : bool :=
  match Modifier_owner g m with
  | Some e =>
      match heapE g !! e with
      | Some el => match Element_states el with [] => true | _ => false end
      | None => false
      end
  | None => false
  end.



End FieldDependencies.

Arguments State : clear implicits.
Arguments Modifier : clear implicits.
Arguments Element : clear implicits.
Arguments Engine : clear implicits.
Arguments M : clear implicits.
Arguments Event : clear implicits.
Arguments Cfg : clear implicits.
Arguments run : clear implicits.
Arguments Op : clear implicits.

(** * A page to run the engine on

    Hosts are named by their id; the world is the list of the flags that
    are set, each written [id.flag]. *)

Module Page.

Definition World := list string.

Definition flag (f : string) (h : string) (w : World) : bool :=
  bool_decide ((h ++ "." ++ f)%string ∈ w).

Definition raise (f : string) (h : string) (w : World) : World :=
  (h ++ "." ++ f)%string :: w.

Definition by_id (h : string) : string := h.

Definition by_class (h : string) : string := ("class-" ++ h)%string.

Definition blank : Engine string World := init by_id.

(** The templates, and no relationship yet. *)
Definition templates_setup : list (Op string World) :=
  [ OpAddState "checked" (flag "checked");
    OpAddModifier "show" (raise "visible") ].

Definition templates : Engine string World := after templates_setup blank.

(** A checkbox shows a panel, and the visible panel marks a field. *)
Definition chain_setup : list (Op string World) :=
  [ OpAddState "checked" (flag "checked");
    OpAddModifier "show" (raise "visible");
    OpAddState "visible" (flag "visible");
    OpAddModifier "mark" (raise "marked");
    OpCreateRelationship "checkbox" "checked" "panel" "show" false;
    OpCreateRelationship "panel" "visible" "field" "mark" false ].

Definition chain : Engine string World := after chain_setup (init by_id).

(** One relationship only. *)
Definition single_setup : list (Op string World) :=
  [ OpAddState "checked" (flag "checked");
    OpAddModifier "show" (raise "visible");
    OpCreateRelationship "checkbox" "checked" "panel" "show" false ].

Definition single : Engine string World := after single_setup (init by_id).



(** An upstream stage and a downstream stage that share the modifier
    name "show". *)
Definition staged_setup : list (Op string World) :=
  [ OpAddState "checked" (flag "checked");
    OpAddState "visible" (flag "visible");
    OpAddModifier "show" (raise "visible");
    OpCreateRelationship "checkbox" "checked" "panel" "show" false ].

Definition staged : Engine string World := after staged_setup (init by_id).

Definition staged_plain : Engine string World :=
  after [OpCreateRelationship "panel" "visible" "field" "show" false] staged.

(** The one relationship set up twice. *)
Definition doubled : Engine string World :=
  after [OpCreateRelationship "checkbox" "checked" "panel" "show" false] single.

(** A panel that shows itself whenever it is visible. *)
Definition looped_setup : list (Op string World) :=
  [ OpAddState "visible" (flag "visible");
    OpAddModifier "show" (raise "visible");
    OpCreateRelationship "panel" "visible" "panel" "show" false ].

Definition looped : Engine string World := after looped_setup (init by_id).

(** The same stage added with inheritance. *)
Definition staged_inherited : Engine string World :=
  after [OpCreateRelationship "panel" "visible" "field" "show" true] staged.

(** A dependency whose id is the name of the prototype link, set up
    once and then once more. *)
Definition linked_setup : list (Op string World) :=
  [ OpAddState "checked" (flag "checked");
    OpAddModifier "show" (raise "visible");
    OpCreateRelationship "__proto__" "checked" "panel" "show" false ].

Definition linked : Engine string World := after linked_setup blank.

Definition linked_again : Engine string World :=
  after [OpCreateRelationship "__proto__" "checked" "panel" "show" false] linked.

(** A dependent whose id is the name of the method that the registry
    search calls. *)
Definition shadowed_setup : list (Op string World) :=
  [ OpAddState "checked" (flag "checked");
    OpAddModifier "show" (raise "visible");
    OpCreateRelationship "checkbox" "checked" "hasOwnProperty" "show" false ].

Definition shadowed : Engine string World := after shadowed_setup blank.

(** Only the modifier template. *)
Definition shown : Engine string World :=
  after [OpAddModifier "show" (raise "visible")] blank.

(** Only a state template, named like a member of Object.prototype. *)
Definition stringy : Engine string World :=
  after [OpAddState "toString" (flag "checked")] blank.

(** Both templates, the modifier named like a member of Object.prototype. *)
Definition stringy_modifier : Engine string World :=
  after [ OpAddState "checked" (flag "checked");
          OpAddModifier "toString" (raise "visible") ] blank.

(** A state template installed as the prototype of its container. *)
Definition installed : Engine string World :=
  after [ OpAddState "__proto__" (flag "checked");
          OpAddModifier "show" (raise "visible") ] blank.

(** One more template, registered later. *)
Definition one_more : list (Op string World) :=
  [OpAddState "open" (flag "open")].

(** A resolver that gives every host of a form the same key. *)
Definition by_form (h : string) : string := "form".


(** Two States whose names are array indices, attached as "2" then "1". *)
Definition numbered_setup : list (Op string World) :=
  [ OpAddState "2" (flag "checked");
    OpAddState "1" (flag "checked");
    OpAddModifier "show" (raise "visible");
    OpCreateRelationship "checkbox" "2" "panel" "show" false;
    OpCreateRelationship "checkbox" "1" "panel" "show" false ].

Definition numbered : Engine string World := after numbered_setup (init by_id).

End Page.

(** * Facts about property lists *)

Section JsFacts.

Context {A : Type}.
Implicit Types (o : Js.Obj A) (k : string) (v : A) (p : string * A).

Lemma Js_get_set_eq k v o : Js.get k (Js.set k v o) = Some v.
Proof.
  induction o as [|[k' v'] o IH]; simpl.
  - by rewrite decide_True.
  - destruct (decide (k = k')) as [->|Hne]; simpl.
    + by rewrite decide_True.
    + by rewrite decide_False.
Qed.

Lemma Js_get_set_ne k k' v o : k ≠ k' → Js.get k' (Js.set k v o) = Js.get k' o.
Proof.
  intros Hne. induction o as [|[k0 v0] o IH]; simpl.
  - rewrite decide_False; [done | congruence].
  - destruct (decide (k = k0)) as [->|Hne0]; simpl.
    + rewrite !decide_False; [done | congruence | congruence].
    + destruct (decide (k' = k0)); [done | apply IH].
Qed.

Lemma Js_get_Some_elem k v o : Js.get k o = Some v → (k, v) ∈ o.
Proof.
  induction o as [|[k' v'] o IH]; simpl; [done|].
  destruct (decide (k = k')) as [->|Hne].
  - intros [= ->]. apply list_elem_of_here.
  - intros H. apply list_elem_of_further. by apply IH.
Qed.

Lemma Js_get_None k o : Js.get k o = None ↔ k ∉ o.*1.
Proof.
  induction o as [|[k' v'] o IH]; simpl.
  - split; [intros _; apply not_elem_of_nil | done].
  - rewrite not_elem_of_cons. destruct (decide (k = k')) as [->|Hne].
    + split; [done | intros [? _]; done].
    + rewrite IH. tauto.
Qed.

Lemma Js_elem_get k v o : NoDup o.*1 → (k, v) ∈ o → Js.get k o = Some v.
Proof.
  induction o as [|[k' v'] o IH]; simpl.
  - intros _ H. by apply elem_of_nil in H.
  - intros Hnd Hin. apply NoDup_cons in Hnd as [Hk Hnd].
    apply elem_of_cons in Hin as [[= -> ->]|Hin].
    + by rewrite decide_True.
    + rewrite decide_False; [by apply IH|].
      intros ->. apply Hk. apply list_elem_of_fmap. by exists (k', v).
Qed.

Lemma Js_set_fresh k v o : Js.get k o = None → Js.set k v o = o ++ [(k, v)].
Proof.
  induction o as [|[k' v'] o IH]; simpl; [done|].
  destruct (decide (k = k')); [done|]. intros H. by rewrite IH.
Qed.

Lemma Js_elem_set p k v o : p ∈ Js.set k v o → p = (k, v) ∨ p ∈ o.
Proof.
  induction o as [|[k' v'] o IH]; simpl.
  - intros H. apply list_elem_of_singleton in H. by left.
  - destruct (decide (k = k')) as [->|Hne]; intros H;
      apply elem_of_cons in H as [->|H].
    + by left.
    + right. by apply list_elem_of_further.
    + right. apply list_elem_of_here.
    + destruct (IH H) as [->|?]; [by left | right; by apply list_elem_of_further].
Qed.

Lemma Js_set_NoDup k v o : NoDup o.*1 → NoDup (Js.set k v o).*1.
Proof.
  induction o as [|[k' v'] o IH]; simpl.
  - intros _. apply NoDup_singleton.
  - intros Hnd. apply NoDup_cons in Hnd as [Hk Hnd].
    destruct (decide (k = k')) as [->|Hne]; simpl.
    + by apply NoDup_cons.
    + apply NoDup_cons. split; [|by apply IH].
      intros Hin. apply list_elem_of_fmap in Hin as [[k0 v0] [Heq Hin]].
      simpl in Heq. subst k0.
      apply Js_elem_set in Hin as [[= ? ?]|Hin]; [congruence|].
      apply Hk. apply list_elem_of_fmap. by exists (k', v0).
Qed.

(** ** Enumeration order *)














Lemma forin_singleton p : Js.forin [p] = [p].
Proof. unfold Js.forin. simpl. by destruct (Js.is_index p). Qed.


End JsFacts.

(** * Facts about the setup operations *)

Section SetupFacts.

Context {Host World : Type}.
Implicit Types (g : Engine Host World) (h : Host) (k name : string) (e s m : nat).

Notation "x <- m ;; k" := (bind m (fun x => k))
  (at level 100, m at next level, right associativity).
Notation "m ;;; k" := (bind m (fun _ => k))
  (at level 100, right associativity).

Lemma bind_ok {A B} (c : M Host World A) (f : A → M Host World B) g g' a :
  c g = (g', Ok a) → bind c f g = f a g'.
Proof. unfold bind. by intros ->. Qed.

Lemma bind_throw {A B} (c : M Host World A) (f : A → M Host World B) g g' err :
  c g = (g', Throw err) → bind c f g = (g', Throw err).
Proof. unfold bind. by intros ->. Qed.

Lemma extends_refl g : extends g g.
Proof. split; eauto 10. Qed.

Lemma extends_trans g1 g2 g3 : extends g1 g2 → extends g2 g3 → extends g1 g3.
Proof.
  intros [A1 B1 C1 D1] [A2 B2 C2 D2]. split.
  - intros k e H. by apply A2, A1.
  - intros e el H. destruct (B1 _ _ H) as (el' & H' & Hh & Hs & Hm).
    destruct (B2 _ _ H') as (el'' & H'' & Hh' & Hs' & Hm').
    exists el''. split; [done|]. split; [congruence|]. split; eauto.
  - intros s st H. destruct (C1 _ _ H) as (st' & H' & Hc).
    destruct (C2 _ _ H') as (st'' & H'' & Hc'). exists st''. split; [done | congruence].
  - intros m md H. destruct (D1 _ _ H) as (md' & H' & Hc).
    destruct (D2 _ _ H') as (md'' & H'' & Hc'). exists md''. split; [done | congruence].
Qed.

(** ** resolve *)

Lemma searchable_true g : searchable g = true ↔ elements g !! "hasOwnProperty" = None.
Proof. unfold searchable. apply bool_decide_eq_true. Qed.

Lemma storable_true k : storable k = true ↔ k ≠ "__proto__" ∧ k ≠ "hasOwnProperty".
Proof.
  unfold storable. rewrite andb_true_iff, !negb_true_iff, !bool_decide_eq_false.
  done.
Qed.

Lemma resolve_poisoned h g e0 :
  elements g !! "hasOwnProperty" = Some e0 →
  resolve h g = (g, Throw (NotAFunction "hasOwnProperty")).
Proof. intros H. unfold resolve, bind, elementsContainer_get. by rewrite H. Qed.

Lemma resolve_found h g e :
  elements g !! "hasOwnProperty" = None → getElementKey g h ≠ "__proto__" →
  elements g !! getElementKey g h = Some e → resolve h g = (g, Ok e).
Proof.
  intros Hs Hk H. unfold resolve, bind, elementsContainer_get. rewrite Hs.
  rewrite decide_False by done. by rewrite H.
Qed.

Lemma resolve_new h g :
  elements g !! "hasOwnProperty" = None → getElementKey g h ≠ "__proto__" →
  elements g !! getElementKey g h = None →
  resolve h g =
    (with_elements (<[getElementKey g h := length (heapE g)]> (elements g))
       (with_heapE (heapE g ++ [new_Element h]) g),
     Ok (length (heapE g))).
Proof.
  intros Hs Hk H. unfold resolve, bind, elementsContainer_get. rewrite Hs.
  rewrite decide_False by done. rewrite H.
  unfold allocE, elements_assign, ret. simpl. by rewrite decide_False.
Qed.

Lemma resolve_unlisted h g :
  elements g !! "hasOwnProperty" = None → getElementKey g h = "__proto__" →
  resolve h g = (with_heapE (heapE g ++ [new_Element h]) g, Ok (length (heapE g))).
Proof.
  intros Hs Hk. unfold resolve, bind, elementsContainer_get. rewrite Hs.
  rewrite decide_True by done.
  unfold allocE, elements_assign, ret. simpl. by rewrite decide_True.
Qed.

(** The four ways a resolution goes. *)
Lemma resolve_cases h g :
  (is_Some (elements g !! "hasOwnProperty")
   ∧ resolve h g = (g, Throw (NotAFunction "hasOwnProperty")))
  ∨ (elements g !! "hasOwnProperty" = None
     ∧ getElementKey g h = "__proto__"
     ∧ resolve h g = (with_unlisted_Element h g, Ok (length (heapE g))))
  ∨ (elements g !! "hasOwnProperty" = None
     ∧ getElementKey g h ≠ "__proto__"
     ∧ ∃ e, elements g !! getElementKey g h = Some e ∧ resolve h g = (g, Ok e))
  ∨ (elements g !! "hasOwnProperty" = None
     ∧ getElementKey g h ≠ "__proto__"
     ∧ elements g !! getElementKey g h = None
     ∧ resolve h g = (with_new_Element h g, Ok (length (heapE g)))).
Proof.
  destruct (elements g !! "hasOwnProperty") as [e0|] eqn:Hs.
  { left. split; [by eexists | by eapply resolve_poisoned]. }
  right. destruct (decide (getElementKey g h = "__proto__")) as [Hk|Hk].
  { left. split; [done|]. split; [done|]. by apply resolve_unlisted. }
  right. destruct (elements g !! getElementKey g h) as [e|] eqn:He.
  - left. split; [done|]. split; [done|]. exists e. split; [done|].
    by apply resolve_found.
  - right. split; [done|]. split; [done|]. split; [done|]. by apply resolve_new.
Qed.

Lemma wf_resolve_unlisted h g :
  wf g → wf (with_heapE (heapE g ++ [new_Element h]) g).
Proof.
  intros [Hr Hs Hm Hsub Hsubs Hk]. split; simpl.
  - intros k e H'. destruct (Hr _ _ H') as [el Hel].
    exists el. by apply lookup_app_l_Some.
  - intros e el k s Hel Hin. apply lookup_snoc_Some in Hel as [[_ Hel]|[_ <-]].
    + eauto.
    + simpl in Hin. by apply elem_of_nil in Hin.
  - intros e el k m Hel Hin. apply lookup_snoc_Some in Hel as [[_ Hel]|[_ <-]].
    + eauto.
    + simpl in Hin. by apply elem_of_nil in Hin.
  - done.
  - done.
  - intros e el Hel. apply lookup_snoc_Some in Hel as [[_ Hel]|[_ <-]].
    + eauto.
    + simpl. apply NoDup_nil_2.
Qed.

Lemma wf_resolve_new h g :
  wf g →
  wf (with_elements (<[getElementKey g h := length (heapE g)]> (elements g))
        (with_heapE (heapE g ++ [new_Element h]) g)).
Proof.
  intros Hwf. pose proof (wf_resolve_unlisted h g Hwf) as [Hr Hs Hm Hsub Hsubs Hk].
  split; try done. simpl in *.
  intros k e. rewrite lookup_insert. case_decide.
  - intros [= <-]. rewrite lookup_app_r, Nat.sub_diag by lia. by eexists.
  - apply Hr.
Qed.

Lemma extends_resolve_unlisted h g :
  extends g (with_heapE (heapE g ++ [new_Element h]) g).
Proof.
  split; simpl.
  - done.
  - intros e el H. exists el. split; [by apply lookup_app_l_Some | done].
  - eauto.
  - eauto.
Qed.

Lemma extends_resolve_new h g :
  elements g !! getElementKey g h = None →
  extends g (with_elements (<[getElementKey g h := length (heapE g)]> (elements g))
               (with_heapE (heapE g ++ [new_Element h]) g)).
Proof.
  intros Hnone. split; simpl.
  - intros k e H. rewrite lookup_insert_ne; [done | congruence].
  - intros e el H. exists el. split; [by apply lookup_app_l_Some | done].
  - eauto.
  - eauto.
Qed.

(** What [resolve] returns and what it leaves unchanged. *)
Lemma resolve_spec h g :
  wf g →
  ∃ g' r, resolve h g = (g', r)
    ∧ wf g' ∧ extends g g'
    ∧ getElementKey g' = getElementKey g
    ∧ statesContainer g' = statesContainer g
    ∧ modifiersContainer g' = modifiersContainer g
    ∧ heapS g' = heapS g ∧ heapM g' = heapM g
    ∧ match r with
      | Ok e =>
          is_Some (heapE g' !! e)
          ∧ elements g !! "hasOwnProperty" = None
          ∧ (getElementKey g h ≠ "__proto__" →
             elements g' !! getElementKey g h = Some e)
      | Throw err =>
          g' = g ∧ err = NotAFunction "hasOwnProperty"
          ∧ is_Some (elements g !! "hasOwnProperty")
      end.
Proof.
  intros Hwf.
  destruct (resolve_cases h g)
    as [[Hp Hq]|[(Hs & Hk & Hq)|[(Hs & Hk & e & He & Hq)|(Hs & Hk & He & Hq)]]];
    rewrite Hq; eexists _, _; (split; [done|]).
  - split_and!; try done. apply extends_refl.
  - split_and!; try done; simpl;
      first [ by apply wf_resolve_unlisted
            | by apply extends_resolve_unlisted
            | by (rewrite lookup_app_r, Nat.sub_diag by lia; eexists) ].
  - split_and!; try done; first [apply extends_refl | by eapply wf_registry].
  - split_and!; try done; simpl;
      first [ by apply wf_resolve_new
            | by apply extends_resolve_new
            | by (intros _; rewrite lookup_insert_eq)
            | by (rewrite lookup_app_r, Nat.sub_diag by lia; eexists) ].
Qed.

(** ** Reads *)

Lemma getState_eq e k g el :
  heapE g !! e = Some el →
  getState e k g = (g, Ok (read_attached k (Element_states el))).
Proof. intros H. unfold getState, bind, readE, ret. by rewrite H. Qed.

Lemma getModifier_eq e k g el :
  heapE g !! e = Some el →
  getModifier e k g = (g, Ok (read_attached k (Element_modifiers el))).
Proof. intros H. unfold getModifier, bind, readE, ret. by rewrite H. Qed.

Lemma read_attached_own k (o : Js.Obj nat) n :
  Js.get k o = Some n → read_attached k o = Some (Inst n).
Proof. intros H. unfold read_attached. by rewrite H. Qed.

Lemma read_attached_member k (o : Js.Obj nat) :
  Js.get k o = None → Js.inherited k = true → read_attached k o = Some (Member k).
Proof. intros H Hi. unfold read_attached. by rewrite H, Hi. Qed.

Lemma read_attached_none k (o : Js.Obj nat) :
  Js.get k o = None → Js.inherited k = false → read_attached k o = None.
Proof. intros H Hi. unfold read_attached. by rewrite H, Hi. Qed.

Lemma read_attached_Inst k (o : Js.Obj nat) n :
  read_attached k o = Some (Inst n) ↔ Js.get k o = Some n.
Proof.
  unfold read_attached. destruct (Js.get k o) as [n'|].
  - split; intros [= ->]; done.
  - destruct (Js.inherited k); split; intros; done.
Qed.

Lemma read_attached_is_None k (o : Js.Obj nat) :
  read_attached k o = None ↔ Js.get k o = None ∧ Js.inherited k = false.
Proof.
  unfold read_attached. destruct (Js.get k o) as [n'|].
  - split; [done | by intros []].
  - destruct (Js.inherited k); split; try done. by intros [].
Qed.

Lemma plain_state_name_true k :
  plain_state_name k = true ↔ Js.inherited k = false ∧ State_hasOwnProperty k = false.
Proof. unfold plain_state_name. by rewrite andb_true_iff, !negb_true_iff. Qed.

Lemma plain_modifier_name_true k :
  plain_modifier_name k = true
  ↔ Js.inherited k = false ∧ Modifier_hasOwnProperty k = false.
Proof. unfold plain_modifier_name. by rewrite andb_true_iff, !negb_true_iff. Qed.

(** A plain name that no template answers to is an unknown template. *)
Lemma template_miss_plain proto (member : string → bool) k :
  Js.inherited k = false → member k = false → member "element" = true →
  template_miss proto member k = UnknownTemplate k.
Proof.
  intros Hi Hm He. unfold template_miss. destruct proto as [el|].
  - rewrite decide_False by (intros ->; congruence). by rewrite Hm, Hi.
  - by rewrite Hi.
Qed.

Lemma snoc_insert_last {A} (l : list A) (x y : A) :
  <[length l := y]> (l ++ [x]) = l ++ [y].
Proof. rewrite insert_app_r_alt by lia. by rewrite Nat.sub_diag. Qed.

Lemma snoc_lookup_last {A} (l : list A) (x : A) : (l ++ [x]) !! length l = Some x.
Proof. rewrite lookup_app_r by lia. by rewrite Nat.sub_diag. Qed.

(** ** Attaching a State *)

Lemma ensure_state_answered e k g el :
  heapE g !! e = Some el → is_Some (read_attached k (Element_states el)) →
  ensure_state e k g = (g, Ok tt).
Proof.
  intros Hel [r Hr]. unfold ensure_state.
  rewrite (bind_ok _ _ _ _ _ (getState_eq e k g el Hel)). by rewrite Hr.
Qed.

Lemma ensure_state_present e k g el s :
  heapE g !! e = Some el → Js.get k (Element_states el) = Some s →
  ensure_state e k g = (g, Ok tt).
Proof.
  intros Hel Hs. apply (ensure_state_answered _ _ _ _ Hel).
  rewrite (read_attached_own _ _ _ Hs). by eexists.
Qed.

Lemma ensure_state_miss e k g el :
  heapE g !! e = Some el → read_attached k (Element_states el) = None →
  statesContainer g !! k = None →
  ensure_state e k g
  = (g, Throw (template_miss (State_element <$> statesContainer g !! "__proto__")
                             State_hasOwnProperty k)).
Proof.
  intros Hel Hs Ht. unfold ensure_state.
  rewrite (bind_ok _ _ _ _ _ (getState_eq e k g el Hel)). rewrite Hs.
  unfold bind, statesContainer_get. by rewrite Ht.
Qed.

Lemma ensure_state_unknown e k g el :
  heapE g !! e = Some el → Js.get k (Element_states el) = None →
  plain_state_name k = true →
  statesContainer g !! k = None →
  ensure_state e k g = (g, Throw (UnknownTemplate k)).
Proof.
  intros Hel Hs Hp Ht. apply plain_state_name_true in Hp as [Hi Hm].
  rewrite (ensure_state_miss _ _ _ _ Hel); [|by apply read_attached_none|done].
  by rewrite template_miss_plain.
Qed.

Lemma ensure_state_attach e k g el tpl :
  heapE g !! e = Some el → read_attached k (Element_states el) = None →
  statesContainer g !! k = Some tpl →
  ensure_state e k g =
    (mkEngine (statesContainer g) (modifiersContainer g) (getElementKey g)
       (elements g)
       (<[e := mkElement (Element_host el)
                 (Element_states el ++ [(k, length (heapS g))])
                 (Element_modifiers el)]> (heapE g))
       (heapS g ++ [mkState (Some e) (State_callback tpl) []])
       (heapM g),
     Ok tt).
Proof.
  intros Hel Hr Ht. unfold ensure_state.
  rewrite (bind_ok _ _ _ _ _ (getState_eq e k g el Hel)). rewrite Hr.
  apply read_attached_is_None in Hr as [Hs _].
  unfold bind, statesContainer_get, allocS, attachState, State_setElement,
    bind, readS, writeS, readE, writeE, ret. rewrite Ht. simpl.
  rewrite snoc_lookup_last. simpl. rewrite Hel. simpl.
  rewrite snoc_insert_last. unfold with_heapE. simpl.
  by rewrite (Js_set_fresh _ _ _ Hs).
Qed.

Lemma wf_ensure_state_attach e k g el tpl :
  wf g → heapE g !! e = Some el → Js.get k (Element_states el) = None →
  statesContainer g !! k = Some tpl →
  wf (mkEngine (statesContainer g) (modifiersContainer g) (getElementKey g)
       (elements g)
       (<[e := mkElement (Element_host el)
                 (Element_states el ++ [(k, length (heapS g))])
                 (Element_modifiers el)]> (heapE g))
       (heapS g ++ [mkState (Some e) (State_callback tpl) []])
       (heapM g)).
Proof.
  intros [Hr Hs Hm Hsub Hsubs Hk] Hel Hnone Ht.
  assert (He : e < length (heapE g)) by by eapply lookup_lt_Some.
  split; simpl.
  - intros k' e' H. destruct (Hr _ _ H) as [el' Hel'].
    destruct (decide (e = e')) as [<-|Hne].
    + rewrite list_lookup_insert_eq by done. by eexists.
    + rewrite list_lookup_insert_ne by done. by eexists.
  - intros e' el' k' s' H Hin.
    apply list_lookup_insert_Some in H as [(<- & <- & _)|[Hne H]]; simpl in *.
    + apply elem_of_app in Hin as [Hin|Hin].
      * destruct (Hs _ _ _ _ Hel Hin) as [(st & Hst & Hse) Hreg].
        split; [|done]. exists st. split; [by apply lookup_app_l_Some | done].
      * apply list_elem_of_singleton in Hin as [= -> ->].
        split; [|by eexists]. eexists. split; [apply snoc_lookup_last | done].
    + destruct (Hs _ _ _ _ H Hin) as [(st & Hst & Hse) Hreg].
      split; [|done]. exists st. split; [by apply lookup_app_l_Some | done].
  - intros e' el' k' m' H Hin.
    apply list_lookup_insert_Some in H as [(<- & <- & _)|[Hne H]]; simpl in *; eauto.
  - intros s' st' m' H Hin.
    apply lookup_snoc_Some in H as [[_ H]|[_ <-]]; [eauto|].
    simpl in Hin. by apply elem_of_nil in Hin.
  - intros m' md' s' H Hin. destruct (Hsubs _ _ _ H Hin) as [st Hst].
    exists st. by apply lookup_app_l_Some.
  - intros e' el' H.
    apply list_lookup_insert_Some in H as [(<- & <- & _)|[Hne H]]; simpl in *; [|eauto].
    rewrite fmap_app. apply NoDup_app. split; [eauto|]. split.
    + intros k' Hk' Hk''. simpl in Hk''. apply list_elem_of_singleton in Hk'' as ->.
      by apply Js_get_None in Hnone.
    + simpl. apply NoDup_singleton.
Qed.

Lemma Js_get_app_l {A} k (o o' : Js.Obj A) v :
  Js.get k o = Some v → Js.get k (o ++ o') = Some v.
Proof.
  induction o as [|[k' v'] o IH]; simpl; [done|].
  destruct (decide (k = k')); [done | apply IH].
Qed.

Lemma extends_ensure_state_attach e k g el tpl :
  heapE g !! e = Some el →
  extends g
    (mkEngine (statesContainer g) (modifiersContainer g) (getElementKey g)
       (elements g)
       (<[e := mkElement (Element_host el)
                 (Element_states el ++ [(k, length (heapS g))])
                 (Element_modifiers el)]> (heapE g))
       (heapS g ++ [mkState (Some e) (State_callback tpl) []])
       (heapM g)).
Proof.
  intros Hel.
  assert (He : e < length (heapE g)) by by eapply lookup_lt_Some.
  split; simpl.
  - done.
  - intros e' el' H. destruct (decide (e = e')) as [<-|Hne].
    + rewrite list_lookup_insert_eq by done. eexists. split; [done|].
      assert (el' = el) as -> by congruence. simpl.
      split_and!; [done | intros; by apply Js_get_app_l | done].
    + rewrite list_lookup_insert_ne by done. eauto 10.
  - intros s st H. exists st. split; [by apply lookup_app_l_Some | done].
  - eauto.
Qed.

(** ** Attaching a Modifier *)

Lemma ensure_modifier_answered e k g el :
  heapE g !! e = Some el → is_Some (read_attached k (Element_modifiers el)) →
  ensure_modifier e k g = (g, Ok tt).
Proof.
  intros Hel [r Hr]. unfold ensure_modifier.
  rewrite (bind_ok _ _ _ _ _ (getModifier_eq e k g el Hel)). by rewrite Hr.
Qed.

Lemma ensure_modifier_present e k g el m :
  heapE g !! e = Some el → Js.get k (Element_modifiers el) = Some m →
  ensure_modifier e k g = (g, Ok tt).
Proof.
  intros Hel Hm. apply (ensure_modifier_answered _ _ _ _ Hel).
  rewrite (read_attached_own _ _ _ Hm). by eexists.
Qed.

Lemma ensure_modifier_miss e k g el :
  heapE g !! e = Some el → read_attached k (Element_modifiers el) = None →
  modifiersContainer g !! k = None →
  ensure_modifier e k g
  = (g, Throw (template_miss
                 (Modifier_element <$> modifiersContainer g !! "__proto__")
                 Modifier_hasOwnProperty k)).
Proof.
  intros Hel Hm Ht. unfold ensure_modifier.
  rewrite (bind_ok _ _ _ _ _ (getModifier_eq e k g el Hel)). rewrite Hm.
  unfold bind, modifiersContainer_get. by rewrite Ht.
Qed.

Lemma ensure_modifier_unknown e k g el :
  heapE g !! e = Some el → Js.get k (Element_modifiers el) = None →
  plain_modifier_name k = true →
  modifiersContainer g !! k = None →
  ensure_modifier e k g = (g, Throw (UnknownTemplate k)).
Proof.
  intros Hel Hm Hp Ht. apply plain_modifier_name_true in Hp as [Hi Hmem].
  rewrite (ensure_modifier_miss _ _ _ _ Hel); [|by apply read_attached_none|done].
  by rewrite template_miss_plain.
Qed.

Lemma ensure_modifier_attach e k g el tpl :
  heapE g !! e = Some el → read_attached k (Element_modifiers el) = None →
  modifiersContainer g !! k = Some tpl →
  ensure_modifier e k g =
    (mkEngine (statesContainer g) (modifiersContainer g) (getElementKey g)
       (elements g)
       (<[e := mkElement (Element_host el) (Element_states el)
                 (Element_modifiers el ++ [(k, length (heapM g))])]> (heapE g))
       (heapS g)
       (heapM g ++ [mkModifier (Some e) (Modifier_callback tpl) []]),
     Ok tt).
Proof.
  intros Hel Hr Ht. unfold ensure_modifier.
  rewrite (bind_ok _ _ _ _ _ (getModifier_eq e k g el Hel)). rewrite Hr.
  apply read_attached_is_None in Hr as [Hm _].
  unfold bind, modifiersContainer_get, allocM, attachModifier, Modifier_setElement,
    bind, readM, writeM, readE, writeE, ret. rewrite Ht. simpl.
  rewrite snoc_lookup_last. simpl. rewrite Hel. simpl.
  rewrite snoc_insert_last. unfold with_heapE. simpl.
  by rewrite (Js_set_fresh _ _ _ Hm).
Qed.

Lemma wf_ensure_modifier_attach e k g el tpl :
  wf g → heapE g !! e = Some el → Js.get k (Element_modifiers el) = None →
  modifiersContainer g !! k = Some tpl →
  wf (mkEngine (statesContainer g) (modifiersContainer g) (getElementKey g)
       (elements g)
       (<[e := mkElement (Element_host el) (Element_states el)
                 (Element_modifiers el ++ [(k, length (heapM g))])]> (heapE g))
       (heapS g)
       (heapM g ++ [mkModifier (Some e) (Modifier_callback tpl) []])).
Proof.
  intros [Hr Hs Hm Hsub Hsubs Hk] Hel Hnone Ht.
  assert (He : e < length (heapE g)) by by eapply lookup_lt_Some.
  split; simpl.
  - intros k' e' H. destruct (Hr _ _ H) as [el' Hel'].
    destruct (decide (e = e')) as [<-|Hne].
    + rewrite list_lookup_insert_eq by done. by eexists.
    + rewrite list_lookup_insert_ne by done. by eexists.
  - intros e' el' k' s' H Hin.
    apply list_lookup_insert_Some in H as [(<- & <- & _)|[Hne H]]; simpl in *; eauto.
  - intros e' el' k' m' H Hin.
    apply list_lookup_insert_Some in H as [(<- & <- & _)|[Hne H]]; simpl in *.
    + apply elem_of_app in Hin as [Hin|Hin].
      * destruct (Hm _ _ _ _ Hel Hin) as [(md & Hmd & Hme) Hreg].
        split; [|done]. exists md. split; [by apply lookup_app_l_Some | done].
      * apply list_elem_of_singleton in Hin as [= -> ->].
        split; [|by eexists]. eexists. split; [apply snoc_lookup_last | done].
    + destruct (Hm _ _ _ _ H Hin) as [(md & Hmd & Hme) Hreg].
      split; [|done]. exists md. split; [by apply lookup_app_l_Some | done].
  - intros s' st' m' H Hin. destruct (Hsub _ _ _ H Hin) as [md Hmd].
    exists md. by apply lookup_app_l_Some.
  - intros m' md' s' H Hin.
    apply lookup_snoc_Some in H as [[_ H]|[_ <-]]; [eauto|].
    simpl in Hin. by apply elem_of_nil in Hin.
  - intros e' el' H.
    apply list_lookup_insert_Some in H as [(<- & <- & _)|[Hne H]]; simpl in *; eauto.
Qed.

Lemma extends_ensure_modifier_attach e k g el tpl :
  heapE g !! e = Some el →
  extends g
    (mkEngine (statesContainer g) (modifiersContainer g) (getElementKey g)
       (elements g)
       (<[e := mkElement (Element_host el) (Element_states el)
                 (Element_modifiers el ++ [(k, length (heapM g))])]> (heapE g))
       (heapS g)
       (heapM g ++ [mkModifier (Some e) (Modifier_callback tpl) []])).
Proof.
  intros Hel.
  assert (He : e < length (heapE g)) by by eapply lookup_lt_Some.
  split; simpl.
  - done.
  - intros e' el' H. destruct (decide (e = e')) as [<-|Hne].
    + rewrite list_lookup_insert_eq by done. eexists. split; [done|].
      assert (el' = el) as -> by congruence. simpl.
      split_and!; [done | done | intros; by apply Js_get_app_l].
    + rewrite list_lookup_insert_ne by done. eauto 10.
  - eauto.
  - intros m md H. exists md. split; [by apply lookup_app_l_Some | done].
Qed.

(** ** Subscribing *)

Lemma subscribe_eq m s g st md :
  heapS g !! s = Some st → heapM g !! m = Some md →
  subscribe m s g =
    (mkEngine (statesContainer g) (modifiersContainer g) (getElementKey g)
       (elements g) (heapE g)
       (<[s := mkState (State_element st) (State_callback st)
                 (State_modifiers st ++ [m])]> (heapS g))
       (<[m := mkModifier (Modifier_element md) (Modifier_callback md)
                 (Modifier_states md ++ [s])]> (heapM g)),
     Ok tt).
Proof.
  intros Hs Hm. unfold subscribe, State_addModifier, bind, readS, writeS, readM, writeM.
  rewrite Hs. simpl. by rewrite Hm.
Qed.

Lemma wf_subscribe m s g st md :
  wf g → heapS g !! s = Some st → heapM g !! m = Some md →
  wf (mkEngine (statesContainer g) (modifiersContainer g) (getElementKey g)
       (elements g) (heapE g)
       (<[s := mkState (State_element st) (State_callback st)
                 (State_modifiers st ++ [m])]> (heapS g))
       (<[m := mkModifier (Modifier_element md) (Modifier_callback md)
                 (Modifier_states md ++ [s])]> (heapM g))).
Proof.
  intros [Hr Hs Hm Hsub Hsubs Hk] Hst Hmd.
  assert (Hsl : s < length (heapS g)) by by eapply lookup_lt_Some.
  assert (Hml : m < length (heapM g)) by by eapply lookup_lt_Some.
  assert (HS : ∀ s', is_Some (heapS g !! s') →
    is_Some (<[s := mkState (State_element st) (State_callback st)
                 (State_modifiers st ++ [m])]> (heapS g) !! s')).
  { intros s' H. apply lookup_lt_is_Some. rewrite length_insert.
    by apply lookup_lt_is_Some. }
  assert (HM : ∀ m', is_Some (heapM g !! m') →
    is_Some (<[m := mkModifier (Modifier_element md) (Modifier_callback md)
                 (Modifier_states md ++ [s])]> (heapM g) !! m')).
  { intros m' H. apply lookup_lt_is_Some. rewrite length_insert.
    by apply lookup_lt_is_Some. }
  split; simpl.
  - done.
  - intros e el k s' Hel Hin.
    destruct (Hs _ _ _ _ Hel Hin) as [(st' & Hst' & Hse) Hreg]. split; [|done].
    destruct (decide (s = s')) as [<-|Hne].
    + rewrite list_lookup_insert_eq by done. eexists. split; [done|]. simpl. congruence.
    + rewrite list_lookup_insert_ne by done. eauto.
  - intros e el k m' Hel Hin.
    destruct (Hm _ _ _ _ Hel Hin) as [(md' & Hmd' & Hme) Hreg]. split; [|done].
    destruct (decide (m = m')) as [<-|Hne].
    + rewrite list_lookup_insert_eq by done. eexists. split; [done|]. simpl. congruence.
    + rewrite list_lookup_insert_ne by done. eauto.
  - intros s' st' m' H Hin. apply HM.
    apply list_lookup_insert_Some in H as [(<- & <- & _)|[Hne H]]; simpl in *; [|eauto].
    apply elem_of_app in Hin as [Hin|Hin]; [eauto|].
    apply list_elem_of_singleton in Hin as ->. by eexists.
  - intros m' md' s' H Hin. apply HS.
    apply list_lookup_insert_Some in H as [(<- & <- & _)|[Hne H]]; simpl in *; [|eauto].
    apply elem_of_app in Hin as [Hin|Hin]; [eauto|].
    apply list_elem_of_singleton in Hin as ->. by eexists.
  - done.
Qed.

Lemma extends_subscribe m s g st md :
  heapS g !! s = Some st → heapM g !! m = Some md →
  extends g
    (mkEngine (statesContainer g) (modifiersContainer g) (getElementKey g)
       (elements g) (heapE g)
       (<[s := mkState (State_element st) (State_callback st)
                 (State_modifiers st ++ [m])]> (heapS g))
       (<[m := mkModifier (Modifier_element md) (Modifier_callback md)
                 (Modifier_states md ++ [s])]> (heapM g))).
Proof.
  intros Hst Hmd.
  assert (Hsl : s < length (heapS g)) by by eapply lookup_lt_Some.
  assert (Hml : m < length (heapM g)) by by eapply lookup_lt_Some.
  split; simpl.
  - done.
  - eauto 10.
  - intros s' st' H. destruct (decide (s = s')) as [<-|Hne].
    + rewrite list_lookup_insert_eq by done. eexists. split; [done|].
      simpl. congruence.
    + rewrite list_lookup_insert_ne by done. eauto.
  - intros m' md' H. destruct (decide (m = m')) as [<-|Hne].
    + rewrite list_lookup_insert_eq by done. eexists. split; [done|].
      simpl. congruence.
    + rewrite list_lookup_insert_ne by done. eauto.
Qed.

Lemma same_objects_refl g : same_objects g g.
Proof. by split. Qed.

Lemma same_objects_trans g1 g2 g3 :
  same_objects g1 g2 → same_objects g2 g3 → same_objects g1 g3.
Proof. intros [] []. split; congruence. Qed.

Lemma subscribe_spec m s g :
  wf g → is_Some (heapS g !! s) → is_Some (heapM g !! m) →
  ∃ g', subscribe m s g = (g', Ok tt)
    ∧ wf g' ∧ extends g g' ∧ same_objects g g'
    ∧ subscriptions g' m = subscriptions g m ++ [s]
    ∧ (∀ m', m' ≠ m → subscriptions g' m' = subscriptions g m')
    ∧ subscribers g' s = subscribers g s ++ [m]
    ∧ (∀ s', s' ≠ s → subscribers g' s' = subscribers g s').
Proof.
  intros Hwf [st Hst] [md Hmd].
  assert (Hsl : s < length (heapS g)) by by eapply lookup_lt_Some.
  assert (Hml : m < length (heapM g)) by by eapply lookup_lt_Some.
  eexists. split; [by apply subscribe_eq|].
  split; [by apply wf_subscribe|]. split; [by apply extends_subscribe|].
  split; [split; simpl; by rewrite ?length_insert|].
  unfold subscriptions, subscribers; simpl. split_and!.
  - rewrite list_lookup_insert_eq by done. by rewrite Hmd.
  - intros m' Hne. by rewrite list_lookup_insert_ne.
  - rewrite list_lookup_insert_eq by done. by rewrite Hst.
  - intros s' Hne. by rewrite list_lookup_insert_ne.
Qed.

(** The inheritance loop: one subscription per entry of the list. *)
Lemma subscribe_each_spec m (L : list nat) g :
  wf g → is_Some (heapM g !! m) → Forall (λ s, is_Some (heapS g !! s)) L →
  ∃ g', for_each_M (λ s, subscribe m s) L g = (g', Ok tt)
    ∧ wf g' ∧ extends g g' ∧ same_objects g g'
    ∧ subscriptions g' m = subscriptions g m ++ L
    ∧ (∀ m', m' ≠ m → subscriptions g' m' = subscriptions g m')
    ∧ (∀ s, subscribers g' s
            = subscribers g s ++ replicate (count_occ Nat.eq_dec L s) m).
Proof.
  revert g. induction L as [|s L IH]; intros g Hwf Hm HL.
  - exists g. simpl. split; [done|]. split; [done|].
    split; [apply extends_refl|]. split; [apply same_objects_refl|].
    split_and!; intros; simpl; by rewrite ?app_nil_r.
  - apply Forall_cons in HL as [Hs HL].
    destruct (subscribe_spec m s g Hwf Hs Hm)
      as (g1 & Heq & Hwf1 & Hext1 & Hsame1 & Hm1 & Hm1' & Hs1 & Hs1').
    destruct (IH g1) as (g2 & Heq2 & Hwf2 & Hext2 & Hsame2 & Hm2 & Hm2' & Hs2).
    + done.
    + apply lookup_lt_is_Some. rewrite (same_heapM _ _ Hsame1).
      by apply lookup_lt_is_Some.
    + eapply Forall_impl; [exact HL|]. intros s' Hs'. simpl in Hs'.
      apply lookup_lt_is_Some. rewrite (same_heapS _ _ Hsame1).
      by apply lookup_lt_is_Some.
    + exists g2. simpl. rewrite (bind_ok _ _ _ _ _ Heq).
      split; [done|]. split; [done|].
      split; [by eapply extends_trans|]. split; [by eapply same_objects_trans|].
      split_and!.
      * rewrite Hm2, Hm1. by rewrite <- app_assoc.
      * intros m' Hne. rewrite Hm2' by done. by apply Hm1'.
      * intros s'. rewrite Hs2. destruct (Nat.eq_dec s s') as [<-|Hne].
        -- rewrite Hs1. by rewrite <- app_assoc.
        -- rewrite Hs1' by congruence. done.
Qed.

(** ** The steps of createRelationship *)

Lemma ensure_state_spec e k g :
  wf g → is_Some (heapE g !! e) →
  ∃ g' r, ensure_state e k g = (g', r)
    ∧ wf g' ∧ extends g g'
    ∧ getElementKey g' = getElementKey g ∧ elements g' = elements g
    ∧ statesContainer g' = statesContainer g
    ∧ modifiersContainer g' = modifiersContainer g
    ∧ heapM g' = heapM g
    ∧ match r with
      | Ok _ => ∃ el', heapE g' !! e = Some el'
                       ∧ is_Some (read_attached k (Element_states el'))
      | Throw err =>
          g' = g ∧ statesContainer g !! k = None
          ∧ err = template_miss (State_element <$> statesContainer g !! "__proto__")
                                State_hasOwnProperty k
          ∧ Js.inherited k = false
      end.
Proof.
  intros Hwf [el Hel].
  assert (He : e < length (heapE g)) by by eapply lookup_lt_Some.
  destruct (read_attached k (Element_states el)) as [r|] eqn:Hr.
  - exists g, (Ok tt). rewrite (ensure_state_answered _ _ _ _ Hel) by by eexists.
    split_and!; try done; [apply extends_refl|]. exists el. by rewrite Hr.
  - pose proof Hr as Hr'. apply read_attached_is_None in Hr' as [Hs Hi].
    destruct (statesContainer g !! k) as [tpl|] eqn:Ht.
    + eexists _, (Ok tt). rewrite (ensure_state_attach _ _ _ _ _ Hel Hr Ht).
      split_and!; try done.
      * by apply wf_ensure_state_attach.
      * by apply extends_ensure_state_attach.
      * simpl. eexists. rewrite list_lookup_insert_eq by done.
        split; [done|]. simpl. eexists. apply read_attached_own.
        rewrite <- (Js_set_fresh _ _ _ Hs). apply Js_get_set_eq.
    + eexists g, (Throw _).
      rewrite (ensure_state_miss _ _ _ _ Hel Hr Ht).
      split_and!; try done. apply extends_refl.
Qed.

Lemma ensure_modifier_spec e k g :
  wf g → is_Some (heapE g !! e) →
  ∃ g' r, ensure_modifier e k g = (g', r)
    ∧ wf g' ∧ extends g g'
    ∧ getElementKey g' = getElementKey g ∧ elements g' = elements g
    ∧ statesContainer g' = statesContainer g
    ∧ modifiersContainer g' = modifiersContainer g
    ∧ heapS g' = heapS g
    ∧ match r with
      | Ok _ => ∃ el', heapE g' !! e = Some el'
                       ∧ is_Some (read_attached k (Element_modifiers el'))
      | Throw err =>
          g' = g ∧ modifiersContainer g !! k = None
          ∧ err = template_miss
                    (Modifier_element <$> modifiersContainer g !! "__proto__")
                    Modifier_hasOwnProperty k
          ∧ Js.inherited k = false
      end.
Proof.
  intros Hwf [el Hel].
  assert (He : e < length (heapE g)) by by eapply lookup_lt_Some.
  destruct (read_attached k (Element_modifiers el)) as [r|] eqn:Hr.
  - exists g, (Ok tt). rewrite (ensure_modifier_answered _ _ _ _ Hel) by by eexists.
    split_and!; try done; [apply extends_refl|]. exists el. by rewrite Hr.
  - pose proof Hr as Hr'. apply read_attached_is_None in Hr' as [Hm Hi].
    destruct (modifiersContainer g !! k) as [tpl|] eqn:Ht.
    + eexists _, (Ok tt). rewrite (ensure_modifier_attach _ _ _ _ _ Hel Hr Ht).
      split_and!; try done.
      * by apply wf_ensure_modifier_attach.
      * by apply extends_ensure_modifier_attach.
      * simpl. eexists. rewrite list_lookup_insert_eq by done.
        split; [done|]. simpl. eexists. apply read_attached_own.
        rewrite <- (Js_set_fresh _ _ _ Hm). apply Js_get_set_eq.
    + eexists g, (Throw _).
      rewrite (ensure_modifier_miss _ _ _ _ Hel Hr Ht).
      split_and!; try done. apply extends_refl.
Qed.

(** An attachment, once made, is found again in every later engine. *)
Lemma extends_state_attached g g' e el k s :
  extends g g' → heapE g !! e = Some el → Js.get k (Element_states el) = Some s →
  ∃ el', heapE g' !! e = Some el' ∧ Js.get k (Element_states el') = Some s.
Proof.
  intros Hext Hel Hs. destruct (ext_heapE _ _ Hext _ _ Hel) as (el' & ? & _ & H & _).
  eauto.
Qed.

Lemma extends_modifier_attached g g' e el k m :
  extends g g' → heapE g !! e = Some el → Js.get k (Element_modifiers el) = Some m →
  ∃ el', heapE g' !! e = Some el' ∧ Js.get k (Element_modifiers el') = Some m.
Proof.
  intros Hext Hel Hm. destruct (ext_heapE _ _ Hext _ _ Hel) as (el' & ? & _ & _ & H).
  eauto.
Qed.

(** So is whatever a name is answered with. *)
Lemma extends_state_answered g g' e el k :
  extends g g' → heapE g !! e = Some el →
  is_Some (read_attached k (Element_states el)) →
  ∃ el', heapE g' !! e = Some el' ∧ is_Some (read_attached k (Element_states el')).
Proof.
  intros Hext Hel [r Hr]. destruct (ext_heapE _ _ Hext _ _ Hel) as (el' & ? & _ & H & _).
  exists el'. split; [done|]. unfold read_attached in *.
  destruct (Js.get k (Element_states el)) as [s|] eqn:Hs.
  - by rewrite (H _ _ Hs).
  - destruct (Js.get k (Element_states el')); [done|].
    destruct (Js.inherited k); done.
Qed.

Lemma attach_both_spec d k t (m : string) g :
  wf g →
  ∃ g' r, attach_both d k t m g = (g', r)
    ∧ wf g' ∧ extends g g'
    ∧ getElementKey g' = getElementKey g
    ∧ statesContainer g' = statesContainer g
    ∧ modifiersContainer g' = modifiersContainer g
    ∧ match r with
      | Ok (eD, eT) =>
          (getElementKey g d ≠ "__proto__" →
           elements g' !! getElementKey g d = Some eD)
          ∧ (getElementKey g t ≠ "__proto__" →
             elements g' !! getElementKey g t = Some eT)
          ∧ ∃ elD elT,
              heapE g' !! eD = Some elD ∧ heapE g' !! eT = Some elT
              ∧ is_Some (read_attached k (Element_states elD))
              ∧ is_Some (read_attached m (Element_modifiers elT))
      | Throw err => True
      end.
Proof.
  intros Hwf. unfold attach_both.
  destruct (resolve_spec d g Hwf)
    as (g1 & r1 & Hq1 & Hwf1 & Hx1 & Hk1 & Hsc1 & Hmc1 & _ & _ & Hpost1).
  destruct r1 as [eD|err].
  2:{ rewrite (bind_throw _ _ _ _ _ Hq1). eexists _, _. split; [done|].
      split_and!; done. }
  rewrite (bind_ok _ _ _ _ _ Hq1). destruct Hpost1 as (Hv1 & _ & Hr1).
  destruct (ensure_state_spec eD k g1 Hwf1 Hv1)
    as (g2 & r2 & Hq2 & Hwf2 & Hx2 & Hk2 & He2 & Hsc2 & Hmc2 & _ & Hpost2).
  destruct r2 as [[]|err].
  2:{ rewrite (bind_throw _ _ _ _ _ Hq2). eexists _, _. split; [done|].
      split_and!; try done; [by eapply extends_trans | congruence..]. }
  rewrite (bind_ok _ _ _ _ _ Hq2).
  destruct Hpost2 as (elD & HelD & Hs).
  destruct (resolve_spec t g2 Hwf2)
    as (g3 & r3 & Hq3 & Hwf3 & Hx3 & Hk3 & Hsc3 & Hmc3 & _ & _ & Hpost3).
  destruct r3 as [eT|err].
  2:{ rewrite (bind_throw _ _ _ _ _ Hq3). eexists _, _. split; [done|].
      split_and!; try done; try congruence.
      eapply extends_trans; [exact Hx1|]. by eapply extends_trans. }
  rewrite (bind_ok _ _ _ _ _ Hq3). destruct Hpost3 as (Hv3 & _ & Hr3).
  destruct (ensure_modifier_spec eT m g3 Hwf3 Hv3)
    as (g4 & r4 & Hq4 & Hwf4 & Hx4 & Hk4 & He4 & Hsc4 & Hmc4 & _ & Hpost4).
  assert (Hx : extends g g4).
  { eapply extends_trans; [exact Hx1|]. eapply extends_trans; [exact Hx2|].
    eapply extends_trans; [exact Hx3 | exact Hx4]. }
  destruct r4 as [[]|err].
  2:{ rewrite (bind_throw _ _ _ _ _ Hq4). eexists _, _. split; [done|].
      split_and!; try done; congruence. }
  rewrite (bind_ok _ _ _ _ _ Hq4). unfold ret.
  eexists _, _. split; [done|]. split_and!; try done; try congruence.
  - intros Hd. rewrite He4. apply (ext_elements _ _ Hx3). rewrite He2. by apply Hr1.
  - intros Ht. rewrite He4. rewrite Hk2, Hk1 in Hr3. by apply Hr3.
  - destruct Hpost4 as (elT & HelT & Hm).
    destruct (extends_state_answered g2 g4 eD elD k) as (elD' & ? & ?);
      [by eapply extends_trans | done | done |].
    by exists elD', elT.
Qed.

(** Once both attachments exist, lines 276-285 change nothing. *)
Lemma attach_both_again d k t (m : string) g eD eT elD elT s mref :
  elements g !! "hasOwnProperty" = None →
  getElementKey g d ≠ "__proto__" → getElementKey g t ≠ "__proto__" →
  elements g !! getElementKey g d = Some eD →
  elements g !! getElementKey g t = Some eT →
  heapE g !! eD = Some elD → Js.get k (Element_states elD) = Some s →
  heapE g !! eT = Some elT → Js.get m (Element_modifiers elT) = Some mref →
  attach_both d k t m g = (g, Ok (eD, eT)).
Proof.
  intros Hp Hkd Hkt HD HT HelD Hs HelT Hm. unfold attach_both.
  rewrite (bind_ok _ _ _ _ _ (resolve_found d g eD Hp Hkd HD)).
  rewrite (bind_ok _ _ _ _ _ (ensure_state_present _ _ _ _ _ HelD Hs)).
  rewrite (bind_ok _ _ _ _ _ (resolve_found t g eT Hp Hkt HT)).
  by rewrite (bind_ok _ _ _ _ _ (ensure_modifier_present _ _ _ _ _ HelT Hm)).
Qed.

Lemma subscribe_named_spec eD k eT (m : string) g elD elT s mref :
  wf g →
  heapE g !! eD = Some elD → Js.get k (Element_states elD) = Some s →
  heapE g !! eT = Some elT → Js.get m (Element_modifiers elT) = Some mref →
  ∃ g', subscribe_named eD k eT m g = (g', Ok mref)
    ∧ wf g' ∧ extends g g' ∧ same_objects g g'
    ∧ subscriptions g' mref = subscriptions g mref ++ [s]
    ∧ (∀ m', m' ≠ mref → subscriptions g' m' = subscriptions g m')
    ∧ subscribers g' s = subscribers g s ++ [mref]
    ∧ (∀ s', s' ≠ s → subscribers g' s' = subscribers g s').
Proof.
  intros Hwf HelD Hs HelT Hm. unfold subscribe_named.
  rewrite (bind_ok _ _ _ _ _ (getState_eq eD k g elD HelD)).
  rewrite (bind_ok _ _ _ _ _ (getModifier_eq eT m g elT HelT)).
  rewrite (read_attached_own _ _ _ Hs), (read_attached_own _ _ _ Hm).
  destruct (wf_states _ Hwf _ _ _ _ HelD (Js_get_Some_elem _ _ _ Hs))
    as [(st & Hst & _) _].
  destruct (wf_modifiers _ Hwf _ _ _ _ HelT (Js_get_Some_elem _ _ _ Hm))
    as [(md & Hmd & _) _].
  destruct (subscribe_spec mref s g Hwf) as (g' & Hq & Hrest); [by eexists..|].
  exists g'. rewrite (bind_ok _ _ _ _ _ Hq). by split.
Qed.

Lemma subscribe_named_refused eD k eT (m : string) g elD elT err :
  heapE g !! eD = Some elD → heapE g !! eT = Some elT →
  refusal (read_attached k (Element_states elD))
          (read_attached m (Element_modifiers elT)) = Some err →
  subscribe_named eD k eT m g = (g, Throw err).
Proof.
  intros HelD HelT Hr. unfold subscribe_named.
  rewrite (bind_ok _ _ _ _ _ (getState_eq eD k g elD HelD)).
  rewrite (bind_ok _ _ _ _ _ (getModifier_eq eT m g elT HelT)).
  unfold refusal in Hr.
  destruct (read_attached m (Element_modifiers elT)) as [[mref|n]|];
    [destruct (read_attached k (Element_states elD)) as [[s|n]|]|..];
    by first [discriminate Hr | injection Hr as <-].
Qed.

Lemma refusal_None pubState subModifier :
  refusal pubState subModifier = None →
  ∃ s m, pubState = Some (Inst s) ∧ subModifier = Some (Inst m).
Proof.
  unfold refusal. destruct subModifier as [[m|n]|]; try done.
  destruct pubState as [[s|n]|]; try done. by exists s, m.
Qed.

Lemma inherit_spec eD (m : string) mref g elD :
  wf g → heapE g !! eD = Some elD → is_Some (heapM g !! mref) →
  match Js.get m (Element_modifiers elD) with
  | None => inherit eD m mref g = (g, Ok tt)
  | Some up =>
      ∃ g', inherit eD m mref g = (g', Ok tt)
        ∧ wf g' ∧ extends g g' ∧ same_objects g g'
        ∧ subscriptions g' mref = subscriptions g mref ++ subscriptions g up
        ∧ (∀ m', m' ≠ mref → subscriptions g' m' = subscriptions g m')
        ∧ (∀ s, subscribers g' s
                = subscribers g s
                  ++ replicate (count_occ Nat.eq_dec (subscriptions g up) s) mref)
  end.
Proof.
  intros Hwf HelD Hmref. unfold inherit.
  rewrite (bind_ok _ _ _ _ _ (getModifier_eq eD m g elD HelD)).
  unfold read_attached.
  destruct (Js.get m (Element_modifiers elD)) as [up|] eqn:Hup;
    [|by destruct (Js.inherited m)].
  destruct (wf_modifiers _ Hwf _ _ _ _ HelD (Js_get_Some_elem _ _ _ Hup))
    as [(md & Hmd & _) _].
  assert (Hread : readM up g = (g, Ok md)) by (unfold readM; by rewrite Hmd).
  rewrite (bind_ok _ _ _ _ _ Hread).
  assert (Hsub : subscriptions g up = Modifier_states md)
    by (unfold subscriptions; by rewrite Hmd).
  rewrite Hsub. apply subscribe_each_spec; [done | done |].
  apply Forall_forall. intros s Hs. by eapply wf_subscriptions.
Qed.

(** ** createRelationship as a whole *)

Lemma createRelationship_spec d k t (m : string) (i : bool) g :
  wf g →
  ∃ g' r, createRelationship d k t m i g = (g', r)
    ∧ wf g' ∧ extends g g'
    ∧ getElementKey g' = getElementKey g
    ∧ statesContainer g' = statesContainer g
    ∧ modifiersContainer g' = modifiersContainer g
    ∧ (r = Ok tt →
       ∃ eD eT elD elT s mref,
         heapE g' !! eD = Some elD ∧ Js.get k (Element_states elD) = Some s
         ∧ heapE g' !! eT = Some elT
         ∧ Js.get m (Element_modifiers elT) = Some mref
         ∧ (getElementKey g d ≠ "__proto__" →
            elements g' !! getElementKey g d = Some eD)
         ∧ (getElementKey g t ≠ "__proto__" →
            elements g' !! getElementKey g t = Some eT)).
Proof.
  intros Hwf. unfold createRelationship.
  destruct (attach_both_spec d k t m g Hwf)
    as (g1 & r1 & Hq1 & Hwf1 & Hx1 & Hk1 & Hsc1 & Hmc1 & Hpost1).
  destruct r1 as [[eD eT]|err].
  2:{ rewrite (bind_throw _ _ _ _ _ Hq1). eexists _, _. split; [done|].
      split_and!; done. }
  rewrite (bind_ok _ _ _ _ _ Hq1).
  destruct Hpost1 as (HD & HT & elD & elT & HelD & HelT & _ & _).
  destruct (refusal (read_attached k (Element_states elD))
                    (read_attached m (Element_modifiers elT))) as [err|] eqn:Hrf.
  { rewrite (bind_throw _ _ _ _ _
               (subscribe_named_refused eD k eT m g1 elD elT err HelD HelT Hrf)).
    eexists _, _. split; [done|]. split_and!; done. }
  apply refusal_None in Hrf as (s & mref & Hs & Hm).
  apply read_attached_Inst in Hs, Hm.
  destruct (subscribe_named_spec eD k eT m g1 elD elT s mref Hwf1 HelD Hs HelT Hm)
    as (g2 & Hq2 & Hwf2 & Hx2 & Hsame2 & _).
  rewrite (bind_ok _ _ _ _ _ Hq2).
  destruct Hsame2 as [Sa Sb Sc Sd Se Sf Sg].
  assert (Hmref : is_Some (heapM g2 !! mref)).
  { rewrite <- Se in HelT.
    destruct (wf_modifiers _ Hwf2 _ _ _ _ HelT (Js_get_Some_elem _ _ _ Hm))
      as [(md & Hmd & _) _]. by eexists. }
  assert (HD2 : getElementKey g d ≠ "__proto__" →
                elements g2 !! getElementKey g d = Some eD).
  { intros H. rewrite Sd. by apply HD. }
  assert (HT2 : getElementKey g t ≠ "__proto__" →
                elements g2 !! getElementKey g t = Some eT).
  { intros H. rewrite Sd. by apply HT. }
  destruct i.
  - pose proof (inherit_spec eD m mref g2 elD Hwf2) as Hin.
    rewrite Se in Hin. specialize (Hin HelD Hmref).
    destruct (Js.get m (Element_modifiers elD)) as [up|].
    + destruct Hin as (g3 & Hq3 & Hwf3 & Hx3 & [Ta Tb Tc Td Te Tf Tg] & _).
      exists g3, (Ok tt). split; [done|]. split; [done|].
      split; [eapply extends_trans; [exact Hx1|]; by eapply extends_trans|].
      split_and!; try congruence.
      intros _. exists eD, eT, elD, elT, s, mref.
      split_and!; try done; try congruence.
      * intros H. rewrite Td. by apply HD2.
      * intros H. rewrite Td. by apply HT2.
    + exists g2, (Ok tt). split; [done|]. split; [done|].
      split; [by eapply extends_trans|].
      split_and!; try congruence.
      intros _. exists eD, eT, elD, elT, s, mref.
      split_and!; try done; congruence.
  - exists g2, (Ok tt). split; [done|]. split; [done|].
    split; [by eapply extends_trans|].
    split_and!; try congruence.
    intros _. exists eD, eT, elD, elT, s, mref.
    split_and!; try done; congruence.
Qed.

(** ** Every reachable engine is well formed *)

Lemma wf_init (key : Host → string) : wf (init (World:=World) key).
Proof.
  split; simpl; intros *; try rewrite lookup_empty; try rewrite lookup_nil; done.
Qed.

Lemma wf_perform (op : Op Host World) g : wf g → wf (perform op g).1.
Proof.
  intros Hwf. destruct op as [name cb|name cb|d k t m i|cb]; simpl.
  - destruct Hwf as [Hr Hs Hm Hsub Hsubs Hk]. split; simpl; try done.
    intros e el k s Hel Hin. destruct (Hs _ _ _ _ Hel Hin) as [? [tpl Ht]].
    split; [done|]. rewrite lookup_insert. case_decide; by eexists.
  - destruct Hwf as [Hr Hs Hm Hsub Hsubs Hk]. split; simpl; try done.
    intros e el k m Hel Hin. destruct (Hm _ _ _ _ Hel Hin) as [? [tpl Ht]].
    split; [done|]. rewrite lookup_insert. case_decide; by eexists.
  - destruct (createRelationship_spec d k t m i g Hwf) as (g' & r & Hq & Hwf' & _).
    by rewrite Hq.
  - by destruct Hwf.
Qed.

Lemma after_snoc (ops : list (Op Host World)) op g :
  after (ops ++ [op]) g = (perform op (after ops g)).1.
Proof. unfold after. by rewrite foldl_snoc. Qed.

Lemma after_app (ops ops' : list (Op Host World)) g :
  after (ops ++ ops') g = after ops' (after ops g).
Proof. unfold after. by rewrite foldl_app. Qed.

Lemma wf_after (ops : list (Op Host World)) g : wf g → wf (after ops g).
Proof.
  revert g. induction ops as [|op ops IH]; intros g Hwf; [done|].
  simpl. apply IH. change (wf (perform op g).1). by apply wf_perform.
Qed.

Lemma reachable_wf g : reachable g → wf g.
Proof. intros (key & ops & ->). apply wf_after, wf_init. Qed.

Lemma reachable_perform (op : Op Host World) g :
  reachable g → reachable (perform op g).1.
Proof.
  intros (key & ops & ->). exists key, (ops ++ [op]). by rewrite after_snoc.
Qed.

End SetupFacts.

(** * The cascade *)

Section CascadeFacts.

Context {Host World : Type}.
Implicit Types (g : Engine Host World) (c : Cfg Host World) (w : World).

Lemma hasOwn_isActive : State_hasOwnProperty "isActive" = true.
Proof. reflexivity. Qed.

Lemma hasOwn_publish : State_hasOwnProperty "publish" = true.
Proof. reflexivity. Qed.

Lemma run_bind_Done (r : run Host World) : run_bind r Done = r.
Proof. by destruct r. Qed.

Lemma execute_eq fuel g m c md e el :
  heapM g !! m = Some md → Modifier_element md = Some e → heapE g !! e = Some el →
  execute fuel g m c
  = modifyDependents fuel g e
      (Modifier_callback md (Element_host el) c.1,
       c.2 ++ [EvMutate m (Element_host el)]).
Proof.
  intros Hm He Hel. unfold execute, execute_with. by rewrite Hm, He, Hel.
Qed.

Lemma publish_eq fuel g s c st :
  heapS g !! s = Some st →
  publish fuel g s c
  = for_each (execute fuel g) (State_modifiers st) (c.1, c.2 ++ [EvPublish s]).
Proof. intros Hs. unfold publish, publish_with. by rewrite Hs. Qed.

Lemma publish_single fuel g s c st m :
  heapS g !! s = Some st → State_modifiers st = [m] →
  publish fuel g s c = execute fuel g m (c.1, c.2 ++ [EvPublish s]).
Proof.
  intros Hs Hm. rewrite (publish_eq _ _ _ _ _ Hs), Hm. simpl.
  apply run_bind_Done.
Qed.

Lemma isActive_eq g s w st e el :
  heapS g !! s = Some st → State_element st = Some e → heapE g !! e = Some el →
  isActive g s w = Ok (State_callback st (Element_host el) w).
Proof. intros Hs He Hel. unfold isActive. by rewrite Hs, He, Hel. Qed.

Lemma fanout_quiet fuel g e c el :
  heapE g !! e = Some el → Element_states el = [] →
  modifyDependents (S fuel) g e c = Done (c.1, c.2 ++ [EvFanOut e]).
Proof.
  intros Hel Hs. simpl. unfold modifyDependents_with, getActiveStates.
  by rewrite Hel, Hs.
Qed.

Lemma fanout_single fuel g e c el name s st :
  heapE g !! e = Some el → Element_states el = [(name, s)] →
  heapS g !! s = Some st → State_element st = Some e →
  modifyDependents (S fuel) g e c
  = if State_callback st (Element_host el) c.1
    then publish fuel g s (c.1, c.2 ++ [EvFanOut e])
    else Done (c.1, c.2 ++ [EvFanOut e]).
Proof.
  intros Hel Hs Hst He. simpl. unfold modifyDependents_with, getActiveStates.
  rewrite Hel, Hs, forin_singleton. simpl.
  rewrite ?hasOwn_isActive, (isActive_eq _ _ _ _ _ _ Hst He Hel).
  destruct (State_callback st (Element_host el) c.1); simpl.
  - rewrite forin_singleton. simpl. rewrite ?hasOwn_publish.
    apply run_bind_Done.
  - done.
Qed.

(** C7.  A dependency Element D holds one State, active in the
    current world; one Modifier subscribes to it, once; the Element of
    that Modifier holds no State.  One change trigger on D then runs the
    mutation callback of the Modifier exactly once, on the host of its
    Element, and ends. *)
Theorem one_trigger_one_mutation
    g w fuel D elD name sref st mref md E elE :
  heapE g !! D = Some elD → Element_states elD = [(name, sref)] →
  heapS g !! sref = Some st → State_element st = Some D →
  State_callback st (Element_host elD) w = true →
  State_modifiers st = [mref] →
  heapM g !! mref = Some md → Modifier_element md = Some E →
  heapE g !! E = Some elE → Element_states elE = [] →
  ∃ tr,
    change (2 + fuel) g D w
    = Done (Modifier_callback md (Element_host elE) w, tr)
    ∧ tr = [EvFanOut D; EvPublish sref; EvMutate mref (Element_host elE); EvFanOut E]
    ∧ mutations tr = [(mref, Element_host elE)].
Proof.
  intros HD HDs HS HSe Hact HSm HM HMe HE HEs.
  eexists. split; [|split; [reflexivity | reflexivity]].
  unfold change. change (2 + fuel) with (S (S fuel)).
  rewrite (fanout_single _ _ _ _ _ _ _ _ HD HDs HS HSe). simpl fst. rewrite Hact.
  rewrite (publish_single _ _ _ _ _ _ HS HSm).
  rewrite (execute_eq _ _ _ _ _ _ _ HM HMe HE).
  by rewrite (fanout_quiet _ _ _ _ _ HE HEs).
Qed.

(** C1.  [execute] first applies the mutation callback to the host of
    the owning Element and then runs that Element's fan-out, in the
    mutated world.  Hence for a chain D -> M1 (on E1) -> M2 (on E2), where
    the State of E1 is active once M1 has mutated its host, one change
    trigger on D runs M1's and then M2's mutation callback, in that
    order, inside the one call. *)
Theorem cascade_runs_chain_in_order
    g w fuel D elD n0 S0 st0 M1 md1 E1 el1 n1 S1 st1 M2 md2 E2 el2 :
  heapE g !! D = Some elD → Element_states elD = [(n0, S0)] →
  heapS g !! S0 = Some st0 → State_element st0 = Some D →
  State_callback st0 (Element_host elD) w = true →
  State_modifiers st0 = [M1] →
  heapM g !! M1 = Some md1 → Modifier_element md1 = Some E1 →
  heapE g !! E1 = Some el1 → Element_states el1 = [(n1, S1)] →
  heapS g !! S1 = Some st1 → State_element st1 = Some E1 →
  State_callback st1 (Element_host el1)
    (Modifier_callback md1 (Element_host el1) w) = true →
  State_modifiers st1 = [M2] →
  heapM g !! M2 = Some md2 → Modifier_element md2 = Some E2 →
  heapE g !! E2 = Some el2 → Element_states el2 = [] →
  (∀ f c, execute f g M1 c
          = modifyDependents f g E1
              (Modifier_callback md1 (Element_host el1) c.1,
               c.2 ++ [EvMutate M1 (Element_host el1)]))
  ∧ ∃ tr,
      change (3 + fuel) g D w
      = Done (Modifier_callback md2 (Element_host el2)
                (Modifier_callback md1 (Element_host el1) w), tr)
      ∧ tr = [EvFanOut D; EvPublish S0; EvMutate M1 (Element_host el1);
              EvFanOut E1; EvPublish S1; EvMutate M2 (Element_host el2);
              EvFanOut E2]
      ∧ mutations tr = [(M1, Element_host el1); (M2, Element_host el2)].
Proof.
  intros HD HDs HS0 HS0e Hact0 HS0m HM1 HM1e HE1 HE1s HS1 HS1e Hact1 HS1m
         HM2 HM2e HE2 HE2s.
  split; [intros f c; by apply execute_eq|].
  eexists. split; [|split; [reflexivity | reflexivity]].
  unfold change. change (3 + fuel) with (S (S (S fuel))).
  rewrite (fanout_single _ _ _ _ _ _ _ _ HD HDs HS0 HS0e). simpl fst. rewrite Hact0.
  rewrite (publish_single _ _ _ _ _ _ HS0 HS0m).
  rewrite (execute_eq _ _ _ _ _ _ _ HM1 HM1e HE1).
  rewrite (fanout_single _ _ _ _ _ _ _ _ HE1 HE1s HS1 HS1e). simpl fst. rewrite Hact1.
  rewrite (publish_single _ _ _ _ _ _ HS1 HS1m).
  rewrite (execute_eq _ _ _ _ _ _ _ HM2 HM2e HE2).
  by rewrite (fanout_quiet _ _ _ _ _ HE2 HE2s).
Qed.

(** ** The fan-out in general *)






(** Attachment order is not the order of the fan-out when names are
    array indices. *)
Lemma fanout_visits_indices_first :
  active_states Page.numbered 0 ["checkbox.checked"] = [1; 0].
Proof. vm_compute. reflexivity. Qed.

End CascadeFacts.
(** * The setup operations *)

Section SetupClaims.

Context {Host World : Type}.
Implicit Types (g : Engine Host World) (h d t : Host) (k name : string).
Implicit Types (s m : nat).

Lemma extends_perform (op : Op Host World) g : wf g → extends g (perform op g).1.
Proof.
  intros Hwf. destruct op as [name cb|name cb|d k t m i|cb]; simpl.
  - split; simpl; eauto 10.
  - split; simpl; eauto 10.
  - destruct (createRelationship_spec d k t m i g Hwf) as (g' & r & Hq & _ & Hx & _).
    by rewrite Hq.
  - split; simpl; eauto 10.
Qed.

Lemma extends_after (ops : list (Op Host World)) g :
  wf g → extends g (after ops g).
Proof.
  revert g. induction ops as [|op ops IH]; intros g Hwf; [apply extends_refl|].
  simpl. eapply extends_trans; [by apply (extends_perform op)|].
  apply IH. by apply wf_perform.
Qed.

Lemma key_perform (op : Op Host World) g :
  wf g → is_key_replacement op = false →
  getElementKey (perform op g).1 = getElementKey g.
Proof.
  intros Hwf Hop. destruct op as [name cb|name cb|d k t m i|cb]; simpl; try done.
  destruct (createRelationship_spec d k t m i g Hwf) as (g' & r & Hq & _ & _ & Hk & _).
  by rewrite Hq.
Qed.

Lemma key_after (ops : list (Op Host World)) g :
  wf g → forallb (λ op, negb (is_key_replacement op)) ops = true →
  getElementKey (after ops g) = getElementKey g.
Proof.
  revert g. induction ops as [|op ops IH]; intros g Hwf Hops; [done|].
  simpl in Hops. apply andb_prop in Hops as [Hop Hops].
  apply negb_true_iff in Hop. simpl.
  rewrite IH; [by apply key_perform | by apply wf_perform | done].
Qed.

Lemma unregistered_perform (op : Op Host World) name g :
  wf g → registers_state name op = false → statesContainer g !! name = None →
  statesContainer (perform op g).1 !! name = None.
Proof.
  intros Hwf Hop Hnone. destruct op as [n cb|n cb|d k t m i|cb]; simpl; try done.
  - simpl in Hop. apply bool_decide_eq_false in Hop.
    by rewrite lookup_insert_ne.
  - destruct (createRelationship_spec d k t m i g Hwf)
      as (g' & r & Hq & _ & _ & _ & Hsc & _).
    rewrite Hq. simpl. by rewrite Hsc.
Qed.

Lemma unregistered_after (ops : list (Op Host World)) name g :
  wf g → forallb (λ op, negb (registers_state name op)) ops = true →
  statesContainer g !! name = None →
  statesContainer (after ops g) !! name = None.
Proof.
  revert g. induction ops as [|op ops IH]; intros g Hwf Hops Hnone; [done|].
  simpl in Hops. apply andb_prop in Hops as [Hop Hops].
  apply negb_true_iff in Hop. simpl.
  apply IH; [by apply wf_perform | done | by apply unregistered_perform].
Qed.

Lemma searchable_extends g g' :
  extends g g' → searchable g' = true → searchable g = true.
Proof.
  intros Hx H. apply searchable_true in H. apply searchable_true.
  destruct (elements g !! "hasOwnProperty") as [e|] eqn:He; [|done].
  apply (ext_elements _ _ Hx) in He. congruence.
Qed.

Lemma answered_instance k (o : Js.Obj nat) :
  Js.inherited k = false → is_Some (read_attached k o) → ∃ n, Js.get k o = Some n.
Proof.
  intros Hi [r Hr]. unfold read_attached in Hr. rewrite Hi in Hr.
  destruct (Js.get k o) as [n|]; [by exists n | done].
Qed.

(** What a successful resolution leaves in the registry. *)
Lemma resolve_registry h g g' e :
  resolve h g = (g', Ok e) →
  elements g !! "hasOwnProperty" = None
  ∧ ∀ k, k ≠ getElementKey g h → elements g' !! k = elements g !! k.
Proof.
  intros Hq.
  destruct (resolve_cases h g)
    as [[_ Hq']|[(Hs & _ & Hq')|[(Hs & _ & e' & _ & Hq')|(Hs & _ & _ & Hq')]]];
    rewrite Hq' in Hq; try discriminate Hq; injection Hq as <- <-;
    (split; [done|]); intros k Hk; try done.
  simpl. by rewrite lookup_insert_ne.
Qed.

(** C2.  The registry is no singleton store for every key.  On the page,
    a host whose id is "__proto__" is resolved twice, with nothing in
    between: the first resolution builds Element 0, the second builds
    Element 1, and the registry lists neither.  A host whose id is
    "hasOwnProperty" is resolved once, and the second resolution
    throws. *)
Theorem resolve_under_proto_key_builds_a_new_Element :
  getElementKey Page.blank "__proto__" = "__proto__"
  ∧ (resolve "__proto__" Page.blank).2 = Ok 0
  ∧ (resolve "__proto__" (resolve "__proto__" Page.blank).1).2 = Ok 1
  ∧ heapE (resolve "__proto__" (resolve "__proto__" Page.blank).1).1
    = [new_Element "__proto__"; new_Element "__proto__"]
  ∧ elements (resolve "__proto__" (resolve "__proto__" Page.blank).1).1 = ∅
  ∧ (resolve "hasOwnProperty" Page.blank).2 = Ok 0
  ∧ (resolve "hasOwnProperty" (resolve "hasOwnProperty" Page.blank).1).2
    = Throw (NotAFunction "hasOwnProperty").
Proof. split_and!; vm_compute; reflexivity. Qed.

(** X15.  For every other key the registry is a singleton store, as long as
    it can be searched.  Whatever public operations run between two
    resolutions, if the second host reference maps to the key the first
    one had, the second resolution returns the very Element of the first
    and leaves the engine as it is.  An Element is constructed and stored
    only when the key is not yet in the registry. *)
Theorem resolve_returns_the_same_Element g h1 h2 (ops : list (Op Host World)) :
  reachable g →
  getElementKey g h1 ≠ "__proto__" →
  searchable (after ops (resolve h1 g).1) = true →
  getElementKey (after ops (resolve h1 g).1) h2 = getElementKey g h1 →
  ∃ e,
    (resolve h1 g).2 = Ok e
    ∧ resolve h2 (after ops (resolve h1 g).1) = (after ops (resolve h1 g).1, Ok e)
    ∧ match elements g !! getElementKey g h1 with
      | Some e0 => e = e0 ∧ (resolve h1 g).1 = g
      | None =>
          e = length (heapE g)
          ∧ heapE (resolve h1 g).1 = heapE g ++ [new_Element h1]
          ∧ elements (resolve h1 g).1
            = <[getElementKey g h1 := e]> (elements g)
      end.
Proof.
  intros Hreach Hk Hs2 Hkey. apply reachable_wf in Hreach.
  destruct (resolve_spec h1 g Hreach)
    as (g1 & r & Hq & Hwf1 & Hx1 & _ & _ & _ & _ & _ & Hpost).
  rewrite Hq in *. simpl in *.
  pose proof (extends_after ops g1 Hwf1) as Hx2.
  pose proof (searchable_extends _ _ Hx2 Hs2) as Hs1.
  pose proof (searchable_extends _ _ Hx1 Hs1) as Hs0.
  apply searchable_true in Hs0, Hs2.
  destruct r as [e|err]; [|destruct Hpost as (_ & _ & [e0 He0]); congruence].
  destruct Hpost as (_ & _ & Hr). specialize (Hr Hk).
  exists e. split; [done|]. split.
  - apply resolve_found; [done | by rewrite Hkey |]. rewrite Hkey.
    by apply (ext_elements _ _ Hx2).
  - destruct (elements g !! getElementKey g h1) as [e0|] eqn:He0.
    + rewrite (resolve_found _ _ _ Hs0 Hk He0) in Hq. by injection Hq as <- <-.
    + rewrite (resolve_new _ _ Hs0 Hk He0) in Hq. by injection Hq as <- <-.
Qed.

(** C8.  Once the key resolver is replaced, and until it is replaced
    again, every resolution computes its key with the new resolver: it
    looks the Element up, and stores a new one, under that key, with the
    two exceptions that every resolution has: no search succeeds once an
    Element is stored under "hasOwnProperty", and the key "__proto__" is
    never found and never stored.  The Elements resolved before stay in
    the registry under the key they were stored with. *)
Theorem replaced_resolver_keys_later_resolutions g cb (ops : list (Op Host World)) :
  reachable g →
  forallb (λ op, negb (is_key_replacement op)) ops = true →
  getElementKey (after ops (setElementKeyCallback cb g).1) = cb
  ∧ elements (setElementKeyCallback cb g).1 = elements g
  ∧ (∀ k e, elements g !! k = Some e →
            elements (after ops (setElementKeyCallback cb g).1) !! k = Some e)
  ∧ (∀ h,
       match elements (after ops (setElementKeyCallback cb g).1)
               !! "hasOwnProperty" with
       | Some _ =>
           resolve h (after ops (setElementKeyCallback cb g).1)
           = (after ops (setElementKeyCallback cb g).1,
              Throw (NotAFunction "hasOwnProperty"))
       | None =>
           if decide (cb h = "__proto__") then
             resolve h (after ops (setElementKeyCallback cb g).1)
             = (with_unlisted_Element h (after ops (setElementKeyCallback cb g).1),
                Ok (length (heapE (after ops (setElementKeyCallback cb g).1))))
           else
             match elements (after ops (setElementKeyCallback cb g).1) !! cb h with
             | Some e0 =>
                 resolve h (after ops (setElementKeyCallback cb g).1)
                 = (after ops (setElementKeyCallback cb g).1, Ok e0)
             | None =>
                 (resolve h (after ops (setElementKeyCallback cb g).1)).2
                 = Ok (length (heapE (after ops (setElementKeyCallback cb g).1)))
                 ∧ elements (resolve h (after ops (setElementKeyCallback cb g).1)).1
                   = <[cb h := length (heapE (after ops (setElementKeyCallback cb g).1))]>
                       (elements (after ops (setElementKeyCallback cb g).1))
                 ∧ heapE (resolve h (after ops (setElementKeyCallback cb g).1)).1
                   = heapE (after ops (setElementKeyCallback cb g).1)
                     ++ [new_Element h]
             end
       end).
Proof.
  intros Hreach Hops.
  assert (Hwf0 : wf (setElementKeyCallback cb g).1).
  { apply (wf_perform (OpSetElementKeyCallback cb)). by apply reachable_wf. }
  assert (Hkey : getElementKey (after ops (setElementKeyCallback cb g).1) = cb).
  { by rewrite key_after. }
  set (g' := after ops (setElementKeyCallback cb g).1) in *.
  assert (Hwf' : wf g') by by apply wf_after.
  split; [done|]. split; [done|]. split.
  - intros k e He. by apply (ext_elements _ _ (extends_after ops _ Hwf0)).
  - intros h. destruct (elements g' !! "hasOwnProperty") as [e1|] eqn:Hs.
    { by eapply resolve_poisoned. }
    destruct (decide (cb h = "__proto__")) as [Hp|Hp].
    { apply resolve_unlisted; [done | by rewrite Hkey]. }
    destruct (elements g' !! cb h) as [e0|] eqn:He0.
    + apply resolve_found; [done | by rewrite Hkey | by rewrite Hkey].
    + rewrite (resolve_new h g') by by rewrite ?Hkey.
      simpl. by rewrite Hkey.
Qed.

(** C6.  A state name that was never registered does not always fail
    before anything is attached.  On the page only the modifier "show" is
    registered; the state name is "toString", which Object.prototype
    answers to.  The attach of the State is skipped, the Modifier is
    built and attached to the panel, and only then the call throws, as
    [subscribe] calls [addModifier] on what is not a State. *)
Theorem unregistered_inherited_state_name_attaches_a_Modifier :
  statesContainer Page.shown !! "toString" = None
  ∧ (createRelationship "checkbox" "toString" "panel" "show" false Page.shown).2
    = Throw (NotAFunction "addModifier")
  ∧ heapE (createRelationship "checkbox" "toString" "panel" "show" false
             Page.shown).1
    = [mkElement "checkbox" [] []; mkElement "panel" [] [("show", 0)]]
  ∧ heapS (createRelationship "checkbox" "toString" "panel" "show" false
             Page.shown).1 = []
  ∧ heapM (createRelationship "checkbox" "toString" "panel" "show" false
             Page.shown).1
    = [mkModifier (Some 1) (Page.raise "visible") []].
Proof. split_and!; vm_compute; reflexivity. Qed.

(** X17.  For a plain state name the failure does come first.  After any
    setup that never registered a template under the dependency state
    name, and that left a registry that can be searched,
    createRelationship throws UnknownTemplate for that name, and the
    engine it leaves is the one the resolution of the dependency host
    left: no State and no Modifier was created, and every Element is as
    it was, or new and empty. *)
Theorem unregistered_state_fails_before_attaching
    (key : Host → string) (ops : list (Op Host World)) d k t (m : string) (i : bool) :
  plain_state_name k = true →
  forallb (λ op, negb (registers_state k op)) ops = true →
  searchable (after ops (init key)) = true →
  createRelationship d k t m i (after ops (init key))
  = ((resolve d (after ops (init key))).1, Throw (UnknownTemplate k))
  ∧ heapS (resolve d (after ops (init key))).1 = heapS (after ops (init key))
  ∧ heapM (resolve d (after ops (init key))).1 = heapM (after ops (init key))
  ∧ ∀ e el, heapE (resolve d (after ops (init key))).1 !! e = Some el →
            heapE (after ops (init key)) !! e = Some el ∨ el = new_Element d.
Proof.
  intros Hplain Hops Hsearch. set (g := after ops (init key)) in *.
  assert (Hwf : wf g) by apply wf_after, wf_init.
  assert (Hnone : statesContainer g !! k = None).
  { apply unregistered_after; [apply wf_init | done | apply lookup_empty]. }
  apply searchable_true in Hsearch.
  destruct (resolve_spec d g Hwf)
    as (g1 & r1 & Hq & Hwf1 & _ & _ & Hsc1 & _ & HS & HM & Hpost).
  destruct r1 as [eD|err]; [|destruct Hpost as (_ & _ & [e0 He0]); congruence].
  destruct Hpost as ([elD HelD] & _ & _).
  rewrite Hq. simpl. split_and!; try done.
  - assert (Hget : Js.get k (Element_states elD) = None).
    { destruct (Js.get k (Element_states elD)) as [s|] eqn:Hs; [|done].
      destruct (wf_states _ Hwf1 _ _ _ _ HelD (Js_get_Some_elem _ _ _ Hs))
        as [_ [tpl Htpl]]. rewrite Hsc1 in Htpl. congruence. }
    assert (Hthrow : ensure_state eD k g1 = (g1, Throw (UnknownTemplate k))).
    { apply (ensure_state_unknown _ _ _ _ HelD Hget Hplain). by rewrite Hsc1. }
    assert (Hboth : attach_both d k t m g = (g1, Throw (UnknownTemplate k))).
    { unfold attach_both. rewrite (bind_ok _ _ _ _ _ Hq).
      by rewrite (bind_throw _ _ _ _ _ Hthrow). }
    unfold createRelationship. by rewrite (bind_throw _ _ _ _ _ Hboth).
  - intros e el He.
    destruct (resolve_cases d g)
      as [[_ Hq']|[(_ & _ & Hq')|[(_ & _ & e' & _ & Hq')|(_ & _ & _ & Hq')]]];
      rewrite Hq' in Hq; try discriminate Hq; injection Hq as <- <-;
      simpl in He; try (by left);
      (apply lookup_snoc_Some in He as [[_ He]|[_ <-]]; [by left | by right]).
Qed.

(** C9.  A registered state name is not always attached before the
    missing modifier template is found.  On the page only the state
    "toString" is registered, a name Object.prototype answers to, and no
    modifier.  The attach of the State is skipped, and the call throws
    UnknownTemplate for the modifier name with no State built and none
    attached to the dependency Element. *)
Theorem inherited_state_name_is_never_attached :
  is_Some (statesContainer Page.stringy !! "toString")
  ∧ modifiersContainer Page.stringy !! "show" = None
  ∧ (createRelationship "checkbox" "toString" "panel" "show" false Page.stringy).2
    = Throw (UnknownTemplate "show")
  ∧ heapE (createRelationship "checkbox" "toString" "panel" "show" false
             Page.stringy).1
    = [mkElement "checkbox" [] []; mkElement "panel" [] []]
  ∧ heapS (createRelationship "checkbox" "toString" "panel" "show" false
             Page.stringy).1 = [].
Proof.
  split; [by eexists|]. split_and!; vm_compute; reflexivity.
Qed.

(** X18.  For names and keys that nothing else answers to, the State is
    attached first.  With the state name registered and the modifier name
    not, createRelationship throws UnknownTemplate for the modifier name
    only after it has resolved both hosts and attached the State: the
    engine it leaves has the dependency Element in the registry, with the
    State attached and pointing back at it.  Nothing is rolled back: if
    the dependency host was not resolved before, the failed call has
    grown the heap of States by that one State. *)
Theorem unregistered_modifier_fails_after_attaching
    g d k t (m : string) (i : bool) tpl :
  reachable g → searchable g = true →
  storable (getElementKey g d) = true → getElementKey g t ≠ "__proto__" →
  Js.inherited k = false → plain_modifier_name m = true →
  statesContainer g !! k = Some tpl → modifiersContainer g !! m = None →
  ∃ g' eD elD s st,
    createRelationship d k t m i g = (g', Throw (UnknownTemplate m))
    ∧ elements g' !! getElementKey g d = Some eD
    ∧ heapE g' !! eD = Some elD ∧ Js.get k (Element_states elD) = Some s
    ∧ heapS g' !! s = Some st ∧ State_element st = Some eD
    ∧ is_Some (elements g' !! getElementKey g t)
    ∧ (elements g !! getElementKey g d = None →
       heapS g' = heapS g ++ [mkState (Some eD) (State_callback tpl) []]).
Proof.
  intros Hreach Hs0 Hst Hkt Hik Hpm Htpl Hnone. apply reachable_wf in Hreach.
  apply searchable_true in Hs0. apply storable_true in Hst as [Hkd Hkd'].
  destruct (resolve_spec d g Hreach)
    as (g1 & r1 & Hq1 & Hwf1 & Hx1 & Hk1 & Hsc1 & Hmc1 & HS1 & HM1 & Hpost1).
  destruct r1 as [eD|err]; [|destruct Hpost1 as (_ & _ & [e0 He0]); congruence].
  destruct Hpost1 as (Hv1 & _ & Hr1). specialize (Hr1 Hkd).
  assert (Hs1 : elements g1 !! "hasOwnProperty" = None).
  { destruct (resolve_registry _ _ _ _ Hq1) as [_ Hframe]. by rewrite Hframe. }
  destruct (ensure_state_spec eD k g1 Hwf1 Hv1)
    as (g2 & r2 & Hq2 & Hwf2 & Hx2 & Hk2 & He2 & Hsc2 & Hmc2 & HM2 & Hpost2).
  destruct r2 as [[]|err].
  2:{ destruct Hpost2 as (_ & Hcontra & _). rewrite Hsc1 in Hcontra. congruence. }
  destruct Hpost2 as (elD & HelD & Hans).
  destruct (answered_instance _ _ Hik Hans) as [s Hs].
  destruct (resolve_spec t g2 Hwf2)
    as (g3 & r3 & Hq3 & Hwf3 & Hx3 & Hk3 & Hsc3 & Hmc3 & HS3 & HM3 & Hpost3).
  destruct r3 as [eT|err];
    [|destruct Hpost3 as (_ & _ & [e0 He0]); rewrite He2 in He0; congruence].
  destruct Hpost3 as ([elT HelT] & _ & Hr3).
  assert (Hget : Js.get m (Element_modifiers elT) = None).
  { destruct (Js.get m (Element_modifiers elT)) as [mref|] eqn:Hm; [|done].
    destruct (wf_modifiers _ Hwf3 _ _ _ _ HelT (Js_get_Some_elem _ _ _ Hm))
      as [_ [tp Htp]]. rewrite Hmc3, Hmc2, Hmc1 in Htp. congruence. }
  assert (Hthrow : ensure_modifier eT m g3 = (g3, Throw (UnknownTemplate m))).
  { apply (ensure_modifier_unknown _ _ _ _ HelT Hget Hpm).
    by rewrite Hmc3, Hmc2, Hmc1. }
  destruct (extends_state_attached g2 g3 eD elD k s Hx3 HelD Hs) as (elD' & HelD' & Hs').
  destruct (wf_states _ Hwf3 _ _ _ _ HelD' (Js_get_Some_elem _ _ _ Hs'))
    as [(st & Hst & Hste) _].
  exists g3, eD, elD', s, st. split_and!; try done.
  - assert (Hboth : attach_both d k t m g = (g3, Throw (UnknownTemplate m))).
    { unfold attach_both.
      rewrite (bind_ok _ _ _ _ _ Hq1), (bind_ok _ _ _ _ _ Hq2).
      rewrite (bind_ok _ _ _ _ _ Hq3). by rewrite (bind_throw _ _ _ _ _ Hthrow). }
    unfold createRelationship. by rewrite (bind_throw _ _ _ _ _ Hboth).
  - apply (ext_elements _ _ Hx3). by rewrite He2.
  - exists eT. rewrite Hk2, Hk1 in Hr3. by apply Hr3.
  - intros Hnew. rewrite (resolve_new _ _ Hs0 Hkd Hnew) in Hq1. injection Hq1 as <- <-.
    assert (Hnew_el : heapE
      (with_elements (<[getElementKey g d := length (heapE g)]> (elements g))
         (with_heapE (heapE g ++ [new_Element d]) g)) !! length (heapE g)
      = Some (new_Element d)) by apply snoc_lookup_last.
    rewrite (ensure_state_attach _ k _ _ tpl Hnew_el) in Hq2;
      [|by apply read_attached_none|done].
    injection Hq2 as <-. rewrite HS3. done.
Qed.

(** C10.  In every engine built by the public operations, the State
    that [getState] returns for an Element has that Element as its
    [element], and likewise the Modifier that [getModifier] returns
    (what Object.prototype answers is no instance).
    [attachState] and [attachModifier] set the back-reference and store
    the instance they were given, not a copy: the getter returns the same
    reference right after. *)
Theorem attached_instance_points_back g (e : nat) k :
  reachable g →
  (∀ s, getState e k g = (g, Ok (Some (Inst s))) →
        ∃ st, heapS g !! s = Some st ∧ State_element st = Some e)
  ∧ (∀ m, getModifier e k g = (g, Ok (Some (Inst m))) →
          ∃ md, heapM g !! m = Some md ∧ Modifier_element md = Some e)
  ∧ (∀ s, is_Some (heapE g !! e) → is_Some (heapS g !! s) →
          ∃ g' st, attachState e k s g = (g', Ok tt)
            ∧ getState e k g' = (g', Ok (Some (Inst s)))
            ∧ heapS g' !! s = Some st ∧ State_element st = Some e)
  ∧ (∀ m, is_Some (heapE g !! e) → is_Some (heapM g !! m) →
          ∃ g' md, attachModifier e k m g = (g', Ok tt)
            ∧ getModifier e k g' = (g', Ok (Some (Inst m)))
            ∧ heapM g' !! m = Some md ∧ Modifier_element md = Some e).
Proof.
  intros Hreach. apply reachable_wf in Hreach. split_and!.
  - intros s Hget. unfold getState, bind, readE, ret in Hget.
    destruct (heapE g !! e) as [el|] eqn:Hel; [|done].
    injection Hget as Hs. apply read_attached_Inst in Hs.
    by destruct (wf_states _ Hreach _ _ _ _ Hel (Js_get_Some_elem _ _ _ Hs)).
  - intros m Hget. unfold getModifier, bind, readE, ret in Hget.
    destruct (heapE g !! e) as [el|] eqn:Hel; [|done].
    injection Hget as Hm. apply read_attached_Inst in Hm.
    by destruct (wf_modifiers _ Hreach _ _ _ _ Hel (Js_get_Some_elem _ _ _ Hm)).
  - intros s [el Hel] [st Hst].
    assert (He : e < length (heapE g)) by by eapply lookup_lt_Some.
    assert (Hs : s < length (heapS g)) by by eapply lookup_lt_Some.
    eexists _, _. unfold attachState, State_setElement, bind, readS, writeS,
      readE, writeE, ret. rewrite Hst. simpl. rewrite Hel. simpl.
    split; [done|]. unfold getState, bind, readE, ret. simpl.
    rewrite !list_lookup_insert_eq by done. simpl.
    by rewrite (read_attached_own _ _ _ (Js_get_set_eq _ _ _)).
  - intros m [el Hel] [md Hmd].
    assert (He : e < length (heapE g)) by by eapply lookup_lt_Some.
    assert (Hm : m < length (heapM g)) by by eapply lookup_lt_Some.
    eexists _, _. unfold attachModifier, Modifier_setElement, bind, readM, writeM,
      readE, writeE, ret. rewrite Hmd. simpl. rewrite Hel. simpl.
    split; [done|]. unfold getModifier, bind, readE, ret. simpl.
    rewrite !list_lookup_insert_eq by done. simpl.
    by rewrite (read_attached_own _ _ _ (Js_get_set_eq _ _ _)).
Qed.

(** C5.  A repeated call does not always reuse the instances of the
    first.  On the page the dependency host has the id "__proto__".  Both
    calls succeed.  The second call builds a second Element for the host
    and a second State on it, and subscribes the Modifier to that State:
    the subscriber list of the first State does not grow, and the
    subscription list of the Modifier gains the second State, not the
    first again.  With a dependent host whose id is "hasOwnProperty" the
    first call succeeds and the second throws. *)
Theorem repeated_createRelationship_under_proto_key :
  createRelationship "__proto__" "checked" "panel" "show" false Page.templates
  = (Page.linked, Ok tt)
  ∧ createRelationship "__proto__" "checked" "panel" "show" false Page.linked
    = (Page.linked_again, Ok tt)
  ∧ heapE Page.linked
    = [mkElement "__proto__" [("checked", 0)] [];
       mkElement "panel" [] [("show", 0)]]
  ∧ heapE Page.linked_again
    = [mkElement "__proto__" [("checked", 0)] [];
       mkElement "panel" [] [("show", 0)];
       mkElement "__proto__" [("checked", 1)] []]
  ∧ length (heapS Page.linked) = 1 ∧ length (heapS Page.linked_again) = 2
  ∧ subscribers Page.linked 0 = [0] ∧ subscribers Page.linked_again 0 = [0]
  ∧ subscribers Page.linked_again 1 = [0]
  ∧ subscriptions Page.linked_again 0 = [0; 1]
  ∧ createRelationship "checkbox" "checked" "hasOwnProperty" "show" false
      Page.templates
    = (Page.shadowed, Ok tt)
  ∧ createRelationship "checkbox" "checked" "hasOwnProperty" "show" false
      Page.shadowed
    = (Page.shadowed, Throw (NotAFunction "hasOwnProperty")).
Proof. split_and!; vm_compute; reflexivity. Qed.

(** X16.  Under keys that the registry stores, and while it can be
    searched, the repeated call reuses them.  When createRelationship has
    succeeded, the same call again succeeds and leaves the registry and
    every Element, hence every attachment map, as they were, and
    allocates no State and no Modifier.  It appends the Modifier once
    more to the subscriber list of the State and the State once more to
    the subscription list of the Modifier; nothing else is appended
    unless the call inherits from a Modifier of the dependency
    Element. *)
Theorem repeated_createRelationship_resubscribes
    g d k t (m : string) (i : bool) g1 :
  reachable g →
  getElementKey g d ≠ "__proto__" → getElementKey g t ≠ "__proto__" →
  createRelationship d k t m i g = (g1, Ok tt) →
  searchable g1 = true →
  ∃ g2 eD eT elD elT s mref moreM moreS,
    createRelationship d k t m i g1 = (g2, Ok tt)
    ∧ same_objects g1 g2
    ∧ elements g1 !! getElementKey g1 d = Some eD
    ∧ heapE g1 !! eD = Some elD ∧ Js.get k (Element_states elD) = Some s
    ∧ elements g1 !! getElementKey g1 t = Some eT
    ∧ heapE g1 !! eT = Some elT ∧ Js.get m (Element_modifiers elT) = Some mref
    ∧ subscribers g2 s = subscribers g1 s ++ mref :: moreM
    ∧ subscriptions g2 mref = subscriptions g1 mref ++ s :: moreS
    ∧ (i = false ∨ Js.get m (Element_modifiers elD) = None →
       moreM = [] ∧ moreS = []).
Proof.
  intros Hreach Hkd Hkt Hfirst Hs1. apply reachable_wf in Hreach.
  apply searchable_true in Hs1.
  destruct (createRelationship_spec d k t m i g Hreach)
    as (g1' & r & Hq & Hwf1 & _ & Hk1 & _ & _ & Hpost).
  rewrite Hfirst in Hq. injection Hq as <- <-.
  destruct (Hpost eq_refl)
    as (eD & eT & elD & elT & s & mref & HelD & Hs & HelT & Hm & HD & HT).
  specialize (HD Hkd). specialize (HT Hkt).
  rewrite <- Hk1 in HD, HT, Hkd, Hkt.
  pose proof (attach_both_again d k t m g1 eD eT elD elT s mref
                Hs1 Hkd Hkt HD HT HelD Hs HelT Hm) as Hboth.
  destruct (subscribe_named_spec eD k eT m g1 elD elT s mref Hwf1 HelD Hs HelT Hm)
    as (g2 & Hq2 & Hwf2 & Hx2 & Hsame2 & Hm2 & Hm2' & Hs2 & Hs2').
  assert (HelD2 : heapE g2 !! eD = Some elD) by by rewrite (same_heapE _ _ Hsame2).
  assert (Hmref : is_Some (heapM g2 !! mref)).
  { assert (HelT2 : heapE g2 !! eT = Some elT) by by rewrite (same_heapE _ _ Hsame2).
    destruct (wf_modifiers _ Hwf2 _ _ _ _ HelT2 (Js_get_Some_elem _ _ _ Hm))
      as [(md & Hmd & _) _]. by eexists. }
  unfold createRelationship.
  rewrite (bind_ok _ _ _ _ _ Hboth), (bind_ok _ _ _ _ _ Hq2).
  pose proof (inherit_spec eD m mref g2 elD Hwf2 HelD2 Hmref) as Hin.
  destruct i; [destruct (Js.get m (Element_modifiers elD)) as [up|] eqn:Hup|].
  - destruct Hin as (g3 & Hq3 & _ & _ & Hsame3 & Hm3 & _ & Hs3).
    exists g3, eD, eT, elD, elT, s, mref,
      (replicate (count_occ Nat.eq_dec (subscriptions g2 up) s) mref),
      (subscriptions g2 up).
    split_and!; try done.
    + by eapply same_objects_trans.
    + rewrite Hs3, Hs2. by rewrite <- app_assoc.
    + rewrite Hm3, Hm2. by rewrite <- app_assoc.
    + intros [?|?]; congruence.
  - exists g2, eD, eT, elD, elT, s, mref, [], []. split_and!; try done.
  - exists g2, eD, eT, elD, elT, s, mref, [], []. split_and!; try done.
Qed.

(** C4.  A call with [inheritState] does what the call without it does
    and then inherits.  Let the call without it succeed, so that it has
    resolved a dependency Element and a dependent Element and left a
    State and a Modifier attached to them and subscribed.  If the
    dependency Element holds a Modifier under the dependent's modifier
    name, the dependent's Modifier subscribes to every entry of that
    Modifier's subscription list, in order: the list is appended to its
    own, and each State in it gains the dependent's Modifier as a
    subscriber, once per entry.  Otherwise the call ends as the call
    without [inheritState] does, with the one subscription. *)
Theorem inheritState_copies_upstream_subscriptions
    g d k t (m : string) g1 :
  reachable g →
  createRelationship d k t m false g = (g1, Ok tt) →
  ∃ eD elD s eT elT mref before before',
    (attach_both d k t m g).2 = Ok (eD, eT)
    ∧ heapE g1 !! eD = Some elD ∧ Js.get k (Element_states elD) = Some s
    ∧ heapE g1 !! eT = Some elT ∧ Js.get m (Element_modifiers elT) = Some mref
    ∧ subscriptions g1 mref = before ++ [s]
    ∧ subscribers g1 s = before' ++ [mref]
    ∧ match Js.get m (Element_modifiers elD) with
      | Some up =>
          ∃ g2, createRelationship d k t m true g = (g2, Ok tt)
            ∧ same_objects g1 g2
            ∧ subscriptions g2 mref = subscriptions g1 mref ++ subscriptions g1 up
            ∧ (∀ m', m' ≠ mref → subscriptions g2 m' = subscriptions g1 m')
            ∧ (∀ s', subscribers g2 s'
                     = subscribers g1 s'
                       ++ replicate
                            (count_occ Nat.eq_dec (subscriptions g1 up) s') mref)
      | None => createRelationship d k t m true g = (g1, Ok tt)
      end.
Proof.
  intros Hreach Hplain. apply reachable_wf in Hreach.
  destruct (attach_both_spec d k t m g Hreach)
    as (ga & ra & Hqa & Hwfa & _ & _ & _ & _ & Hposta).
  unfold createRelationship in Hplain.
  destruct ra as [[eD eT]|err].
  2:{ rewrite (bind_throw _ _ _ _ _ Hqa) in Hplain. done. }
  rewrite (bind_ok _ _ _ _ _ Hqa) in Hplain.
  destruct Hposta as (_ & _ & elD & elT & HelD & HelT & _ & _).
  destruct (refusal (read_attached k (Element_states elD))
                    (read_attached m (Element_modifiers elT))) as [err|] eqn:Hrf.
  { rewrite (bind_throw _ _ _ _ _
               (subscribe_named_refused eD k eT m ga elD elT err HelD HelT Hrf))
      in Hplain. done. }
  apply refusal_None in Hrf as (s & mref & Hs & Hm).
  apply read_attached_Inst in Hs, Hm.
  destruct (subscribe_named_spec eD k eT m ga elD elT s mref Hwfa HelD Hs HelT Hm)
    as (gb & Hqb & Hwfb & _ & Hsame & Hmb & _ & Hsb & _).
  rewrite (bind_ok _ _ _ _ _ Hqb) in Hplain.
  unfold ret in Hplain. injection Hplain as <-.
  assert (Htrue : createRelationship d k t m true g = inherit eD m mref gb).
  { unfold createRelationship. rewrite (bind_ok _ _ _ _ _ Hqa).
    by rewrite (bind_ok _ _ _ _ _ Hqb). }
  rewrite Htrue.
  destruct Hsame as [Sa Sb Sc Sd Se Sf Sg].
  assert (HelD' : heapE gb !! eD = Some elD) by by rewrite Se.
  assert (HelT' : heapE gb !! eT = Some elT) by by rewrite Se.
  assert (Hmref : is_Some (heapM gb !! mref)).
  { destruct (wf_modifiers _ Hwfb _ _ _ _ HelT' (Js_get_Some_elem _ _ _ Hm))
      as [(md & Hmd & _) _]. by eexists. }
  exists eD, elD, s, eT, elT, mref, (subscriptions ga mref), (subscribers ga s).
  split_and!; try done; try (by rewrite Hqa).
  pose proof (inherit_spec eD m mref gb elD Hwfb HelD' Hmref) as Hin.
  destruct (Js.get m (Element_modifiers elD)) as [up|]; [|done].
  destruct Hin as (g2 & Hq2 & _ & _ & Hsame2 & Hm2 & Hm2' & Hs2).
  by exists g2.
Qed.

End SetupClaims.

(** * The theorems at work on the page *)

Module PageFacts.

Import Page.

Lemma chain_reachable : reachable chain.
Proof. exists by_id, chain_setup. reflexivity. Qed.

Lemma single_reachable : reachable single.
Proof. exists by_id, single_setup. reflexivity. Qed.

Lemma staged_reachable : reachable staged.
Proof. exists by_id, staged_setup. reflexivity. Qed.

(** The checkbox is ticked: the panel is shown, then the field marked.
    The panel's State is inactive until the panel is shown. *)
Lemma cascade_runs_chain_in_order_witness :
  flag "visible" "panel" ["checkbox.checked"] = false
  ∧ change 3 chain 0 ["checkbox.checked"]
    = Done (["field.marked"; "panel.visible"; "checkbox.checked"],
            [EvFanOut 0; EvPublish 0; EvMutate 0 "panel";
             EvFanOut 1; EvPublish 1; EvMutate 1 "field"; EvFanOut 2]).
Proof.
  split; [reflexivity|].
  destruct (cascade_runs_chain_in_order chain ["checkbox.checked"] 0
    0 (mkElement "checkbox" [("checked", 0)] [])
    "checked" 0 (mkState (Some 0) (flag "checked") [0])
    0 (mkModifier (Some 1) (raise "visible") [0])
    1 (mkElement "panel" [("visible", 1)] [("show", 0)])
    "visible" 1 (mkState (Some 1) (flag "visible") [1])
    1 (mkModifier (Some 2) (raise "marked") [1])
    2 (mkElement "field" [] [("mark", 1)])
    eq_refl eq_refl eq_refl eq_refl eq_refl eq_refl eq_refl eq_refl eq_refl
    eq_refl eq_refl eq_refl eq_refl eq_refl eq_refl eq_refl eq_refl eq_refl)
    as [_ (tr & Hrun & Htr & _)].
  rewrite Htr in Hrun. exact Hrun.
Defined.

Lemma one_trigger_one_mutation_witness :
  ∃ tr, change 2 single 0 ["checkbox.checked"]
        = Done (["panel.visible"; "checkbox.checked"], tr)
        ∧ mutations tr = [(0, "panel")].
Proof.
  destruct (one_trigger_one_mutation single ["checkbox.checked"] 0
    0 (mkElement "checkbox" [("checked", 0)] [])
    "checked" 0 (mkState (Some 0) (flag "checked") [0])
    0 (mkModifier (Some 1) (raise "visible") [0])
    1 (mkElement "panel" [] [("show", 0)])
    eq_refl eq_refl eq_refl eq_refl eq_refl eq_refl eq_refl eq_refl eq_refl
    eq_refl)
    as (tr & Hrun & _ & Hmut).
  exists tr. split; [exact Hrun | exact Hmut].
Defined.


Lemma blank_reachable : reachable blank.
Proof. exists by_id, []. reflexivity. Qed.

Lemma templates_reachable : reachable templates.
Proof. exists by_id, templates_setup. reflexivity. Qed.

Lemma single_searchable : searchable single = true.
Proof. vm_compute. reflexivity. Qed.

Lemma single_after_resolve_searchable :
  searchable (after single_setup (resolve "checkbox" blank).1) = true.
Proof. vm_compute. reflexivity. Qed.

(** Resolving the checkbox before and after the page is set up gives
    Element 0 both times. *)
Lemma resolve_returns_the_same_Element_witness :
  ∃ e, (resolve "checkbox" blank).2 = Ok e
       ∧ resolve "checkbox" (after single_setup (resolve "checkbox" blank).1)
         = (after single_setup (resolve "checkbox" blank).1, Ok e)
       ∧ e = 0
       ∧ heapE (resolve "checkbox" blank).1 = [new_Element "checkbox"]
       ∧ elements (resolve "checkbox" blank).1 = <["checkbox" := e]> ∅.
Proof.
  refine (resolve_returns_the_same_Element blank "checkbox" "checkbox" single_setup
            blank_reachable _ single_after_resolve_searchable eq_refl).
  simpl. discriminate.
Defined.

Lemma reclassed_searchable :
  elements (after one_more (setElementKeyCallback by_class single).1)
    !! "hasOwnProperty" = None.
Proof. vm_compute. reflexivity. Qed.

Lemma reclassed_new_key :
  elements (after one_more (setElementKeyCallback by_class single).1)
    !! by_class "checkbox" = None.
Proof. vm_compute. reflexivity. Qed.

Lemma reclassed_key : by_class "checkbox" ≠ "__proto__".
Proof. vm_compute. discriminate. Qed.

(** After the resolver is replaced on the page, and one more template
    registered, the checkbox is resolved anew under its class key, and
    stays registered under its id. *)
Lemma replaced_resolver_keys_later_resolutions_witness :
  elements (after one_more (setElementKeyCallback by_class single).1)
    !! "checkbox" = Some 0
  ∧ (resolve "checkbox"
       (after one_more (setElementKeyCallback by_class single).1)).2
    = Ok (length
            (heapE (after one_more (setElementKeyCallback by_class single).1)))
  ∧ elements
      (resolve "checkbox"
         (after one_more (setElementKeyCallback by_class single).1)).1
    = <[by_class "checkbox"
        := length
             (heapE (after one_more (setElementKeyCallback by_class single).1))]>
        (elements (after one_more (setElementKeyCallback by_class single).1))
  ∧ heapE
      (resolve "checkbox"
         (after one_more (setElementKeyCallback by_class single).1)).1
    = heapE (after one_more (setElementKeyCallback by_class single).1)
      ++ [new_Element "checkbox"].
Proof.
  destruct (replaced_resolver_keys_later_resolutions single by_class one_more
              single_reachable eq_refl)
    as (_ & _ & Hkept & Hres).
  split; [exact (Hkept "checkbox" 0 eq_refl)|].
  specialize (Hres "checkbox").
  rewrite reclassed_searchable in Hres.
  rewrite (decide_False (P:=by_class "checkbox" = "__proto__")) in Hres
    by exact reclassed_key.
  rewrite reclassed_new_key in Hres. exact Hres.
Defined.

Lemma unregistered_state_fails_before_attaching_witness :
  createRelationship "door" "open" "panel" "show" false single
  = ((resolve "door" single).1, Throw (UnknownTemplate "open"))
  ∧ heapS (resolve "door" single).1 = heapS single
  ∧ heapM (resolve "door" single).1 = heapM single.
Proof.
  destruct (unregistered_state_fails_before_attaching by_id single_setup
              "door" "open" "panel" "show" false eq_refl eq_refl single_searchable)
    as (H1 & H2 & H3 & _).
  split; [exact H1 | split; [exact H2 | exact H3]].
Defined.

Lemma unregistered_modifier_fails_after_attaching_witness :
  ∃ g' eD elD s st,
    createRelationship "door" "checked" "panel" "hide" false single
    = (g', Throw (UnknownTemplate "hide"))
    ∧ elements g' !! "door" = Some eD
    ∧ heapE g' !! eD = Some elD ∧ Js.get "checked" (Element_states elD) = Some s
    ∧ heapS g' !! s = Some st ∧ State_element st = Some eD
    ∧ length (heapS g') = S (length (heapS single)).
Proof.
  assert (Hkt : getElementKey single "panel" ≠ "__proto__")
    by (vm_compute; discriminate).
  destruct (unregistered_modifier_fails_after_attaching single
              "door" "checked" "panel" "hide" false (new_State (flag "checked"))
              single_reachable single_searchable eq_refl Hkt eq_refl eq_refl
              eq_refl eq_refl)
    as (g' & eD & elD & s & st & Hq & HD & HelD & Hs & Hst & Hback & _ & Hgrow).
  exists g', eD, elD, s, st. repeat (split; [assumption|]).
  rewrite (Hgrow eq_refl), length_app. apply Nat.add_1_r.
Defined.

Lemma attached_instance_points_back_witness :
  ∃ st, heapS single !! 0 = Some st ∧ State_element st = Some 0.
Proof.
  destruct (attached_instance_points_back single 0 "checked" single_reachable)
    as (Hstate & _).
  exact (Hstate 0 eq_refl).
Defined.

Lemma single_first_call :
  createRelationship "checkbox" "checked" "panel" "show" false templates
  = (single, Ok tt).
Proof. vm_compute. reflexivity. Qed.

Lemma staged_plain_call :
  createRelationship "panel" "visible" "field" "show" false staged
  = (staged_plain, Ok tt).
Proof. vm_compute. reflexivity. Qed.

Lemma repeated_createRelationship_resubscribes_witness :
  ∃ g2 s mref,
    createRelationship "checkbox" "checked" "panel" "show" false single = (g2, Ok tt)
    ∧ same_objects single g2
    ∧ subscribers g2 s = subscribers single s ++ [mref]
    ∧ subscriptions g2 mref = subscriptions single mref ++ [s].
Proof.
  assert (Hkd : getElementKey templates "checkbox" ≠ "__proto__")
    by (vm_compute; discriminate).
  assert (Hkt : getElementKey templates "panel" ≠ "__proto__")
    by (vm_compute; discriminate).
  destruct (repeated_createRelationship_resubscribes templates
              "checkbox" "checked" "panel" "show" false single
              templates_reachable Hkd Hkt single_first_call single_searchable)
    as (g2 & eD & eT & elD & elT & s & mref & moreM & moreS
        & Hq & Hsame & _ & _ & _ & _ & _ & _ & Hsub & Hsubs & Hmore).
  destruct (Hmore (or_introl eq_refl)) as [HM HS].
  rewrite HM in Hsub. rewrite HS in Hsubs.
  exists g2, s, mref. repeat (split; [assumption|]). assumption.
Defined.

Lemma inheritState_copies_upstream_subscriptions_witness :
  ∃ eD elD s eT elT mref before before',
    (attach_both "panel" "visible" "field" "show" staged).2 = Ok (eD, eT)
    ∧ heapE staged_plain !! eD = Some elD
    ∧ Js.get "visible" (Element_states elD) = Some s
    ∧ heapE staged_plain !! eT = Some elT
    ∧ Js.get "show" (Element_modifiers elT) = Some mref
    ∧ subscriptions staged_plain mref = before ++ [s]
    ∧ subscribers staged_plain s = before' ++ [mref]
    ∧ match Js.get "show" (Element_modifiers elD) with
      | Some up =>
          ∃ g2, createRelationship "panel" "visible" "field" "show" true staged
                = (g2, Ok tt)
            ∧ same_objects staged_plain g2
            ∧ subscriptions g2 mref
              = subscriptions staged_plain mref ++ subscriptions staged_plain up
            ∧ (∀ m', m' ≠ mref → subscriptions g2 m' = subscriptions staged_plain m')
            ∧ (∀ s', subscribers g2 s'
                     = subscribers staged_plain s'
                       ++ replicate
                            (count_occ Nat.eq_dec (subscriptions staged_plain up) s')
                            mref)
      | None => createRelationship "panel" "visible" "field" "show" true staged
                = (staged_plain, Ok tt)
      end.
Proof.
  exact (inheritState_copies_upstream_subscriptions staged
           "panel" "visible" "field" "show" staged_plain staged_reachable
           staged_plain_call).
Defined.

(** On the page, the downstream Modifier (1) ends up subscribed to its
    own State (1) and to the State (0) its upstream subscribes to. *)
Lemma staged_inherit_run :
  ∃ g2, createRelationship "panel" "visible" "field" "show" true staged = (g2, Ok tt)
        ∧ subscriptions g2 1 = [1; 0] ∧ subscribers g2 0 = [0; 1].
Proof.
  exists (createRelationship "panel" "visible" "field" "show" true staged).1.
  split; [vm_compute; reflexivity|]. split; vm_compute; reflexivity.
Qed.

End PageFacts.

(** * Induction over the steps of setup *)

Section StepInduction.

Context {Host World : Type}.
Variable J : Engine Host World → Prop.
Hypothesis HJ : step_closed J.

Implicit Types (g : Engine Host World) (h d t : Host) (k : string).

Lemma resolve_keeps h g : wf g → J g → J (resolve h g).1.
Proof.
  intros Hwf Hg.
  destruct (resolve_cases h g)
    as [[_ Hq]|[(_ & _ & Hq)|[(_ & _ & e & _ & Hq)|(_ & Hk & He & Hq)]]];
    rewrite Hq; simpl; try done.
  - by apply (sc_unlisted J HJ).
  - by apply (sc_element J HJ).
Qed.

Lemma ensure_state_keeps (e : nat) k g :
  wf g → J g → is_Some (heapE g !! e) → J (ensure_state e k g).1.
Proof.
  intros Hwf Hg [el Hel].
  destruct (read_attached k (Element_states el)) as [r|] eqn:Hr.
  - by rewrite (ensure_state_answered _ _ _ _ Hel) by by eexists.
  - destruct (statesContainer g !! k) as [tpl|] eqn:Ht.
    + rewrite (ensure_state_attach _ _ _ _ _ Hel Hr Ht).
      apply read_attached_is_None in Hr as [Hs Hi].
      by apply (sc_state J HJ).
    + by rewrite (ensure_state_miss _ _ _ _ Hel Hr Ht).
Qed.

Lemma ensure_modifier_keeps (e : nat) k g :
  wf g → J g → is_Some (heapE g !! e) → J (ensure_modifier e k g).1.
Proof.
  intros Hwf Hg [el Hel].
  destruct (read_attached k (Element_modifiers el)) as [r|] eqn:Hr.
  - by rewrite (ensure_modifier_answered _ _ _ _ Hel) by by eexists.
  - destruct (modifiersContainer g !! k) as [tpl|] eqn:Ht.
    + rewrite (ensure_modifier_attach _ _ _ _ _ Hel Hr Ht).
      apply read_attached_is_None in Hr as [Hm Hi].
      by apply (sc_modifier J HJ).
    + by rewrite (ensure_modifier_miss _ _ _ _ Hel Hr Ht).
Qed.

Lemma subscribe_keeps (m s : nat) g :
  wf g → J g → is_Some (heapS g !! s) → is_Some (heapM g !! m) →
  J (subscribe m s g).1.
Proof.
  intros Hwf Hg [st Hst] [md Hmd]. rewrite (subscribe_eq _ _ _ _ _ Hst Hmd).
  by apply (sc_subscribe J HJ).
Qed.

Lemma subscribe_each_keeps (m : nat) (L : list nat) g :
  wf g → J g → is_Some (heapM g !! m) →
  Forall (λ s, is_Some (heapS g !! s)) L →
  J (for_each_M (λ s, subscribe m s) L g).1.
Proof.
  revert g. induction L as [|s L IH]; intros g Hwf Hg Hm HL; [done|].
  apply Forall_cons in HL as [Hs HL].
  pose proof (subscribe_keeps m s g Hwf Hg Hs Hm) as Hg1.
  destruct (subscribe_spec m s g Hwf Hs Hm) as (g1 & Hq & Hwf1 & _ & Hsame & _).
  rewrite Hq in Hg1. simpl. rewrite (bind_ok _ _ _ _ _ Hq).
  apply IH; [done | done | |].
  - apply lookup_lt_is_Some. rewrite (same_heapM _ _ Hsame).
    by apply lookup_lt_is_Some.
  - eapply Forall_impl; [exact HL|]. intros s' Hs'. simpl in Hs'.
    apply lookup_lt_is_Some. rewrite (same_heapS _ _ Hsame).
    by apply lookup_lt_is_Some.
Qed.

Lemma attach_both_keeps d k t (m : string) g :
  wf g → J g → J (attach_both d k t m g).1.
Proof.
  intros Hwf Hg. unfold attach_both.
  pose proof (resolve_keeps d g Hwf Hg) as Hg1.
  destruct (resolve_spec d g Hwf)
    as (g1 & r1 & Hq1 & Hwf1 & _ & _ & _ & _ & _ & _ & Hpost1).
  rewrite Hq1 in Hg1. simpl in Hg1.
  destruct r1 as [eD|err]; [|by rewrite (bind_throw _ _ _ _ _ Hq1)].
  destruct Hpost1 as (Hv1 & _). rewrite (bind_ok _ _ _ _ _ Hq1).
  pose proof (ensure_state_keeps eD k g1 Hwf1 Hg1 Hv1) as Hg2.
  destruct (ensure_state_spec eD k g1 Hwf1 Hv1) as (g2 & r2 & Hq2 & Hwf2 & _).
  rewrite Hq2 in Hg2. simpl in Hg2.
  destruct r2 as [[]|err]; [|by rewrite (bind_throw _ _ _ _ _ Hq2)].
  rewrite (bind_ok _ _ _ _ _ Hq2).
  pose proof (resolve_keeps t g2 Hwf2 Hg2) as Hg3.
  destruct (resolve_spec t g2 Hwf2)
    as (g3 & r3 & Hq3 & Hwf3 & _ & _ & _ & _ & _ & _ & Hpost3).
  rewrite Hq3 in Hg3. simpl in Hg3.
  destruct r3 as [eT|err]; [|by rewrite (bind_throw _ _ _ _ _ Hq3)].
  destruct Hpost3 as (Hv3 & _). rewrite (bind_ok _ _ _ _ _ Hq3).
  pose proof (ensure_modifier_keeps eT m g3 Hwf3 Hg3 Hv3) as Hg4.
  destruct (ensure_modifier_spec eT m g3 Hwf3 Hv3) as (g4 & r4 & Hq4 & _).
  rewrite Hq4 in Hg4. simpl in Hg4.
  destruct r4 as [[]|err]; [|by rewrite (bind_throw _ _ _ _ _ Hq4)].
  by rewrite (bind_ok _ _ _ _ _ Hq4).
Qed.

Lemma subscribe_named_keeps (eD : nat) k (eT : nat) (m : string) g elD elT s mref :
  wf g → J g →
  heapE g !! eD = Some elD → Js.get k (Element_states elD) = Some s →
  heapE g !! eT = Some elT → Js.get m (Element_modifiers elT) = Some mref →
  J (subscribe_named eD k eT m g).1.
Proof.
  intros Hwf Hg HelD Hs HelT Hm. unfold subscribe_named.
  rewrite (bind_ok _ _ _ _ _ (getState_eq eD k g elD HelD)).
  rewrite (bind_ok _ _ _ _ _ (getModifier_eq eT m g elT HelT)).
  rewrite (read_attached_own _ _ _ Hs), (read_attached_own _ _ _ Hm).
  destruct (wf_states _ Hwf _ _ _ _ HelD (Js_get_Some_elem _ _ _ Hs))
    as [(st & Hst & _) _].
  destruct (wf_modifiers _ Hwf _ _ _ _ HelT (Js_get_Some_elem _ _ _ Hm))
    as [(md & Hmd & _) _].
  pose proof (subscribe_keeps mref s g Hwf Hg (mk_is_Some _ _ Hst)
                (mk_is_Some _ _ Hmd)) as Hg1.
  rewrite (subscribe_eq _ _ _ _ _ Hst Hmd) in Hg1.
  by rewrite (bind_ok _ _ _ _ _ (subscribe_eq _ _ _ _ _ Hst Hmd)).
Qed.

Lemma inherit_keeps (eD : nat) (m : string) (mref : nat) g :
  wf g → J g → is_Some (heapE g !! eD) → is_Some (heapM g !! mref) →
  J (inherit eD m mref g).1.
Proof.
  intros Hwf Hg [elD HelD] Hmref. unfold inherit.
  rewrite (bind_ok _ _ _ _ _ (getModifier_eq eD m g elD HelD)).
  unfold read_attached.
  destruct (Js.get m (Element_modifiers elD)) as [up|] eqn:Hup;
    [|by destruct (Js.inherited m)].
  destruct (wf_modifiers _ Hwf _ _ _ _ HelD (Js_get_Some_elem _ _ _ Hup))
    as [(md & Hmd & _) _].
  assert (Hread : readM up g = (g, Ok md)) by (unfold readM; by rewrite Hmd).
  rewrite (bind_ok _ _ _ _ _ Hread).
  apply subscribe_each_keeps; [done | done | done |].
  apply Forall_forall. intros s Hs. by eapply wf_subscriptions.
Qed.

Lemma createRelationship_keeps d k t (m : string) (i : bool) g :
  wf g → J g → J (createRelationship d k t m i g).1.
Proof.
  intros Hwf Hg. unfold createRelationship.
  pose proof (attach_both_keeps d k t m g Hwf Hg) as Hg1.
  destruct (attach_both_spec d k t m g Hwf)
    as (g1 & r1 & Hq1 & Hwf1 & _ & _ & _ & _ & Hpost1).
  rewrite Hq1 in Hg1. simpl in Hg1.
  destruct r1 as [[eD eT]|err]; [|by rewrite (bind_throw _ _ _ _ _ Hq1)].
  rewrite (bind_ok _ _ _ _ _ Hq1).
  destruct Hpost1 as (_ & _ & elD & elT & HelD & HelT & _ & _).
  destruct (refusal (read_attached k (Element_states elD))
                    (read_attached m (Element_modifiers elT))) as [err|] eqn:Hrf.
  { by rewrite (bind_throw _ _ _ _ _
                  (subscribe_named_refused eD k eT m g1 elD elT err HelD HelT Hrf)). }
  apply refusal_None in Hrf as (s & mref & Hs & Hm).
  apply read_attached_Inst in Hs, Hm.
  pose proof (subscribe_named_keeps eD k eT m g1 elD elT s mref
                Hwf1 Hg1 HelD Hs HelT Hm) as Hg2.
  destruct (subscribe_named_spec eD k eT m g1 elD elT s mref Hwf1 HelD Hs HelT Hm)
    as (g2 & Hq2 & Hwf2 & _ & Hsame & _).
  rewrite Hq2 in Hg2. simpl in Hg2. rewrite (bind_ok _ _ _ _ _ Hq2).
  destruct i; [|done].
  apply inherit_keeps; [done | done | |].
  - rewrite (same_heapE _ _ Hsame). by eexists.
  - destruct (wf_modifiers _ Hwf1 _ _ _ _ HelT (Js_get_Some_elem _ _ _ Hm))
      as [(md & Hmd & _) _].
    apply lookup_lt_is_Some. rewrite (same_heapM _ _ Hsame).
    apply lookup_lt_is_Some. by eexists.
Qed.

Lemma perform_keeps (op : Op Host World) g : wf g → J g → J (perform op g).1.
Proof.
  intros Hwf Hg. destruct op as [name cb|name cb|d k t m i|cb]; simpl.
  - by apply (sc_addState J HJ).
  - by apply (sc_addModifier J HJ).
  - by apply createRelationship_keeps.
  - by apply (sc_setElementKeyCallback J HJ).
Qed.

Lemma after_keeps (ops : list (Op Host World)) g : wf g → J g → J (after ops g).
Proof.
  revert g. induction ops as [|op ops IH]; intros g Hwf Hg; [done|].
  simpl. apply IH; [by apply wf_perform | by apply perform_keeps].
Qed.

Lemma reachable_keeps g : (∀ key, J (init key)) → reachable g → J g.
Proof.
  intros Hinit (key & ops & ->). apply after_keeps; [apply wf_init | apply Hinit].
Qed.

End StepInduction.

(** * Invariants of the graph *)

Section GraphInvariants.

Context {Host World : Type}.
Implicit Types (g : Engine Host World) (h : Host) (k : string).

(** ** How each step changes the two kinds of list *)

Lemma subscribers_attached_State (e : nat) k el tpl g (s : nat) :
  subscribers (with_attached_State e k el tpl g) s = subscribers g s.
Proof.
  unfold subscribers, with_attached_State. simpl.
  destruct (decide (s < length (heapS g))) as [Hlt|Hge].
  - by rewrite lookup_app_l.
  - rewrite (lookup_ge_None_2 (heapS g)) by lia.
    destruct (decide (s = length (heapS g))) as [->|Hne].
    + by rewrite snoc_lookup_last.
    + rewrite lookup_ge_None_2; [done|]. rewrite length_app. simpl. lia.
Qed.

Lemma subscriptions_attached_Modifier (e : nat) k el tpl g (m : nat) :
  subscriptions (with_attached_Modifier e k el tpl g) m = subscriptions g m.
Proof.
  unfold subscriptions, with_attached_Modifier. simpl.
  destruct (decide (m < length (heapM g))) as [Hlt|Hge].
  - by rewrite lookup_app_l.
  - rewrite (lookup_ge_None_2 (heapM g)) by lia.
    destruct (decide (m = length (heapM g))) as [->|Hne].
    + by rewrite snoc_lookup_last.
    + rewrite lookup_ge_None_2; [done|]. rewrite length_app. simpl. lia.
Qed.

Lemma subscribers_subscription (m s : nat) st md g (s' : nat) :
  heapS g !! s = Some st →
  subscribers (with_subscription m s st md g) s'
  = if decide (s' = s) then subscribers g s ++ [m] else subscribers g s'.
Proof.
  intros Hst. unfold subscribers, with_subscription. simpl.
  assert (Hlt : s < length (heapS g)) by by eapply lookup_lt_Some.
  case_decide as Heq.
  - subst s'. rewrite list_lookup_insert_eq by done. by rewrite Hst.
  - by rewrite list_lookup_insert_ne.
Qed.

Lemma subscriptions_subscription (m s : nat) st md g (m' : nat) :
  heapM g !! m = Some md →
  subscriptions (with_subscription m s st md g) m'
  = if decide (m' = m) then subscriptions g m ++ [s] else subscriptions g m'.
Proof.
  intros Hmd. unfold subscriptions, with_subscription. simpl.
  assert (Hlt : m < length (heapM g)) by by eapply lookup_lt_Some.
  case_decide as Heq.
  - subst m'. rewrite list_lookup_insert_eq by done. by rewrite Hmd.
  - by rewrite list_lookup_insert_ne.
Qed.

(** ** Every instance belongs to an Element *)



(** ** No instance is attached twice *)

Lemma attached_once_closed : step_closed (attached_once (Host:=Host) (World:=World)).
Proof.
  split.
  - intros g name cb _ H. exact H.
  - intros g name cb _ H. exact H.
  - intros g cb _ H. exact H.
  - intros g h _ H _ _ e el Hel. simpl in Hel.
    apply lookup_snoc_Some in Hel as [[_ Hel]|[_ <-]]; [by apply (H e)|].
    simpl. split; apply NoDup_nil_2.
  - intros g h _ H e el Hel. simpl in Hel.
    apply lookup_snoc_Some in Hel as [[_ Hel]|[_ <-]]; [by apply (H e)|].
    simpl. split; apply NoDup_nil_2.
  - intros g e k el tpl Hwf H Hel _ _ _ e' el' Hel'. simpl in Hel'.
    apply list_lookup_insert_Some in Hel' as [(<- & <- & _)|[_ Hel']];
      [|by apply (H e')].
    simpl. destruct (H _ _ Hel) as [HS HM]. split; [|done].
    rewrite fmap_app. apply NoDup_app. split; [done|]. split; [|apply NoDup_singleton].
    intros s Hs Hs'. simpl in Hs'. apply list_elem_of_singleton in Hs' as ->.
    apply list_elem_of_fmap in Hs as [[k' s'] [Heq Hin]]. simpl in Heq. subst s'.
    destruct (wf_states _ Hwf _ _ _ _ Hel Hin) as [(st & Hst & _) _].
    apply lookup_lt_Some in Hst. lia.
  - intros g e k el tpl Hwf H Hel _ _ _ e' el' Hel'. simpl in Hel'.
    apply list_lookup_insert_Some in Hel' as [(<- & <- & _)|[_ Hel']];
      [|by apply (H e')].
    simpl. destruct (H _ _ Hel) as [HS HM]. split; [done|].
    rewrite fmap_app. apply NoDup_app. split; [done|]. split; [|apply NoDup_singleton].
    intros m Hm Hm'. simpl in Hm'. apply list_elem_of_singleton in Hm' as ->.
    apply list_elem_of_fmap in Hm as [[k' m'] [Heq Hin]]. simpl in Heq. subst m'.
    destruct (wf_modifiers _ Hwf _ _ _ _ Hel Hin) as [(md & Hmd & _) _].
    apply lookup_lt_Some in Hmd. lia.
  - intros g m s st md _ H _ _. exact H.
Qed.

Lemma NoDup_snd_key {A} (l : list (string * A)) k1 k2 v :
  NoDup l.*2 → (k1, v) ∈ l → (k2, v) ∈ l → k1 = k2.
Proof.
  induction l as [|[k0 v0] l IH]; simpl; intros Hnd H1 H2.
  - by apply elem_of_nil in H1.
  - apply NoDup_cons in Hnd as [Hv Hnd].
    apply elem_of_cons in H1 as [H1|H1]; apply elem_of_cons in H2 as [H2|H2].
    + congruence.
    + destruct Hv. apply list_elem_of_fmap. exists (k2, v).
      split; [simpl; congruence | done].
    + destruct Hv. apply list_elem_of_fmap. exists (k1, v).
      split; [simpl; congruence | done].
    + by apply IH.
Qed.

(** ** No name of Object.prototype is attached *)

Lemma attached_names_plain_closed :
  step_closed (attached_names_plain (Host:=Host) (World:=World)).
Proof.
  split.
  - intros g name cb _ H. exact H.
  - intros g name cb _ H. exact H.
  - intros g cb _ H. exact H.
  - intros g h _ H _ _ e el Hel. simpl in Hel.
    apply lookup_snoc_Some in Hel as [[_ Hel]|[_ <-]]; [by apply (H e)|].
    simpl. split; intros k x Hin; by apply elem_of_nil in Hin.
  - intros g h _ H e el Hel. simpl in Hel.
    apply lookup_snoc_Some in Hel as [[_ Hel]|[_ <-]]; [by apply (H e)|].
    simpl. split; intros k x Hin; by apply elem_of_nil in Hin.
  - intros g e k el tpl _ H Hel _ _ Hi e' el' Hel'. simpl in Hel'.
    apply list_lookup_insert_Some in Hel' as [(<- & <- & _)|[_ Hel']];
      [|by apply (H e')].
    simpl. destruct (H _ _ Hel) as [HS HM]. split; [|done].
    intros k' s Hin. apply elem_of_app in Hin as [Hin|Hin]; [by eapply HS|].
    by apply list_elem_of_singleton in Hin as [= -> ->].
  - intros g e k el tpl _ H Hel _ _ Hi e' el' Hel'. simpl in Hel'.
    apply list_lookup_insert_Some in Hel' as [(<- & <- & _)|[_ Hel']];
      [|by apply (H e')].
    simpl. destruct (H _ _ Hel) as [HS HM]. split; [done|].
    intros k' m Hin. apply elem_of_app in Hin as [Hin|Hin]; [by eapply HM|].
    by apply list_elem_of_singleton in Hin as [= -> ->].
  - intros g m s st md _ H _ _. exact H.
Qed.

(** ** The registry never lists the prototype link *)

Lemma proto_unlisted_closed :
  step_closed (λ g : Engine Host World, elements g !! "__proto__" = None).
Proof.
  split; try (intros; assumption).
  intros g h _ H _ Hk. simpl. by rewrite lookup_insert_ne.
Qed.

(** ** The registry is injective *)

Lemma registry_injective_closed :
  step_closed (registry_injective (Host:=Host) (World:=World)).
Proof.
  split.
  - intros g name cb _ H. exact H.
  - intros g name cb _ H. exact H.
  - intros g cb _ H. exact H.
  - intros g h Hwf H _ _ k1 k2 e. simpl. rewrite !lookup_insert.
    repeat case_decide; subst.
    + done.
    + intros [= <-] H2. destruct (wf_registry _ Hwf _ _ H2) as [el Hel].
      apply lookup_lt_Some in Hel. lia.
    + intros H1 [= <-]. destruct (wf_registry _ Hwf _ _ H1) as [el Hel].
      apply lookup_lt_Some in Hel. lia.
    + apply H.
  - intros g h _ H. exact H.
  - intros g e k el tpl _ H _ _ _ _. exact H.
  - intros g e k el tpl _ H _ _ _ _. exact H.
  - intros g m s st md _ H _ _. exact H.
Qed.

(** ** Both ends of an edge agree *)

Lemma count_occ_snoc (l : list nat) (x y : nat) :
  count_occ Nat.eq_dec (l ++ [x]) y
  = count_occ Nat.eq_dec l y + (if decide (x = y) then 1 else 0).
Proof.
  rewrite count_occ_app. simpl.
  destruct (Nat.eq_dec x y); case_decide; done.
Qed.

Lemma edges_agree_closed : step_closed (edges_agree (Host:=Host) (World:=World)).
Proof.
  split.
  - intros g name cb _ H. exact H.
  - intros g name cb _ H. exact H.
  - intros g cb _ H. exact H.
  - intros g h _ H _ _. exact H.
  - intros g h _ H. exact H.
  - intros g e k el tpl _ H _ _ _ _ s m.
    rewrite subscribers_attached_State. apply H.
  - intros g e k el tpl _ H _ _ _ _ s m.
    rewrite subscriptions_attached_Modifier. apply H.
  - intros g m s st md _ H Hst Hmd s' m'.
    rewrite (subscribers_subscription _ _ _ _ _ _ Hst).
    rewrite (subscriptions_subscription _ _ _ _ _ _ Hmd).
    destruct (decide (s' = s)) as [->|Hs]; destruct (decide (m' = m)) as [->|Hm];
      rewrite ?count_occ_snoc, ?H; repeat case_decide; try done; congruence.
Qed.

(** ** Lists only grow, names stay registered *)

Lemma lists_grow_refl g : lists_grow g g.
Proof. by split. Qed.

Lemma lists_grow_closed g0 : step_closed (lists_grow g0).
Proof.
  split.
  - intros g name cb _ H. exact H.
  - intros g name cb _ H. exact H.
  - intros g cb _ H. exact H.
  - intros g h _ H _ _. exact H.
  - intros g h _ H. exact H.
  - intros g e k el tpl _ [HS HM] _ _ _ _. split; [|exact HM].
    intros s. rewrite subscribers_attached_State. apply HS.
  - intros g e k el tpl _ [HS HM] _ _ _ _. split; [exact HS|].
    intros m. rewrite subscriptions_attached_Modifier. apply HM.
  - intros g m s st md _ [HS HM] Hst Hmd. split.
    + intros s'. rewrite (subscribers_subscription _ _ _ _ _ _ Hst).
      case_decide as Heq; [|apply HS]. subst s'.
      etrans; [apply HS | by apply prefix_app_r].
    + intros m'. rewrite (subscriptions_subscription _ _ _ _ _ _ Hmd).
      case_decide as Heq; [|apply HM]. subst m'.
      etrans; [apply HM | by apply prefix_app_r].
Qed.

Lemma templates_kept_closed g0 :
  step_closed (λ g,
    (∀ name, is_Some (statesContainer g0 !! name) →
             is_Some (statesContainer g !! name))
    ∧ (∀ name, is_Some (modifiersContainer g0 !! name) →
               is_Some (modifiersContainer g !! name))).
Proof.
  split; try (intros; assumption).
  - intros g name cb _ [HS HM]. split; [|exact HM].
    intros n Hn. simpl. rewrite lookup_insert. case_decide; [by eexists | by apply HS].
  - intros g name cb _ [HS HM]. split; [exact HS|].
    intros n Hn. simpl. rewrite lookup_insert. case_decide; [by eexists | by apply HM].
Qed.

End GraphInvariants.

(** * Properties of the graph that setup builds *)

Section GraphProperties.

Context {Host World : Type}.
Implicit Types (g : Engine Host World) (h : Host) (k : string).

(** X1.  In an engine built by the public operations an instance is
    attached in one place only: if [getState] finds the same State for
    two Elements and names, these are one Element and one name; likewise
    for Modifiers.  Two Elements that use the same state name therefore
    hold two States. *)
Theorem instance_attached_in_one_place g (e1 e2 : nat) el1 el2 :
  reachable g →
  heapE g !! e1 = Some el1 → heapE g !! e2 = Some el2 →
  (∀ k1 k2 s, Js.get k1 (Element_states el1) = Some s →
              Js.get k2 (Element_states el2) = Some s → e1 = e2 ∧ k1 = k2)
  ∧ (∀ k1 k2 m, Js.get k1 (Element_modifiers el1) = Some m →
                Js.get k2 (Element_modifiers el2) = Some m → e1 = e2 ∧ k1 = k2).
Proof.
  intros Hreach Hel1 Hel2.
  pose proof (reachable_keeps _ attached_once_closed g) as Honce.
  assert (Hinit : ∀ key : Host → string, attached_once (init (World:=World) key)).
  { intros key e el H. simpl in H. by rewrite lookup_nil in H. }
  specialize (Honce Hinit Hreach). apply reachable_wf in Hreach. split.
  - intros k1 k2 s H1 H2.
    apply Js_get_Some_elem in H1, H2.
    destruct (wf_states _ Hreach _ _ _ _ Hel1 H1) as [(st1 & Hst1 & Hb1) _].
    destruct (wf_states _ Hreach _ _ _ _ Hel2 H2) as [(st2 & Hst2 & Hb2) _].
    assert (e1 = e2) as <- by congruence. split; [done|].
    assert (el2 = el1) as -> by congruence.
    destruct (Honce _ _ Hel1) as [Hnd _]. by eapply NoDup_snd_key.
  - intros k1 k2 m H1 H2.
    apply Js_get_Some_elem in H1, H2.
    destruct (wf_modifiers _ Hreach _ _ _ _ Hel1 H1) as [(md1 & Hmd1 & Hb1) _].
    destruct (wf_modifiers _ Hreach _ _ _ _ Hel2 H2) as [(md2 & Hmd2 & Hb2) _].
    assert (e1 = e2) as <- by congruence. split; [done|].
    assert (el2 = el1) as -> by congruence.
    destruct (Honce _ _ Hel1) as [_ Hnd]. by eapply NoDup_snd_key.
Qed.

(** X2.  In an engine built by the public operations two different keys
    of the registry never name the same Element. *)
Theorem distinct_keys_distinct_Elements g k1 k2 (e1 e2 : nat) :
  reachable g →
  elements g !! k1 = Some e1 → elements g !! k2 = Some e2 →
  k1 ≠ k2 → e1 ≠ e2.
Proof.
  intros Hreach H1 H2 Hne Heq. subst e2. apply Hne.
  assert (Hinj : registry_injective g).
  { apply (reachable_keeps _ registry_injective_closed); [|done].
    intros key k k' e H. simpl in H. by rewrite lookup_empty in H. }
  by eapply Hinj.
Qed.

(** X3.  In an engine built by the public operations every edge has
    both ends: a Modifier occurs in the subscriber list of a State as
    often as the State occurs in the subscription list of the Modifier.
    In particular the Modifier is a subscriber of the State exactly when
    the State is a subscription of the Modifier. *)
Theorem subscription_edges_have_both_ends g :
  reachable g →
  ∀ s m : nat,
    count_occ Nat.eq_dec (subscribers g s) m
    = count_occ Nat.eq_dec (subscriptions g m) s
    ∧ (m ∈ subscribers g s ↔ s ∈ subscriptions g m).
Proof.
  intros Hreach s m.
  assert (Hedges : edges_agree g).
  { apply (reachable_keeps _ edges_agree_closed); [|done].
    intros key s' m'. reflexivity. }
  split; [apply Hedges|].
  rewrite !list_elem_of_In, !(count_occ_In Nat.eq_dec), (Hedges s m). done.
Qed.

(** X4.  Public operations never take anything away.  After any further
    operations, failed ones included, every registry entry, Element,
    attachment and callback of a reachable engine is still there, every
    registered name is still registered, and every subscriber list and
    subscription list has only been appended to. *)
Theorem setup_never_removes g (ops : list (Op Host World)) :
  reachable g →
  extends g (after ops g)
  ∧ lists_grow g (after ops g)
  ∧ (∀ name, is_Some (statesContainer g !! name) →
             is_Some (statesContainer (after ops g) !! name))
  ∧ (∀ name, is_Some (modifiersContainer g !! name) →
             is_Some (modifiersContainer (after ops g) !! name)).
Proof.
  intros Hreach. apply reachable_wf in Hreach. split_and!.
  - by apply extends_after.
  - apply (after_keeps _ (lists_grow_closed g)); [done | apply lists_grow_refl].
  - by apply (after_keeps _ (templates_kept_closed g) ops g Hreach).
  - by apply (after_keeps _ (templates_kept_closed g) ops g Hreach).
Qed.

End GraphProperties.

(** * How createRelationship ends *)

Section Outcomes.

Context {Host World : Type}.
Implicit Types (g : Engine Host World) (h d t : Host) (k : string).

Lemma lists_resolve h g (x : nat) :
  subscribers (resolve h g).1 x = subscribers g x
  ∧ subscriptions (resolve h g).1 x = subscriptions g x.
Proof.
  destruct (resolve_cases h g)
    as [[_ Hq]|[(_ & _ & Hq)|[(_ & _ & e & _ & Hq)|(_ & _ & _ & Hq)]]];
    by rewrite Hq.
Qed.

Lemma lists_ensure_state (e : nat) k g (x : nat) :
  is_Some (heapE g !! e) →
  subscribers (ensure_state e k g).1 x = subscribers g x
  ∧ subscriptions (ensure_state e k g).1 x = subscriptions g x.
Proof.
  intros [el Hel]. destruct (read_attached k (Element_states el)) as [r|] eqn:Hr.
  - by rewrite (ensure_state_answered _ _ _ _ Hel) by by eexists.
  - destruct (statesContainer g !! k) as [tpl|] eqn:Ht.
    + rewrite (ensure_state_attach _ _ _ _ _ Hel Hr Ht). simpl.
      split; [apply subscribers_attached_State | done].
    + by rewrite (ensure_state_miss _ _ _ _ Hel Hr Ht).
Qed.

Lemma lists_ensure_modifier (e : nat) k g (x : nat) :
  is_Some (heapE g !! e) →
  subscribers (ensure_modifier e k g).1 x = subscribers g x
  ∧ subscriptions (ensure_modifier e k g).1 x = subscriptions g x.
Proof.
  intros [el Hel]. destruct (read_attached k (Element_modifiers el)) as [r|] eqn:Hr.
  - by rewrite (ensure_modifier_answered _ _ _ _ Hel) by by eexists.
  - destruct (modifiersContainer g !! k) as [tpl|] eqn:Ht.
    + rewrite (ensure_modifier_attach _ _ _ _ _ Hel Hr Ht). simpl.
      split; [done | apply subscriptions_attached_Modifier].
    + by rewrite (ensure_modifier_miss _ _ _ _ Hel Hr Ht).
Qed.

Lemma lists_attach_both d k t (m : string) g (x : nat) :
  wf g →
  subscribers (attach_both d k t m g).1 x = subscribers g x
  ∧ subscriptions (attach_both d k t m g).1 x = subscriptions g x.
Proof.
  intros Hwf. unfold attach_both.
  pose proof (lists_resolve d g x) as H1.
  destruct (resolve_spec d g Hwf)
    as (g1 & r1 & Hq1 & Hwf1 & _ & _ & _ & _ & _ & _ & Hpost1).
  rewrite Hq1 in H1. simpl in H1.
  destruct r1 as [eD|e1]; [|by rewrite (bind_throw _ _ _ _ _ Hq1)].
  destruct Hpost1 as (Hv1 & _). rewrite (bind_ok _ _ _ _ _ Hq1).
  pose proof (lists_ensure_state eD k g1 x Hv1) as H2.
  destruct (ensure_state_spec eD k g1 Hwf1 Hv1) as (g2 & r2 & Hq2 & Hwf2 & _).
  rewrite Hq2 in H2. simpl in H2.
  destruct H1 as [<- <-]. destruct H2 as [<- <-].
  destruct r2 as [[]|err]; [|by rewrite (bind_throw _ _ _ _ _ Hq2)].
  rewrite (bind_ok _ _ _ _ _ Hq2).
  pose proof (lists_resolve t g2 x) as H3.
  destruct (resolve_spec t g2 Hwf2)
    as (g3 & r3 & Hq3 & Hwf3 & _ & _ & _ & _ & _ & _ & Hpost3).
  rewrite Hq3 in H3. simpl in H3. destruct H3 as [<- <-].
  destruct r3 as [eT|e3]; [|by rewrite (bind_throw _ _ _ _ _ Hq3)].
  destruct Hpost3 as (Hv3 & _). rewrite (bind_ok _ _ _ _ _ Hq3).
  pose proof (lists_ensure_modifier eT m g3 x Hv3) as H4.
  destruct (ensure_modifier_spec eT m g3 Hwf3 Hv3) as (g4 & r4 & Hq4 & _).
  rewrite Hq4 in H4. simpl in H4. destruct H4 as [<- <-].
  destruct r4 as [[]|err]; [|by rewrite (bind_throw _ _ _ _ _ Hq4)].
  by rewrite (bind_ok _ _ _ _ _ Hq4).
Qed.

(** Whatever makes createRelationship throw, it throws before line 255. *)
Lemma createRelationship_failed_lists d k t (m : string) (i : bool) g err :
  wf g →
  (createRelationship d k t m i g).2 = Throw err →
  ∀ x : nat,
    subscribers (createRelationship d k t m i g).1 x = subscribers g x
    ∧ subscriptions (createRelationship d k t m i g).1 x = subscriptions g x.
Proof.
  intros Hwf Hthrow x.
  pose proof (lists_attach_both d k t m g x Hwf) as HL.
  destruct (attach_both_spec d k t m g Hwf)
    as (g1 & r1 & Hq1 & Hwf1 & _ & _ & _ & _ & Hpost1).
  rewrite Hq1 in HL. simpl in HL.
  unfold createRelationship in *.
  destruct r1 as [[eD eT]|e1]; [|by rewrite (bind_throw _ _ _ _ _ Hq1)].
  rewrite (bind_ok _ _ _ _ _ Hq1) in *.
  destruct Hpost1 as (_ & _ & elD & elT & HelD & HelT & _ & _).
  destruct (refusal (read_attached k (Element_states elD))
                    (read_attached m (Element_modifiers elT))) as [e2|] eqn:Hrf.
  { by rewrite (bind_throw _ _ _ _ _
                  (subscribe_named_refused eD k eT m g1 elD elT e2 HelD HelT Hrf)). }
  apply refusal_None in Hrf as (s & mref & Hs & Hm).
  apply read_attached_Inst in Hs, Hm.
  destruct (subscribe_named_spec eD k eT m g1 elD elT s mref Hwf1 HelD Hs HelT Hm)
    as (g2 & Hq2 & Hwf2 & _ & Hsame & _).
  rewrite (bind_ok _ _ _ _ _ Hq2) in Hthrow.
  destruct i; [|discriminate Hthrow].
  assert (HelD2 : heapE g2 !! eD = Some elD) by by rewrite (same_heapE _ _ Hsame).
  assert (Hmref : is_Some (heapM g2 !! mref)).
  { destruct (wf_modifiers _ Hwf1 _ _ _ _ HelT (Js_get_Some_elem _ _ _ Hm))
      as [(md & Hmd & _) _].
    apply lookup_lt_is_Some. rewrite (same_heapM _ _ Hsame).
    apply lookup_lt_is_Some. by eexists. }
  pose proof (inherit_spec eD m mref g2 elD Hwf2 HelD2 Hmref) as Hin.
  destruct (Js.get m (Element_modifiers elD)) as [up|].
  - destruct Hin as (g3 & Hq3 & _). rewrite Hq3 in Hthrow. discriminate Hthrow.
  - rewrite Hin in Hthrow. discriminate Hthrow.
Qed.

(** How the call ends when the registry can be searched and the two
    names are no members of Object.prototype. *)
Lemma createRelationship_outcome d k t (m : string) (i : bool) g :
  wf g →
  elements g !! "hasOwnProperty" = None → getElementKey g d ≠ "hasOwnProperty" →
  Js.inherited k = false → Js.inherited m = false →
  match (createRelationship d k t m i g).2 with
  | Ok _ =>
      is_Some (statesContainer g !! k) ∧ is_Some (modifiersContainer g !! m)
  | Throw err =>
      (statesContainer g !! k = None
       ∧ err = template_miss (State_element <$> statesContainer g !! "__proto__")
                             State_hasOwnProperty k)
      ∨ (is_Some (statesContainer g !! k)
         ∧ modifiersContainer g !! m = None
         ∧ err = template_miss
                   (Modifier_element <$> modifiersContainer g !! "__proto__")
                   Modifier_hasOwnProperty m)
  end.
Proof.
  intros Hwf Hs0 Hkd Hik Him.
  destruct (resolve_spec d g Hwf)
    as (g1 & r1 & Hq1 & Hwf1 & _ & Hk1 & Hsc1 & Hmc1 & _ & _ & Hpost1).
  destruct r1 as [eD|e1]; [|destruct Hpost1 as (_ & _ & [e0 He0]); congruence].
  destruct Hpost1 as (Hv1 & _).
  assert (Hs1 : elements g1 !! "hasOwnProperty" = None).
  { destruct (resolve_registry _ _ _ _ Hq1) as [_ Hframe]. by rewrite Hframe. }
  destruct (ensure_state_spec eD k g1 Hwf1 Hv1)
    as (g2 & r2 & Hq2 & Hwf2 & Hx2 & _ & He2 & Hsc2 & Hmc2 & _ & Hpost2).
  destruct r2 as [[]|err].
  2:{ destruct Hpost2 as (-> & Hnone & -> & _).
      assert (Hboth : attach_both d k t m g = (g1, Throw
                (template_miss (State_element <$> statesContainer g1 !! "__proto__")
                               State_hasOwnProperty k))).
      { unfold attach_both. rewrite (bind_ok _ _ _ _ _ Hq1).
        by rewrite (bind_throw _ _ _ _ _ Hq2). }
      unfold createRelationship. rewrite (bind_throw _ _ _ _ _ Hboth). simpl.
      left. by rewrite <- Hsc1. }
  destruct Hpost2 as (elD & HelD & Hans).
  destruct (answered_instance _ _ Hik Hans) as [s Hs].
  assert (Hreg : is_Some (statesContainer g !! k)).
  { destruct (wf_states _ Hwf2 _ _ _ _ HelD (Js_get_Some_elem _ _ _ Hs)) as [_ H].
    by rewrite Hsc2, Hsc1 in H. }
  destruct (resolve_spec t g2 Hwf2)
    as (g3 & r3 & Hq3 & Hwf3 & Hx3 & _ & Hsc3 & Hmc3 & _ & _ & Hpost3).
  destruct r3 as [eT|e3];
    [|destruct Hpost3 as (_ & _ & [e0 He0]); rewrite He2 in He0; congruence].
  destruct Hpost3 as (Hv3 & _).
  destruct (ensure_modifier_spec eT m g3 Hwf3 Hv3)
    as (g4 & r4 & Hq4 & Hwf4 & Hx4 & _ & _ & Hsc4 & Hmc4 & _ & Hpost4).
  destruct r4 as [[]|err].
  2:{ destruct Hpost4 as (-> & Hnone & -> & _).
      assert (Hboth : attach_both d k t m g = (g3, Throw
                (template_miss
                   (Modifier_element <$> modifiersContainer g3 !! "__proto__")
                   Modifier_hasOwnProperty m))).
      { unfold attach_both.
        rewrite (bind_ok _ _ _ _ _ Hq1), (bind_ok _ _ _ _ _ Hq2).
        rewrite (bind_ok _ _ _ _ _ Hq3). by rewrite (bind_throw _ _ _ _ _ Hq4). }
      unfold createRelationship. rewrite (bind_throw _ _ _ _ _ Hboth). simpl.
      right. split; [done|]. rewrite Hmc3, Hmc2, Hmc1 in *. done. }
  destruct Hpost4 as (elT & HelT & Hansm).
  destruct (answered_instance _ _ Him Hansm) as [mref Hm].
  assert (Hboth : attach_both d k t m g = (g4, Ok (eD, eT))).
  { unfold attach_both.
    rewrite (bind_ok _ _ _ _ _ Hq1), (bind_ok _ _ _ _ _ Hq2).
    rewrite (bind_ok _ _ _ _ _ Hq3). by rewrite (bind_ok _ _ _ _ _ Hq4). }
  destruct (extends_state_attached g2 g4 eD elD k s) as (elD' & HelD' & Hs');
    [by eapply extends_trans | done | done |].
  destruct (subscribe_named_spec eD k eT m g4 elD' elT s mref Hwf4 HelD' Hs' HelT Hm)
    as (g5 & Hq5 & Hwf5 & _ & Hsame & _).
  assert (Hok : (createRelationship d k t m i g).2 = Ok tt).
  { unfold createRelationship.
    rewrite (bind_ok _ _ _ _ _ Hboth), (bind_ok _ _ _ _ _ Hq5).
    destruct i; [|done].
    assert (HelD5 : heapE g5 !! eD = Some elD') by by rewrite (same_heapE _ _ Hsame).
    assert (Hmref : is_Some (heapM g5 !! mref)).
    { destruct (wf_modifiers _ Hwf4 _ _ _ _ HelT (Js_get_Some_elem _ _ _ Hm))
        as [(md & Hmd & _) _].
      apply lookup_lt_is_Some. rewrite (same_heapM _ _ Hsame).
      apply lookup_lt_is_Some. by eexists. }
    pose proof (inherit_spec eD m mref g5 elD' Hwf5 HelD5 Hmref) as Hin.
    destruct (Js.get m (Element_modifiers elD')) as [up|].
    - destruct Hin as (g6 & Hq6 & _). by rewrite Hq6.
    - by rewrite Hin. }
  rewrite Hok. split; [done|].
  destruct (wf_modifiers _ Hwf4 _ _ _ _ HelT (Js_get_Some_elem _ _ _ Hm)) as [_ H].
  by rewrite Hmc4, Hmc3, Hmc2, Hmc1 in H.
Qed.

(** X5.  Take an engine built by the public operations whose registry
    can be searched, a dependency host whose key is not
    "hasOwnProperty", and a state name and a modifier name to which
    nothing answers but a template or an attached instance.  Then
    createRelationship succeeds exactly when a template is registered
    under the state name and one under the modifier name.  Otherwise it
    throws UnknownTemplate, for the state name when that one is missing
    and else for the modifier name; it fails in no other way. *)
Theorem createRelationship_fails_only_for_a_missing_template
    g d k t (m : string) (i : bool) :
  reachable g →
  searchable g = true → getElementKey g d ≠ "hasOwnProperty" →
  plain_state_name k = true → plain_modifier_name m = true →
  match (createRelationship d k t m i g).2 with
  | Ok _ =>
      is_Some (statesContainer g !! k) ∧ is_Some (modifiersContainer g !! m)
  | Throw err =>
      (statesContainer g !! k = None ∧ err = UnknownTemplate k)
      ∨ (is_Some (statesContainer g !! k)
         ∧ modifiersContainer g !! m = None ∧ err = UnknownTemplate m)
  end.
Proof.
  intros Hreach Hs Hkd Hpk Hpm. apply reachable_wf in Hreach.
  apply searchable_true in Hs.
  apply plain_state_name_true in Hpk as [Hik Hmk].
  apply plain_modifier_name_true in Hpm as [Him Hmm].
  pose proof (createRelationship_outcome d k t m i g Hreach Hs Hkd Hik Him) as H.
  destruct ((createRelationship d k t m i g).2) as [|err]; [done|].
  rewrite !template_miss_plain in H by done. exact H.
Qed.

(** X6.  A createRelationship that throws has made no subscription: the
    subscriber list of every State and the subscription list of every
    Modifier are as they were before the call. *)
Theorem failed_createRelationship_subscribes_nothing
    g d k t (m : string) (i : bool) err :
  reachable g →
  (createRelationship d k t m i g).2 = Throw err →
  ∀ x : nat,
    subscribers (createRelationship d k t m i g).1 x = subscribers g x
    ∧ subscriptions (createRelationship d k t m i g).1 x = subscriptions g x.
Proof.
  intros Hreach Hthrow. apply reachable_wf in Hreach.
  by eapply createRelationship_failed_lists.
Qed.

Lemma bind_same {A B} (c : M Host World A) (f : A → M Host World B) g g' :
  c g = c g' → bind c f g = bind c f g'.
Proof. unfold bind. by intros ->. Qed.

(** X7.  Registering a template again replaces it for the instances made
    afterwards and changes no instance made before.  Take a state name
    and a modifier name that are no members of Object.prototype, a
    registry that can be searched, and a dependency host that is new to
    the registry, under a key that the registry stores.  After
    [addState k cb], a createRelationship for that host (whose modifier
    name is registered) succeeds and attaches to the new Element a State
    whose predicate is [cb]; every State that existed before keeps its
    predicate. *)
Theorem later_instance_uses_the_latest_template
    g d k t (m : string) (i : bool) (cb : Host → World → bool) :
  reachable g →
  searchable g = true → storable (getElementKey g d) = true →
  Js.inherited k = false → Js.inherited m = false →
  elements g !! getElementKey g d = None →
  is_Some (modifiersContainer g !! m) →
  ∃ g' s st,
    createRelationship d k t m i (addState k cb g).1 = (g', Ok tt)
    ∧ elements g' !! getElementKey g d = Some (length (heapE g))
    ∧ getState (length (heapE g)) k g' = (g', Ok (Some (Inst s)))
    ∧ heapS g' !! s = Some st ∧ State_callback st = cb
    ∧ ∀ s0 st0, heapS g !! s0 = Some st0 →
        ∃ st0', heapS g' !! s0 = Some st0'
                ∧ State_callback st0' = State_callback st0.
Proof.
  intros Hreach Hsrch Hstor Hik Him Hnew Hmod. apply reachable_wf in Hreach.
  apply searchable_true in Hsrch. apply storable_true in Hstor as [Hkd Hkd'].
  set (g0 := (addState k cb g).1).
  assert (Hwf0 : wf g0) by apply (wf_perform (OpAddState k cb) g Hreach).
  assert (Hnew0 : elements g0 !! getElementKey g0 d = None) by done.
  set (eD := length (heapE g)).
  set (g1 := with_new_Element d g0).
  assert (Hq1 : resolve d g0 = (g1, Ok eD)) by by apply (resolve_new d g0).
  assert (Hwf1 : wf g1) by by apply wf_resolve_new.
  assert (Hel1 : heapE g1 !! eD = Some (new_Element d)) by apply snoc_lookup_last.
  assert (Htpl : statesContainer g1 !! k = Some (new_State cb))
    by apply lookup_insert_eq.
  set (g2 := with_attached_State eD k (new_Element d) (new_State cb) g1).
  assert (Hq2 : ensure_state eD k g1 = (g2, Ok tt)).
  { apply (ensure_state_attach eD k g1 (new_Element d) (new_State cb));
      [done | by apply read_attached_none | done]. }
  assert (Hwf2 : wf g2) by by apply wf_ensure_state_attach.
  assert (HeD : eD < length (heapE g1)).
  { simpl. rewrite length_app. simpl. unfold eD. lia. }
  assert (Hreg2 : elements g2 !! getElementKey g2 d = Some eD)
    by apply lookup_insert_eq.
  assert (Hsrch2 : elements g2 !! "hasOwnProperty" = None).
  { simpl. by rewrite lookup_insert_ne. }
  assert (Hel2 : heapE g2 !! eD
                 = Some (mkElement d [(k, length (heapS g))] [])).
  { simpl. by rewrite list_lookup_insert_eq. }
  assert (Hget2 : Js.get k [(k, length (heapS g))] = Some (length (heapS g))).
  { simpl. by rewrite decide_True. }
  assert (Hst2 : heapS g2 !! length (heapS g) = Some (mkState (Some eD) cb []))
    by apply snoc_lookup_last.
  assert (Hsame : createRelationship d k t m i g0 = createRelationship d k t m i g2).
  { unfold createRelationship. apply bind_same. unfold attach_both.
    rewrite (bind_ok _ _ _ _ _ Hq1), (bind_ok _ _ _ _ _ Hq2).
    rewrite (bind_ok _ _ _ _ _ (resolve_found d g2 eD Hsrch2 Hkd Hreg2)).
    by rewrite (bind_ok _ _ _ _ _ (ensure_state_present _ _ _ _ _ Hel2 Hget2)). }
  pose proof (createRelationship_outcome d k t m i g2 Hwf2 Hsrch2 Hkd' Hik Him)
    as Hout.
  destruct (createRelationship_spec d k t m i g2 Hwf2)
    as (g' & r & Hq & Hwf' & Hx & _).
  rewrite Hq in Hout. simpl in Hout.
  destruct r as [[]|err].
  2:{ destruct Hout as [[Hnone _]|(_ & Hnone & _)].
      - simpl in Hnone. by rewrite lookup_insert_eq in Hnone.
      - simpl in Hnone. destruct Hmod as [? Hmod]. congruence. }
  destruct (extends_state_attached g2 g' eD _ k _ Hx Hel2 Hget2)
    as (elD' & HelD' & Hs').
  destruct (ext_heapS _ _ Hx _ _ Hst2) as (st & Hst & Hcb).
  exists g', (length (heapS g)), st. split_and!.
  - by rewrite <- Hq, <- Hsame.
  - apply (ext_elements _ _ Hx). exact Hreg2.
  - rewrite (getState_eq _ k g' elD' HelD'). by rewrite (read_attached_own _ _ _ Hs').
  - done.
  - done.
  - intros s0 st0 Hs0. apply (ext_heapS _ _ Hx). simpl.
    by apply lookup_app_l_Some.
Qed.

End Outcomes.

(** * How a change trigger ends *)

Section CascadeProperties.

Context {Host World : Type}.
Implicit Types (g : Engine Host World) (c : Cfg Host World) (w : World).









(** X10.  A relationship from an Element to itself whose State stays
    active loops for ever.  If the only State of the Element has the
    Element's own Modifier as its only subscriber, and the worlds in
    which the predicate holds are closed under the mutation, then in
    such a world the fan-out exhausts every recursion budget: the engine
    has no cycle guard. *)
Theorem self_relationship_never_returns
    g (E : nat) el name (s : nat) st (m : nat) md (P : World → Prop) :
  heapE g !! E = Some el → Element_states el = [(name, s)] →
  heapS g !! s = Some st → State_element st = Some E →
  State_modifiers st = [m] →
  heapM g !! m = Some md → Modifier_element md = Some E →
  (∀ w, P w → State_callback st (Element_host el) w = true
              ∧ P (Modifier_callback md (Element_host el) w)) →
  ∀ fuel c, P c.1 → modifyDependents fuel g E c = OutOfFuel.
Proof.
  intros HE HEs Hst Hse Hsm Hmd Hme HP fuel.
  induction fuel as [|fuel IH]; intros c Hc; [done|].
  destruct (HP _ Hc) as [Hact Hnext].
  rewrite (fanout_single _ _ _ _ _ _ _ _ HE HEs Hst Hse), Hact.
  rewrite (publish_single _ _ _ _ _ _ Hst Hsm).
  rewrite (execute_eq _ _ _ _ _ _ _ Hmd Hme HE).
  by apply IH.
Qed.


Lemma mutations_app (tr tr' : list (Event Host)) :
  mutations (tr ++ tr') = mutations tr ++ mutations tr'.
Proof. unfold mutations. apply omap_app. Qed.

Lemma execute_all_quiet fuel g (ms : list nat) w tr :
  forallb (quiet g) ms = true →
  ∃ tr', for_each (execute (S fuel) g) ms (w, tr)
         = Done (foldl (mutate g) w ms, tr')
    ∧ mutations tr'
      = mutations tr ++ omap (λ m, pair m <$> Modifier_host g m) ms.
Proof.
  revert w tr. induction ms as [|m ms IH]; intros w tr Hq; simpl.
  - exists tr. by rewrite app_nil_r.
  - simpl in Hq. apply andb_prop in Hq as [Hm Hms].
    unfold quiet, Modifier_owner in Hm.
    destruct (heapM g !! m) as [md|] eqn:Hmd; [|done].
    destruct (Modifier_element md) as [e|] eqn:He; [|done].
    destruct (heapE g !! e) as [el|] eqn:Hel; [|done].
    destruct (Element_states el) eqn:Hst; [|done].
    rewrite (execute_eq _ _ _ _ _ _ _ Hmd He Hel).
    rewrite (fanout_quiet _ _ _ _ _ Hel Hst). simpl.
    assert (Hmut : mutate g w m = Modifier_callback md (Element_host el) w).
    { unfold mutate, Modifier_host, Modifier_owner. by rewrite Hmd, He, Hel. }
    assert (Hhost : Modifier_host g m = Some (Element_host el)).
    { unfold Modifier_host, Modifier_owner. by rewrite Hmd, He, Hel. }
    rewrite Hmut, Hhost. simpl.
    destruct (IH (Modifier_callback md (Element_host el) w)
                 ((tr ++ [EvMutate m (Element_host el)]) ++ [EvFanOut e]) Hms)
      as (tr' & Hrun & Htr').
    exists tr'. split; [done|]. rewrite Htr', !mutations_app. simpl.
    by rewrite app_nil_r, <- app_assoc.
Qed.

(** X12.  [publish] runs the subscribers in subscription order, one
    execution per entry of the list.  When the Element of every
    subscriber holds no State, publishing a State applies the mutations
    of its subscribers to the world from first to last and runs nothing
    else; a Modifier that is subscribed twice is executed twice. *)
Theorem publish_runs_subscribers_in_order g (s : nat) st fuel w tr :
  heapS g !! s = Some st →
  forallb (quiet g) (State_modifiers st) = true →
  ∃ tr', publish (S fuel) g s (w, tr)
         = Done (foldl (mutate g) w (State_modifiers st), tr')
    ∧ mutations tr'
      = mutations tr
        ++ omap (λ m, pair m <$> Modifier_host g m) (State_modifiers st).
Proof.
  intros Hst Hq. rewrite (publish_eq _ _ _ _ _ Hst). simpl.
  destruct (execute_all_quiet fuel g (State_modifiers st) w
              (tr ++ [EvPublish s]) Hq) as (tr' & Hrun & Htr').
  exists tr'. split; [done|]. rewrite Htr', mutations_app. simpl.
  by rewrite app_nil_r.
Qed.

End CascadeProperties.

(** * What one call touches *)

Section Footprint.

Context {Host World : Type}.
Implicit Types (g : Engine Host World) (h d t : Host) (k : string).

(** X13.  An Element stays bound to the host reference it was first
    resolved with.  Let the key of that reference be other than
    "__proto__".  After any public operations that leave a registry that
    can be searched, resolving another host reference that maps to the
    same key returns that Element, and its host is still the first
    reference: the later one is not stored. *)
Theorem Element_keeps_its_first_host g h1 h2 (ops : list (Op Host World)) :
  reachable g →
  getElementKey g h1 ≠ "__proto__" →
  searchable (after ops (resolve h1 g).1) = true →
  elements g !! getElementKey g h1 = None →
  getElementKey (after ops (resolve h1 g).1) h2 = getElementKey g h1 →
  ∃ e el,
    resolve h2 (after ops (resolve h1 g).1) = (after ops (resolve h1 g).1, Ok e)
    ∧ heapE (after ops (resolve h1 g).1) !! e = Some el
    ∧ Element_host el = h1.
Proof.
  intros Hreach Hk Hs2 Hnew Hkey. apply reachable_wf in Hreach.
  assert (Hs0 : elements g !! "hasOwnProperty" = None).
  { destruct (elements g !! "hasOwnProperty") as [e0|] eqn:He0; [|done].
    rewrite (resolve_poisoned _ _ _ He0) in Hs2. simpl in Hs2.
    apply searchable_true in Hs2.
    apply (ext_elements _ _ (extends_after ops g Hreach)) in He0. congruence. }
  rewrite (resolve_new _ _ Hs0 Hk Hnew) in *. simpl in *.
  assert (Hwf1 : wf (with_new_Element h1 g)) by by apply wf_resolve_new.
  pose proof (extends_after ops _ Hwf1) as Hx.
  apply searchable_true in Hs2.
  assert (Hreg : elements (with_new_Element h1 g) !! getElementKey g h1
                 = Some (length (heapE g))) by apply lookup_insert_eq.
  assert (Hel : heapE (with_new_Element h1 g) !! length (heapE g)
                = Some (new_Element h1)) by apply snoc_lookup_last.
  destruct (ext_heapE _ _ Hx _ _ Hel) as (el & Hel' & Hhost & _).
  exists (length (heapE g)), el. split_and!; [|done|done].
  apply resolve_found; [done | by rewrite Hkey |].
  rewrite Hkey. by apply (ext_elements _ _ Hx).
Qed.

(** X14.  A successful createRelationship touches the subscriptions of
    one Modifier only, the one attached to the dependent Element under
    the modifier name.  The subscription list of every other Modifier is
    unchanged, also that of the upstream Modifier it inherits from; and
    whatever a subscriber list of a State gains is copies of the
    dependent's Modifier.  The dependent Element is the one the registry
    lists for the dependent host, unless the key of that host is
    "__proto__". *)
Theorem createRelationship_subscribes_only_the_dependent
    g d k t (m : string) (i : bool) g' :
  reachable g →
  createRelationship d k t m i g = (g', Ok tt) →
  ∃ eT elT mref,
    (getElementKey g t ≠ "__proto__" → elements g' !! getElementKey g t = Some eT)
    ∧ heapE g' !! eT = Some elT
    ∧ Js.get m (Element_modifiers elT) = Some mref
    ∧ (∀ m', m' ≠ mref → subscriptions g' m' = subscriptions g m')
    ∧ (∀ s', ∃ n, subscribers g' s' = subscribers g s' ++ replicate n mref).
Proof.
  intros Hreach Hcall. apply reachable_wf in Hreach.
  pose proof (λ x, lists_attach_both d k t m g x Hreach) as HL.
  destruct (attach_both_spec d k t m g Hreach)
    as (g1 & r1 & Hq1 & Hwf1 & _ & _ & _ & _ & Hpost1).
  rewrite Hq1 in HL. simpl in HL.
  unfold createRelationship in Hcall.
  destruct r1 as [[eD eT]|err];
    [|by rewrite (bind_throw _ _ _ _ _ Hq1) in Hcall].
  rewrite (bind_ok _ _ _ _ _ Hq1) in Hcall.
  destruct Hpost1 as (_ & HT & elD & elT & HelD & HelT & _ & _).
  destruct (refusal (read_attached k (Element_states elD))
                    (read_attached m (Element_modifiers elT))) as [e2|] eqn:Hrf.
  { by rewrite (bind_throw _ _ _ _ _
                  (subscribe_named_refused eD k eT m g1 elD elT e2 HelD HelT Hrf))
      in Hcall. }
  apply refusal_None in Hrf as (s & mref & Hs & Hm).
  apply read_attached_Inst in Hs, Hm.
  destruct (subscribe_named_spec eD k eT m g1 elD elT s mref Hwf1 HelD Hs HelT Hm)
    as (g2 & Hq2 & Hwf2 & _ & Hsame & _ & Hm2 & Hs2 & Hs2').
  rewrite (bind_ok _ _ _ _ _ Hq2) in Hcall.
  assert (Hsub2 : ∀ s', ∃ n, subscribers g2 s' = subscribers g s' ++ replicate n mref).
  { intros s'. destruct (decide (s' = s)) as [->|Hne].
    - exists 1. rewrite Hs2. by destruct (HL s) as [-> _].
    - exists 0. rewrite (Hs2' _ Hne), app_nil_r. by destruct (HL s') as [-> _]. }
  assert (Hoth2 : ∀ m', m' ≠ mref → subscriptions g2 m' = subscriptions g m').
  { intros m' Hne. rewrite (Hm2 _ Hne). by destruct (HL m') as [_ ->]. }
  destruct Hsame as [Sa Sb Sc Sd Se Sf Sg].
  assert (HelD2 : heapE g2 !! eD = Some elD) by by rewrite Se.
  assert (HelT2 : heapE g2 !! eT = Some elT) by by rewrite Se.
  assert (Hmref : is_Some (heapM g2 !! mref)).
  { destruct (wf_modifiers _ Hwf2 _ _ _ _ HelT2 (Js_get_Some_elem _ _ _ Hm))
      as [(md & Hmd & _) _]. by eexists. }
  pose proof (inherit_spec eD m mref g2 elD Hwf2 HelD2 Hmref) as Hin.
  destruct i; [destruct (Js.get m (Element_modifiers elD)) as [up|]|].
  - destruct Hin as (g3 & Hq3 & _ & _ & [Ta Tb Tc Td Te Tf Tg] & _ & Hm3 & Hs3).
    rewrite Hq3 in Hcall. injection Hcall as <-.
    exists eT, elT, mref. split_and!.
    + intros Hkt. rewrite Td, Sd. by apply HT.
    + by rewrite Te.
    + done.
    + intros m' Hne. rewrite (Hm3 _ Hne). by apply Hoth2.
    + intros s'. destruct (Hsub2 s') as [n Hn]. eexists (n + _).
      rewrite Hs3, Hn, <- app_assoc. f_equal. symmetry. apply replicate_add.
  - rewrite Hin in Hcall. injection Hcall as <-.
    exists eT, elT, mref. split_and!; try done. intros Hkt. rewrite Sd. by apply HT.
  - unfold ret in Hcall. injection Hcall as <-.
    exists eT, elT, mref. split_and!; try done. intros Hkt. rewrite Sd. by apply HT.
Qed.

End Footprint.

(** * Names that the prototype chain answers to *)

Section PrototypeNames.

Context {Host World : Type}.
Implicit Types (g : Engine Host World) (h d t : Host) (k : string).

Lemma attached_names_plain_reachable g : reachable g → attached_names_plain g.
Proof.
  apply (reachable_keeps _ attached_names_plain_closed).
  intros key e el H. simpl in H. by rewrite lookup_nil in H.
Qed.

Lemma read_attached_Member k (o : Js.Obj nat) n :
  read_attached k o = Some (Member n) → Js.inherited k = true.
Proof.
  unfold read_attached. destruct (Js.get k o); [done|].
  by destruct (Js.inherited k).
Qed.

Lemma refusal_answered k (m : string) (oS oM : Js.Obj nat) err :
  is_Some (read_attached k oS) → is_Some (read_attached m oM) →
  refusal (read_attached k oS) (read_attached m oM) = Some err →
  (Js.inherited m = true ∧ err = NotAFunction "subscribe")
  ∨ (Js.inherited k = true ∧ err = NotAFunction "addModifier").
Proof.
  intros [p Hp] [s Hs]. rewrite Hp, Hs. unfold refusal.
  destruct s as [mref|n].
  - destruct p as [sref|n]; intros [= <-]. right.
    split; [by eapply read_attached_Member | done].
  - intros [= <-]. left. split; [by eapply read_attached_Member | done].
Qed.

Lemma attach_both_throw d k t (m : string) g g' err :
  wf g → attach_both d k t m g = (g', Throw err) →
  err = NotAFunction "hasOwnProperty"
  ∨ (Js.inherited k = false ∧ statesContainer g !! k = None
     ∧ err = template_miss (State_element <$> statesContainer g !! "__proto__")
                           State_hasOwnProperty k)
  ∨ (Js.inherited m = false ∧ modifiersContainer g !! m = None
     ∧ err = template_miss
               (Modifier_element <$> modifiersContainer g !! "__proto__")
               Modifier_hasOwnProperty m).
Proof.
  intros Hwf. unfold attach_both.
  destruct (resolve_spec d g Hwf)
    as (g1 & r1 & Hq1 & Hwf1 & _ & _ & Hsc1 & Hmc1 & _ & _ & Hpost1).
  destruct r1 as [eD|e1].
  2:{ rewrite (bind_throw _ _ _ _ _ Hq1). destruct Hpost1 as (_ & -> & _).
      intros [= _ <-]. by left. }
  rewrite (bind_ok _ _ _ _ _ Hq1). destruct Hpost1 as (Hv1 & _).
  destruct (ensure_state_spec eD k g1 Hwf1 Hv1)
    as (g2 & r2 & Hq2 & Hwf2 & _ & _ & _ & Hsc2 & Hmc2 & _ & Hpost2).
  destruct r2 as [[]|e2].
  2:{ rewrite (bind_throw _ _ _ _ _ Hq2). destruct Hpost2 as (_ & Hnone & -> & Hi).
      intros [= _ <-]. right. left. by rewrite <- Hsc1. }
  rewrite (bind_ok _ _ _ _ _ Hq2).
  destruct (resolve_spec t g2 Hwf2)
    as (g3 & r3 & Hq3 & Hwf3 & _ & _ & Hsc3 & Hmc3 & _ & _ & Hpost3).
  destruct r3 as [eT|e3].
  2:{ rewrite (bind_throw _ _ _ _ _ Hq3). destruct Hpost3 as (_ & -> & _).
      intros [= _ <-]. by left. }
  rewrite (bind_ok _ _ _ _ _ Hq3). destruct Hpost3 as (Hv3 & _).
  destruct (ensure_modifier_spec eT m g3 Hwf3 Hv3)
    as (g4 & r4 & Hq4 & Hwf4 & _ & _ & _ & Hsc4 & Hmc4 & _ & Hpost4).
  destruct r4 as [[]|e4].
  2:{ rewrite (bind_throw _ _ _ _ _ Hq4). destruct Hpost4 as (_ & Hnone & -> & Hi).
      intros [= _ <-]. right. right. rewrite Hmc3, Hmc2, Hmc1 in *. done. }
  rewrite (bind_ok _ _ _ _ _ Hq4). unfold ret. discriminate.
Qed.

(** Every way in which createRelationship ends with an exception. *)
Lemma createRelationship_throw_cases d k t (m : string) (i : bool) g err :
  wf g → (createRelationship d k t m i g).2 = Throw err →
  err = NotAFunction "hasOwnProperty"
  ∨ (Js.inherited k = false ∧ statesContainer g !! k = None
     ∧ err = template_miss (State_element <$> statesContainer g !! "__proto__")
                           State_hasOwnProperty k)
  ∨ (Js.inherited m = false ∧ modifiersContainer g !! m = None
     ∧ err = template_miss
               (Modifier_element <$> modifiersContainer g !! "__proto__")
               Modifier_hasOwnProperty m)
  ∨ (Js.inherited m = true ∧ err = NotAFunction "subscribe")
  ∨ (Js.inherited k = true ∧ err = NotAFunction "addModifier").
Proof.
  intros Hwf Hthrow.
  pose proof (attach_both_throw d k t m g) as Hattach.
  destruct (attach_both_spec d k t m g Hwf)
    as (g1 & r1 & Hq1 & Hwf1 & _ & _ & _ & _ & Hpost1).
  unfold createRelationship in Hthrow.
  destruct r1 as [[eD eT]|e1].
  2:{ rewrite (bind_throw _ _ _ _ _ Hq1) in Hthrow. injection Hthrow as <-.
      destruct (Hattach g1 e1 Hwf Hq1) as [H|[H|H]]; auto. }
  rewrite (bind_ok _ _ _ _ _ Hq1) in Hthrow.
  destruct Hpost1 as (_ & _ & elD & elT & HelD & HelT & HaS & HaM).
  destruct (refusal (read_attached k (Element_states elD))
                    (read_attached m (Element_modifiers elT))) as [e2|] eqn:Hrf.
  { rewrite (bind_throw _ _ _ _ _
               (subscribe_named_refused eD k eT m g1 elD elT e2 HelD HelT Hrf))
      in Hthrow. injection Hthrow as <-.
    destruct (refusal_answered _ _ _ _ _ HaS HaM Hrf); auto. }
  apply refusal_None in Hrf as (s & mref & Hs & Hm).
  apply read_attached_Inst in Hs, Hm.
  destruct (subscribe_named_spec eD k eT m g1 elD elT s mref Hwf1 HelD Hs HelT Hm)
    as (g2 & Hq2 & Hwf2 & _ & Hsame & _).
  rewrite (bind_ok _ _ _ _ _ Hq2) in Hthrow.
  destruct i; [|discriminate Hthrow].
  assert (HelD2 : heapE g2 !! eD = Some elD) by by rewrite (same_heapE _ _ Hsame).
  assert (Hmref : is_Some (heapM g2 !! mref)).
  { destruct (wf_modifiers _ Hwf1 _ _ _ _ HelT (Js_get_Some_elem _ _ _ Hm))
      as [(md & Hmd & _) _].
    apply lookup_lt_is_Some. rewrite (same_heapM _ _ Hsame).
    apply lookup_lt_is_Some. by eexists. }
  pose proof (inherit_spec eD m mref g2 elD Hwf2 HelD2 Hmref) as Hin.
  destruct (Js.get m (Element_modifiers elD)) as [up|].
  - destruct Hin as (g3 & Hq3 & _). rewrite Hq3 in Hthrow. discriminate Hthrow.
  - rewrite Hin in Hthrow. discriminate Hthrow.
Qed.

(** X19.  An Element stored under the key "hasOwnProperty" disables the
    registry for good: whatever public operations follow, every
    createRelationship throws at its first resolution, as the search
    calls the Element instead of the method, and leaves the engine as it
    is. *)
Theorem Element_under_hasOwnProperty_disables_the_registry
    g (ops : list (Op Host World)) d k t (m : string) (i : bool) :
  reachable g → searchable g = false →
  createRelationship d k t m i (after ops g)
  = (after ops g, Throw (NotAFunction "hasOwnProperty")).
Proof.
  intros Hreach Hs. apply reachable_wf in Hreach.
  unfold searchable in Hs. apply bool_decide_eq_false in Hs.
  destruct (elements g !! "hasOwnProperty") as [e0|] eqn:He0; [|done].
  apply (ext_elements _ _ (extends_after ops g Hreach)) in He0.
  assert (Hboth : attach_both d k t m (after ops g)
                  = (after ops g, Throw (NotAFunction "hasOwnProperty"))).
  { unfold attach_both.
    by rewrite (bind_throw _ _ _ _ _ (resolve_poisoned d _ _ He0)). }
  unfold createRelationship. by rewrite (bind_throw _ _ _ _ _ Hboth).
Qed.

(** X20.  A name that Object.prototype answers to ("toString",
    "constructor", "__proto__", ...) cannot be used.  In an engine built
    by the public operations no State and no Modifier is attached under
    such a name, and a createRelationship whose state name or modifier
    name is such a name never succeeds, whatever templates are
    registered. *)
Theorem prototype_names_are_never_attached g :
  reachable g →
  attached_names_plain g
  ∧ ∀ d k t (m : string) (i : bool),
      Js.inherited k = true ∨ Js.inherited m = true →
      (createRelationship d k t m i g).2 ≠ Ok tt.
Proof.
  intros Hreach. split; [by apply attached_names_plain_reachable|].
  intros d k t m i Hname Hok.
  pose proof (reachable_perform (OpCreateRelationship d k t m i) g Hreach) as Hreach'.
  apply attached_names_plain_reachable in Hreach'. simpl in Hreach'.
  apply reachable_wf in Hreach.
  destruct (createRelationship_spec d k t m i g Hreach)
    as (g' & r & Hq & _ & _ & _ & _ & _ & Hpost).
  rewrite Hq in Hok, Hreach'. simpl in Hok, Hreach'. subst r.
  destruct (Hpost eq_refl)
    as (eD & eT & elD & elT & s & mref & HelD & Hs & HelT & Hm & _).
  destruct (Hreach' _ _ HelD) as [HS _]. destruct (Hreach' _ _ HelT) as [_ HM].
  apply Js_get_Some_elem in Hs, Hm.
  specialize (HS _ _ Hs). specialize (HM _ _ Hm).
  destruct Hname; congruence.
Qed.

(** X22.  The registry never lists the key "__proto__".  In an engine
    built by the public operations nothing is stored under it, and while
    the registry can be searched every resolution of a host with that key
    builds a new Element, returns it, and leaves the registry as it
    was. *)
Theorem proto_key_is_resolved_anew_each_time g h :
  reachable g →
  elements g !! "__proto__" = None
  ∧ (searchable g = true → getElementKey g h = "__proto__" →
     resolve h g = (with_unlisted_Element h g, Ok (length (heapE g)))
     ∧ elements (with_unlisted_Element h g) = elements g
     ∧ heapE (with_unlisted_Element h g) = heapE g ++ [new_Element h]).
Proof.
  intros Hreach. split.
  - by apply (reachable_keeps _ proto_unlisted_closed).
  - intros Hs Hk. apply searchable_true in Hs. split; [|done].
    by apply resolve_unlisted.
Qed.

(** X21.  While no template is registered under "__proto__",
    createRelationship fails in five ways only.  It throws because the
    registry cannot be searched, or because no template is registered
    under the state name, or under the modifier name, or because the
    state name or the modifier name is answered by Object.prototype, so
    that [addModifier] or [subscribe] is called on what is no instance.
    In particular the call never builds an instance around a callback
    that is not a function. *)
Theorem createRelationship_fails_in_five_ways
    g d k t (m : string) (i : bool) err :
  reachable g →
  statesContainer g !! "__proto__" = None →
  modifiersContainer g !! "__proto__" = None →
  (createRelationship d k t m i g).2 = Throw err →
  err = NotAFunction "hasOwnProperty"
  ∨ (statesContainer g !! k = None ∧ err = UnknownTemplate k)
  ∨ (modifiersContainer g !! m = None ∧ err = UnknownTemplate m)
  ∨ (Js.inherited m = true ∧ err = NotAFunction "subscribe")
  ∨ (Js.inherited k = true ∧ err = NotAFunction "addModifier").
Proof.
  intros Hreach HpS HpM Hthrow. apply reachable_wf in Hreach.
  destruct (createRelationship_throw_cases d k t m i g err Hreach Hthrow)
    as [H|[(Hi & Hn & ->)|[(Hi & Hn & ->)|[H|H]]]]; auto.
  - right. left. split; [done|]. rewrite HpS. simpl. by rewrite Hi.
  - right. right. left. split; [done|]. rewrite HpM. simpl. by rewrite Hi.
Qed.

Lemma unregistered_modifier_perform (op : Op Host World) name g :
  wf g → registers_modifier name op = false → modifiersContainer g !! name = None →
  modifiersContainer (perform op g).1 !! name = None.
Proof.
  intros Hwf Hop Hnone. destruct op as [n cb|n cb|d k t m i|cb]; simpl; try done.
  - simpl in Hop. apply bool_decide_eq_false in Hop.
    by rewrite lookup_insert_ne.
  - destruct (createRelationship_spec d k t m i g Hwf)
      as (g' & r & Hq & _ & _ & _ & _ & Hmc & _).
    rewrite Hq. simpl. by rewrite Hmc.
Qed.

Lemma unregistered_modifier_after (ops : list (Op Host World)) name g :
  wf g → forallb (λ op, negb (registers_modifier name op)) ops = true →
  modifiersContainer g !! name = None →
  modifiersContainer (after ops g) !! name = None.
Proof.
  revert g. induction ops as [|op ops IH]; intros g Hwf Hops Hnone; [done|].
  simpl in Hops. apply andb_prop in Hops as [Hop Hops].
  apply negb_true_iff in Hop. simpl.
  apply IH; [by apply wf_perform | done | by apply unregistered_modifier_perform].
Qed.

(** X23.  A prototype is installed in a template container by a
    registration under "__proto__" and in no other way.  After any setup
    in which neither [addState] nor [addModifier] was given that name,
    neither container answers to it, and no createRelationship finds a
    value without a callback where it looks for a template: every
    instance is built around a callback that was registered. *)
Theorem prototype_is_installed_by_registration_only
    (key : Host → string) (ops : list (Op Host World)) :
  forallb (λ op, negb (registers_state "__proto__" op)) ops = true →
  forallb (λ op, negb (registers_modifier "__proto__" op)) ops = true →
  statesContainer (after ops (init key)) !! "__proto__" = None
  ∧ modifiersContainer (after ops (init key)) !! "__proto__" = None
  ∧ ∀ d k t (m : string) (i : bool) name,
      (createRelationship d k t m i (after ops (init key))).2
      ≠ Throw (UntypedCallback name).
Proof.
  intros HS HM.
  assert (HpS : statesContainer (after ops (init (World:=World) key)) !! "__proto__"
                = None).
  { apply unregistered_after; [apply wf_init | done | apply lookup_empty]. }
  assert (HpM : modifiersContainer (after ops (init (World:=World) key))
                  !! "__proto__" = None).
  { apply unregistered_modifier_after; [apply wf_init | done | apply lookup_empty]. }
  split; [done|]. split; [done|].
  intros d k t m i name Hthrow.
  assert (Hwf : wf (after ops (init (World:=World) key))) by apply wf_after, wf_init.
  destruct (createRelationship_throw_cases d k t m i _ _ Hwf Hthrow)
    as [H|[(Hi & _ & H)|[(Hi & _ & H)|[[_ H]|[_ H]]]]]; try discriminate H.
  - rewrite HpS in H. simpl in H. rewrite Hi in H. discriminate H.
  - rewrite HpM in H. simpl in H. rewrite Hi in H. discriminate H.
Qed.

End PrototypeNames.

(** * The further properties at work on the page *)

Module PageChecks.

Import Page.

Lemma doubled_reachable : reachable doubled.
Proof.
  exists by_id,
    (single_setup
       ++ [OpCreateRelationship "checkbox" "checked" "panel" "show" false]).
  vm_compute. reflexivity.
Qed.

Lemma looped_reachable : reachable looped.
Proof. exists by_id, looped_setup. reflexivity. Qed.

(** The checkbox and the panel of [chain] share no State: State 0, which
    the checkbox holds, is not the panel's. *)
Lemma instance_attached_in_one_place_witness :
  Js.get "checked" [("checked", 0)] = Some 0
  ∧ Js.get "visible" [("visible", 1)] ≠ Some 0.
Proof.
  split; [reflexivity|]. intros H.
  destruct (proj1 (instance_attached_in_one_place chain 0 1
                     (mkElement "checkbox" [("checked", 0)] [])
                     (mkElement "panel" [("visible", 1)] [("show", 0)])
                     PageFacts.chain_reachable eq_refl eq_refl)
                  "checked" "visible" 0 eq_refl H) as [Hsame _].
  discriminate Hsame.
Defined.

Lemma distinct_keys_distinct_Elements_witness :
  elements single !! "checkbox" = Some 0
  ∧ elements single !! "panel" = Some 1
  ∧ 0 ≠ 1.
Proof.
  split; [reflexivity|]. split; [reflexivity|].
  apply (distinct_keys_distinct_Elements single "checkbox" "panel" 0 1
           PageFacts.single_reachable eq_refl eq_refl).
  discriminate.
Defined.

(** After the relationship was set up twice, each end lists the other
    twice. *)
Lemma subscription_edges_have_both_ends_witness :
  count_occ Nat.eq_dec (subscribers doubled 0) 0 = 2
  ∧ count_occ Nat.eq_dec (subscriptions doubled 0) 0 = 2.
Proof.
  destruct (subscription_edges_have_both_ends doubled doubled_reachable 0 0)
    as [Hcount _].
  split; [reflexivity|]. rewrite <- Hcount. reflexivity.
Defined.

Lemma setup_never_removes_witness :
  extends single doubled ∧ lists_grow single doubled.
Proof.
  destruct (setup_never_removes single
              [OpCreateRelationship "checkbox" "checked" "panel" "show" false]
              PageFacts.single_reachable) as (Hx & Hgrow & _).
  split; [exact Hx | exact Hgrow].
Defined.

Lemma hide_call_result :
  (createRelationship "checkbox" "checked" "panel" "hide" false single).2
  = Throw (UnknownTemplate "hide").
Proof. vm_compute. reflexivity. Qed.

Lemma createRelationship_fails_only_for_a_missing_template_witness :
  (statesContainer single !! "checked" = None
   ∧ UnknownTemplate "hide" = UnknownTemplate "checked")
  ∨ (is_Some (statesContainer single !! "checked")
     ∧ modifiersContainer single !! "hide" = None
     ∧ UnknownTemplate "hide" = UnknownTemplate "hide").
Proof.
  assert (Hkd : getElementKey single "checkbox" ≠ "hasOwnProperty")
    by (vm_compute; discriminate).
  pose proof (createRelationship_fails_only_for_a_missing_template single
                "checkbox" "checked" "panel" "hide" false
                PageFacts.single_reachable PageFacts.single_searchable Hkd
                eq_refl eq_refl) as H.
  rewrite hide_call_result in H. exact H.
Defined.

Lemma failed_createRelationship_subscribes_nothing_witness :
  subscribers
    (createRelationship "checkbox" "checked" "panel" "hide" false single).1 0
  = subscribers single 0.
Proof.
  exact (proj1 (failed_createRelationship_subscribes_nothing single
                  "checkbox" "checked" "panel" "hide" false
                  (UnknownTemplate "hide")
                  PageFacts.single_reachable hide_call_result 0)).
Defined.

(** The template "checked" is registered again, now as "the door is
    open"; the door gets a State with the new predicate, the checkbox
    keeps the old one. *)
Lemma later_instance_uses_the_latest_template_witness :
  ∃ g' s st,
    createRelationship "door" "checked" "panel" "show" false
      (addState "checked" (flag "open") single).1 = (g', Ok tt)
    ∧ getState 2 "checked" g' = (g', Ok (Some (Inst s)))
    ∧ heapS g' !! s = Some st ∧ State_callback st = flag "open"
    ∧ ∃ st0, heapS g' !! 0 = Some st0 ∧ State_callback st0 = flag "checked".
Proof.
  destruct (later_instance_uses_the_latest_template single
              "door" "checked" "panel" "show" false (flag "open")
              PageFacts.single_reachable PageFacts.single_searchable
              eq_refl eq_refl eq_refl eq_refl (mk_is_Some _ _ eq_refl))
    as (g' & s & st & Hq & _ & Hget & Hst & Hcb & Hold).
  exists g', s, st. repeat (split; [assumption|]).
  exact (Hold 0 (mkState (Some 0) (flag "checked") [0]) eq_refl).
Defined.



(** The panel that shows itself: once visible, a trigger never returns. *)
Lemma self_relationship_never_returns_witness :
  change 1000 looped 0 ["panel.visible"] = OutOfFuel.
Proof.
  apply (self_relationship_never_returns looped 0
           (mkElement "panel" [("visible", 0)] [("show", 0)])
           "visible" 0 (mkState (Some 0) (flag "visible") [0])
           0 (mkModifier (Some 0) (raise "visible") [0])
           (λ w, "panel.visible" ∈ w)
           eq_refl eq_refl eq_refl eq_refl eq_refl eq_refl eq_refl).
  - intros w Hw. split.
    + apply bool_decide_eq_true. exact Hw.
    + apply list_elem_of_further. exact Hw.
  - apply list_elem_of_here.
Defined.


(** The relationship that was set up twice shows the panel twice. *)
Lemma publish_runs_subscribers_in_order_witness :
  ∃ tr', publish 1 doubled 0 (["checkbox.checked"], [])
         = Done (["panel.visible"; "panel.visible"; "checkbox.checked"], tr')
    ∧ mutations tr' = [(0, "panel"); (0, "panel")].
Proof.
  exact (publish_runs_subscribers_in_order doubled 0
           (mkState (Some 0) (flag "checked") [0; 0]) 0
           ["checkbox.checked"] [] eq_refl eq_refl).
Defined.

(** Two host references with one key: the Element keeps the first. *)
Lemma Element_keeps_its_first_host_witness :
  ∃ e el,
    resolve "second" (resolve (World:=World) "first" (init by_form)).1
    = ((resolve (World:=World) "first" (init by_form)).1, Ok e)
    ∧ heapE (resolve (World:=World) "first" (init by_form)).1 !! e = Some el
    ∧ Element_host el = "first".
Proof.
  refine (Element_keeps_its_first_host (init by_form) "first" "second" []
            (ex_intro _ by_form (ex_intro _ [] eq_refl)) _ eq_refl eq_refl eq_refl).
  simpl. discriminate.
Defined.

Lemma staged_inherited_call :
  createRelationship "panel" "visible" "field" "show" true staged
  = (staged_inherited, Ok tt).
Proof. vm_compute. reflexivity. Qed.

(** The downstream stage inherits from Modifier 0 of the panel, whose
    own subscription list stays as it was. *)
Lemma createRelationship_subscribes_only_the_dependent_witness :
  subscriptions staged_inherited 0 = subscriptions staged 0.
Proof.
  destruct (createRelationship_subscribes_only_the_dependent staged
              "panel" "visible" "field" "show" true staged_inherited
              PageFacts.staged_reachable staged_inherited_call)
    as (eT & elT & mref & HT & HelT & Hm & Hothers & _).
  assert (Hkt : getElementKey staged "field" ≠ "__proto__") by (vm_compute; discriminate).
  specialize (HT Hkt). vm_compute in HT. injection HT as <-.
  vm_compute in HelT. injection HelT as <-.
  vm_compute in Hm. injection Hm as <-.
  apply Hothers. discriminate.
Defined.

Lemma shadowed_reachable : reachable shadowed.
Proof. exists by_id, shadowed_setup. reflexivity. Qed.

Lemma shadowed_not_searchable : searchable shadowed = false.
Proof. vm_compute. reflexivity. Qed.

(** The panel whose id is "hasOwnProperty" was set up; after that, and
    after one more template, a relationship between two other hosts
    throws. *)
Lemma Element_under_hasOwnProperty_disables_the_registry_witness :
  elements shadowed !! "hasOwnProperty" = Some 1
  ∧ createRelationship "door" "checked" "panel" "show" false
      (after one_more shadowed)
    = (after one_more shadowed,
       Throw (NotAFunction "hasOwnProperty")).
Proof.
  split; [vm_compute; reflexivity|].
  exact (Element_under_hasOwnProperty_disables_the_registry shadowed one_more
           "door" "checked" "panel" "show" false
           shadowed_reachable shadowed_not_searchable).
Defined.

Lemma stringy_modifier_reachable : reachable stringy_modifier.
Proof.
  exists by_id, [ OpAddState "checked" (flag "checked");
                  OpAddModifier "toString" (raise "visible") ].
  reflexivity.
Qed.

(** Both templates are registered, the modifier under "toString": the
    relationship cannot be set up. *)
Lemma prototype_names_are_never_attached_witness :
  is_Some (modifiersContainer stringy_modifier !! "toString")
  ∧ (createRelationship "checkbox" "checked" "panel" "toString" false
       stringy_modifier).2 ≠ Ok tt.
Proof.
  split; [by eexists|].
  exact (proj2 (prototype_names_are_never_attached stringy_modifier
                  stringy_modifier_reachable)
               "checkbox" "checked" "panel" "toString" false (or_intror eq_refl)).
Defined.

Lemma createRelationship_fails_in_five_ways_witness :
  UnknownTemplate "hide" = NotAFunction "hasOwnProperty"
  ∨ (statesContainer single !! "checked" = None
     ∧ UnknownTemplate "hide" = UnknownTemplate "checked")
  ∨ (modifiersContainer single !! "hide" = None
     ∧ UnknownTemplate "hide" = UnknownTemplate "hide")
  ∨ (Js.inherited "hide" = true ∧ UnknownTemplate "hide" = NotAFunction "subscribe")
  ∨ (Js.inherited "checked" = true
     ∧ UnknownTemplate "hide" = NotAFunction "addModifier").
Proof.
  exact (createRelationship_fails_in_five_ways single
           "checkbox" "checked" "panel" "hide" false (UnknownTemplate "hide")
           PageFacts.single_reachable eq_refl eq_refl hide_call_result).
Defined.

(** With a state template registered under "__proto__" the container
    answers to the members of that template: here the model stops, where
    the source goes on with a State whose callback is [undefined]. *)
Lemma installed_prototype_answers_to_publish :
  statesContainer installed !! "publish" = None
  ∧ is_Some (statesContainer installed !! "__proto__")
  ∧ (createRelationship "checkbox" "publish" "panel" "show" false installed).2
    = Throw (UntypedCallback "publish")
  ∧ (createRelationship "checkbox" "element" "panel" "show" false installed).2
    = Throw NullReference
  ∧ (createRelationship "checkbox" "open" "panel" "show" false installed).2
    = Throw (UnknownTemplate "open").
Proof.
  split; [reflexivity|]. split; [by eexists|]. split_and!; vm_compute; reflexivity.
Qed.

(** The host with the id "__proto__" is resolved on the empty page. *)
Lemma proto_key_is_resolved_anew_each_time_witness :
  resolve "__proto__" blank = (with_unlisted_Element "__proto__" blank, Ok 0)
  ∧ elements (with_unlisted_Element "__proto__" blank) = elements blank.
Proof.
  destruct (proto_key_is_resolved_anew_each_time blank "__proto__"
              PageFacts.blank_reachable) as [_ H].
  destruct (H eq_refl eq_refl) as (Hq & Hreg & _).
  split; [exact Hq | exact Hreg].
Defined.

(** The page [single] registers nothing under "__proto__". *)
Lemma prototype_is_installed_by_registration_only_witness :
  statesContainer single !! "__proto__" = None
  ∧ (createRelationship "checkbox" "publish" "panel" "show" false single).2
    ≠ Throw (UntypedCallback "publish").
Proof.
  destruct (prototype_is_installed_by_registration_only by_id single_setup
              eq_refl eq_refl) as (HS & _ & Hcall).
  split; [exact HS|].
  exact (Hcall "checkbox" "publish" "panel" "show" false "publish").
Defined.

End PageChecks.
